(* ===== verification/_CoqProject ===== *)
-Q . S2P
Prelude.v
Cards.v
State.v
Storage.v
Tableau.v
Scores.v
Dealing.v
Marks.v
Moves.v
Safety.v
UndoLog.v
Clearance.v
Table.v
History.v
Game.v
