(* ===== verification/Prelude.v ===== *)
(** * Spider Solitaire (spider-solitaire.js): a verified model of the game engine

    The program is one JavaScript object, [SpiderSolitaire], in
    [src/V2/ssjs/spider-solitaire.js].  Its fields hold the game (the deck of
    104 card objects, 23 piles of references to them, the undo log, the
    score) and its methods are the handlers the page calls: [newGame],
    [deal], [moveCard], [undo], with the helpers [prepareCards],
    [recordMove], [checkAndDoRemove], [highScoreCheck],
    [getPileContainingCard], [getPileDroppedOn], [refreshTable],
    [setDraggableCards], [saveGame], [forgetGame] and [countSuits].
    [initHandlers] binds them to the buttons, the keyboard, the drop of
    a dragged card and the click on a card.  This development is a
    shallow embedding of those methods and of the bindings, and the
    theorems that make them correct.

    ** Files

    - [Prelude] (this file): the JavaScript array operations the engine
      uses ([js_pop], [js_splice], [js_insert_at]) with their out-of-range
      behaviour written out, the same operations on one pile of the array
      of piles ([pile_pop], [pile_push], [pile_splice], [pile_concat]),
      [transfer] (the splice and concat of a move as one function), the
      lemmas every component shares (a card moved between piles keeps the
      cards, a transfer is undone by the transfer back), the scope
      [js_scope], the hint databases [spider] and the tactics.
    - [Cards]: the card object ([Card], lines 373-379 and 396), the deck
      as the store of card objects, field updates by reference, pile
      kinds, and decks up to the draggable mark ([unmarked]).
    - [State]: the record [State] of the fields of the game object (lines
      36-48) and of the parts of the browser the handlers act on, one
      setter per assignment, [Math_random], [alert].
    - [Storage]: [saveGame], [readGame], [readStorage], [forgetGame],
      [resetHighScores] (lines 1031-1114) over a record of optional items.
    - [Tableau]: [getPileContainingCard], [getPileDroppedOn],
      [setDraggableCards], [refreshTable] (lines 924-1022), the invariant
      [wf] and the preorder [keeps] on states that hold the same cards.
    - [Scores]: [highScoreCheck] (lines 891-920) and the order of the
      list of high scores.
    - [Dealing]: [prepareCards] (315-424), [countSuits] (1175-1183) and
      [newGame] (224-233, 265 and 310).
    - [Marks]: which cards [setDraggableCards] marks, as a property of
      the piles ([marks_ok], [is_run]).
    - [Moves]: [recordMove], [checkAndDoRemove], [showMenu], [moveCard],
      [deal] (lines 428-505, 596-611, 811-887).
    - [Safety]: the invariant [homes_ok] and the absence of [TypeError]s
      in [deal].
    - [UndoLog]: [undo] (lines 509-578) with its recursive call.
    - [Clearance]: the removal of a full suit, its undo together with the
      move that caused it, and the end of the game.
    - [Table]: the invariant [table_ok] of the piles ([Tableau.wf],
      [Safety.homes_ok] and [stock_ok] on the deal stacks), the
      equivalence [same_table] of states that differ in the draggable
      marks and the fields of the page only, and that a move, a
      removal, a deal and a new game keep [table_ok].
    - [History]: [undoes_to] and the inductive predicate [unwinds] on
      the undo log; every record a handler pushes is one that [undo]
      takes back.
    - [Game]: the bindings of [initHandlers] (lines 83-175) as the
      function [handle] on the type [Event], with [checkForNewGame],
      [abortGame] (208-221), [keyPress] (582-592), the handlers of
      [drop] and of the click on a card; the states a game reaches
      ([reachable]) and their invariant [game_ok].

    ** How the JavaScript is modelled

    - A card object is a [Card] record.  The engine keeps every card in
      [ssObj.deck] and, by reference, in exactly one pile.  The model keeps
      the objects in [deck] and a pile is a list of indices into it: the
      index of a card is its [id] (line 396 assigns [pile[id].id = id]).
      A write through a pile ([card.facingUp = true]) is an update of the
      store, so both views see it, as in the program.
    - [ssObj.piles] always has 23 entries (lines 362-366 allocate them,
      line 1062 refuses a saved game without them, and no handler changes
      the length: it is part of [wf]).  Reads of a pile are total lookups;
      reads of a card of a pile that may be empty
      ([pile[pile.length - 1]]) are [option]s.
    - A handler that would dereference [undefined] throws a [TypeError]
      and the browser abandons it.  Such a handler returns [None]; the
      safety theorems show where this cannot happen.
    - A handler is a function [State → option (result * State)], written
      in the order of the statements of the source, each assignment a
      setter of [State]; a handler that calls another calls its model.
    - [getPileContainingCard] assigns the variable [topCard] without
      declaring it, so it is a global that outlives the call; it is the
      field [topCard] of [State].
    - [Math.random] is an oracle: the state carries the sequence of its
      future results ([entropy], read at position [drawn]), each as the
      integer [floor (r * 1000)], which is all the program looks at.
    - The page ([$(...)] calls) is not modelled, except the facts the
      engine itself sets and that gate the handlers: whether the Deal and
      Undo buttons are disabled, and the dialogs raised by [ssObj.alert].
      The element a card is dropped on is a [Target]: the base of a column
      or a card.

    ** Theorems

    - Card conservation.  [Tableau.wf]: 23 piles, 104 cards, each card at
      the index that is its id and in exactly one pile.  [newGame]
      establishes it ([Dealing.newGame_fresh]); [moveCard], [deal] and
      [undo] keep it on every path ([Moves.moveCard_wf], [Moves.deal_wf],
      [UndoLog.undo_wf]).  Each handler is shown to relate its states by
      [keeps], and [wf] is [Proper] for [keeps].
    - Undo.  A move and its undo ([UndoLog.move_undo]), and a move that
      completed a suit and its undo ([Clearance.clear_undo]), restore the
      piles, the log and every card up to its draggable mark; both leave
      the score 2 lower than it was.  [undo] calls itself after the undo
      of a clearance: [UndoLog.undo_terminates] shows that the fuel
      [S (length moves)] is enough.
    - Safety.  [Safety.deal_safe]: while each home is empty or holds at
      least a suit ([Safety.homes_ok]) [deal] returns; [Moves.deal_gated].
    - The game as a whole.  [Game.reachable] is the least set of states
      that holds the result of [newGame(true)] and is closed under
      [Game.handle] for the events the page can deliver
      ([Game.enabled]: a drag starts on a card with the class
      [canDrag]; a drop or a click is on one of the ten bases or on a
      card).  [Game.reachable_ok] shows by induction on it that every
      reachable state satisfies [Game.game_ok]: [Table.table_ok],
      [Marks.marks_ok], the selection is a card that can be dragged,
      and [History.unwinds].  [Game.handle_total]: no handler throws
      on a reachable state.  [Game.undo_reaches_start]: the Undo
      button, pressed at most as often as the log has records, empties
      the log.  [Game.undo_reverts] and [History.deal_undo]: the Undo
      button after an action that was recorded brings back the table
      before it, up to [Table.same_table].
    - Legality of a move.  [Moves.moveCard_rank] (a drop on a card is a
      comparison of ranks and nothing else), [Moves.moveCard_base_unchecked]
      (a drop on a base is never refused), [Moves.moveCard_refused].
    - Clearance and the end of the game.  [Clearance.fullSuitOnTop_spec]
      (the loop of lines 841-851 against the definition of a full suit),
      [Clearance.removeSuit_effect], [Clearance.win_new_game].
    - New game.  [Dealing.newGame_face_up].
    - High scores.  [Scores.highScoreCheck_sorted],
      [Scores.highScoreCheck_bound].

    Each theorem with a hypothesis has a witness on one of the example
    states.  [Dealing.started], [Moves.gapped], [Moves.moved],
    [Moves.dealt_out], [History.dealt], [Clearance.cleared] and
    [Clearance.won] are what the handlers return from a new game and
    from each other;
    [Clearance.nearly], [Clearance.last_suit] and [Scores.three_scores]
    are built by hand to have a suit about to be completed and a list
    of high scores.  All are kept as literals.

    ** Bounds and fuel

    Integers that can be negative in the program (the score, the sentinel
    card ids -1 and -2 of the undo log, [spareHome = -2]) are [Z]; indices
    and counts are [nat].  Nothing in the engine depends on the width of a
    machine integer.  Two loops are not structural.  [undo] recurses once
    for each clearance record on top of the log, and each call pops a
    record: [undo_fuel] gets [S (length (moves st))] calls and
    [UndoLog.undo_terminates] shows that more fuel gives the same result.
    The loops of [prepareCards] have constant bounds (8 x 13 cards, the
    8000 exchanges of the shuffle, 5 x 10 and 54 cards dealt) and are
    folds over those ranges.

    ** Not modelled

    The writes to the page: [init] (62-79), the handlers of
    [initHandlers] for the mouse buttons, the resize of the window and
    the buttons Compact and Hide (94-96, 105-122, 178-199), the drawing
    of [newGame] (236-304), the dialog of the menu (612-806),
    [respaceCards], [displayScore], [compact], [hide], [loadImages],
    [getTemplate], the dialog of [confirm].  They change no field of
    the game except through the handlers modelled here.

    [Game.reachable] starts at a table dealt by [newGame(true)], which
    is what the button New and the end of a game call.  It leaves out
    two ways into a game: [init] calls [newGame(false)], which takes
    up the game found in the store, and the menu restores a backup from
    a text the player supplies (680-729).  Both put into the piles
    what they read, without a check beyond the number of piles
    ([Storage.readGame]), so nothing can be shown of the states they
    lead to.  The buttons of the menu that change the name of the
    player, the number of suits of the next game and the list of high
    scores are left out as well; they do not touch the piles, the
    cards or the log.  The answer Confirm to the dialog of
    [checkForNewGame] is an event that the model lets happen at any
    time, and a disabled button is taken to deliver its click: both
    make [Game.reachable] larger than the set of states the page can
    reach, so the invariant and the safety theorem hold of the
    page.  A drag is one event, since a browser delivers no click and
    no key between [dragstart] and [drop]; the text of the drag is
    taken to be the id stored at [dragstart]. *)

From stdpp Require Import base list strings numbers option.

(** ** Scope and automation *)

Declare Scope js_scope.
Delimit Scope js_scope with js.

(** [spider] collects the rewrite rules on array operations; the
    database of the same name for [auto] holds the side conditions. *)
Create HintDb spider discriminated.
Create Rewrite HintDb spider.

(** Division on [nat] is kept folded, as stdpp does for [Z] and [N]. *)
#[global] Arguments Nat.modulo : simpl never.
#[global] Arguments Nat.div : simpl never.

(** Case analysis on the first [if], [match] or [decide] of the goal. *)
Ltac split_guard :=
  match goal with
  | |- context [decide ?P] => destruct (decide P)
  | |- context [bool_decide ?P] => destruct (bool_decide_reflect P)
  | |- context [if ?b then _ else _] => destruct b eqn:?
  | |- context [match ?x with _ => _ end] => destruct x eqn:?
  end.

(** The same on a hypothesis. *)
Ltac split_guard_in H :=
  match type of H with
  | context [decide ?P] => destruct (decide P)
  | context [if ?b then _ else _] => destruct b eqn:?
  | context [match ?x with _ => _ end] => destruct x eqn:?
  end.

(** ** JavaScript arrays *)

Section JsArray.
Context {A : Type}.
Implicit Types (l k : list A) (x : A).

(** [a.pop()]: the last element and the array without it; [undefined]
    on an empty array, which is left as it is. *)
Definition js_pop (l : list A) : option (A * list A) :=
  match list.last l with
  | Some x => Some (x, take (length l - 1) l)
  | None => None
  end.

(** The first index [a.splice(start, ...)] touches: a negative [start]
    counts from the end, and both cases are clamped to the array. *)
Definition js_splice_start (start : Z) (len : nat) : nat :=
  if decide (start < 0)%Z then Z.to_nat (Z.max (Z.of_nat len + start) 0)
  else Nat.min (Z.to_nat start) len.

(** [a.splice(start, deleteCount)]: the elements removed, and what is
    left of the array. *)
Definition js_splice (start deleteCount : Z) (l : list A) : list A * list A :=
  let s := js_splice_start start (length l) in
  let c := Nat.min (Z.to_nat deleteCount) (length l - s) in
  (take c (drop s l), take s l ++ drop (s + c) l).

(** [a.splice(index, 0, x)]: insertion before position [index]. *)
Definition js_insert_at (index : nat) (x : A) (l : list A) : list A :=
  take index l ++ x :: drop index l.

Lemma js_pop_snoc l x : js_pop (l ++ [x]) = Some (x, l).
Proof.
  unfold js_pop. rewrite last_snoc, length_app. simpl.
  replace (length l + 1 - 1) with (length l) by lia.
  by rewrite take_app_length.
Qed.

Lemma js_pop_nil : js_pop (@nil A) = None.
Proof. done. Qed.

Lemma js_pop_Some l x k : js_pop l = Some (x, k) → l = k ++ [x].
Proof.
  unfold js_pop. destruct l as [|y l] using rev_ind; [done|].
  rewrite last_snoc, length_app. simpl.
  replace (length l + 1 - 1) with (length l) by lia.
  rewrite take_app_length. congruence.
Qed.

Lemma js_pop_None l : js_pop l = None ↔ l = [].
Proof.
  split; [|by intros ->].
  destruct l as [|y l] using rev_ind; [done|]. by rewrite js_pop_snoc.
Qed.

Lemma js_splice_nil start count : js_splice start count (@nil A) = ([], []).
Proof. unfold js_splice. by rewrite !drop_nil, !take_nil. Qed.

Lemma js_splice_start_nonneg (n len : nat) :
  n ≤ len → js_splice_start (Z.of_nat n) len = n.
Proof. intros. unfold js_splice_start. split_guard; lia. Qed.

(** The engine's only use with a position: everything from [pos] on. *)
Lemma js_splice_suffix l (pos : nat) :
  pos ≤ length l →
  js_splice (Z.of_nat pos) (Z.of_nat (length l) - Z.of_nat pos) l
  = (drop pos l, take pos l).
Proof.
  intros Hle. unfold js_splice. rewrite js_splice_start_nonneg by done.
  replace (Nat.min _ _) with (length l - pos) by lia.
  rewrite take_ge by (rewrite length_drop; lia).
  rewrite (drop_ge l (pos + _)) by lia. by rewrite app_nil_r.
Qed.

(** Its other use: the last [n] elements. *)
Lemma js_splice_last l (n : nat) :
  n ≤ length l →
  js_splice (Z.of_nat (length l) - Z.of_nat n) (Z.of_nat n) l
  = (drop (length l - n) l, take (length l - n) l).
Proof.
  intros Hle.
  replace (Z.of_nat (length l) - Z.of_nat n)%Z
    with (Z.of_nat (length l - n)) by lia.
  replace (Z.of_nat n) with (Z.of_nat (length l) - Z.of_nat (length l - n))%Z
    at 1 by lia.
  apply js_splice_suffix. lia.
Qed.

(** A suffix appended and spliced off again. *)
Lemma js_splice_app l k :
  js_splice (Z.of_nat (length l)) (Z.of_nat (length k)) (l ++ k) = (k, l).
Proof.
  pose proof (js_splice_suffix (l ++ k) (length l)) as H.
  rewrite length_app in H.
  replace (Z.of_nat (length l + length k) - Z.of_nat (length l))%Z
    with (Z.of_nat (length k)) in H by lia.
  rewrite H by lia. by rewrite drop_app_length, take_app_length.
Qed.

(** Whatever the arguments, [splice] loses nothing and invents nothing. *)
Lemma js_splice_perm start count l :
  (js_splice start count l).1 ++ (js_splice start count l).2 ≡ₚ l.
Proof.
  unfold js_splice. simpl.
  set (s := js_splice_start start (length l)).
  set (c := Nat.min _ _).
  rewrite Permutation_app_swap_app.
  by rewrite <- drop_drop, !take_drop.
Qed.

Lemma js_insert_at_length index x l :
  length (js_insert_at index x l) = S (length l).
Proof.
  unfold js_insert_at. rewrite length_app. simpl.
  rewrite length_take, length_drop. lia.
Qed.

Lemma js_insert_at_perm index x l : js_insert_at index x l ≡ₚ x :: l.
Proof.
  unfold js_insert_at. rewrite <- Permutation_middle.
  by rewrite take_drop.
Qed.

End JsArray.

#[export] Hint Rewrite @js_pop_snoc @js_splice_app : spider.
Arguments js_splice : simpl never.
Arguments js_pop : simpl never.

(** ** Exchanging two elements *)

Section Swap.
Context `{Inhabited A}.

(** [t = a[i]; a[i] = a[j]; a[j] = t] keeps the elements of the array. *)
Lemma swap_perm (l : list A) i j :
  i < length l → j < length l →
  <[j := l !!! i]> (<[i := l !!! j]> l) ≡ₚ l.
Proof.
  intros Hi Hj. apply Permutation_inj. split.
  { by rewrite !length_insert. }
  exists (λ k, if decide (k = i) then j else if decide (k = j) then i else k).
  split.
  { intros a b. repeat case_decide; congruence. }
  intros k.
  pose proof (list_lookup_lookup_total_lt l i Hi).
  pose proof (list_lookup_lookup_total_lt l j Hj).
  destruct (decide (k = j)) as [->|].
  - rewrite list_lookup_insert_eq by (by rewrite length_insert).
    repeat case_decide; congruence.
  - rewrite list_lookup_insert_ne by done.
    destruct (decide (k = i)) as [->|].
    + by rewrite list_lookup_insert_eq.
    + by rewrite list_lookup_insert_ne.
Qed.

End Swap.

(** ** Arrays of piles

    [ssObj.piles] is an array of arrays.  The four statements the engine
    uses on it, with the pile named by its index.  An index outside the
    array cannot occur (see the header); [insert] then leaves the array
    as it is. *)

Section Piles.
Context {A : Type}.
Implicit Types (ps : list (list A)) (p q hand : list A) (x : A).

(** [hand = piles[i].splice(start, count)] *)
Definition pile_splice (i : nat) (start count : Z) ps : list A * list (list A) :=
  ((js_splice start count (ps !!! i)).1,
   <[i := (js_splice start count (ps !!! i)).2]> ps).

(** [piles[j] = piles[j].concat(hand)] *)
Definition pile_concat (j : nat) hand ps : list (list A) :=
  <[j := ps !!! j ++ hand]> ps.

(** [piles[j].push(x)] *)
Definition pile_push (j : nat) x ps : list (list A) :=
  <[j := ps !!! j ++ [x]]> ps.

(** [x = piles[i].pop()] *)
Definition pile_pop (i : nat) ps : option (A * list (list A)) :=
  '(x, rest) ← js_pop (ps !!! i); Some (x, <[i := rest]> ps).

Lemma list_insert_total_id `{!Inhabited B} (l : list B) i :
  <[i := l !!! i]> l = l.
Proof.
  apply list_insert_id'. intros. by apply list_lookup_lookup_total_lt.
Qed.

(** A pile that does not exist reads as the empty pile. *)
Lemma pile_lookup_ge ps i : length ps ≤ i → ps !!! i = [].
Proof. intros. by rewrite list_lookup_total_alt, lookup_ge_None_2. Qed.

Lemma concat_insert_perm ps i q :
  i < length ps → concat (<[i:=q]> ps) ++ ps !!! i ≡ₚ concat ps ++ q.
Proof.
  intros Hi. destruct (lookup_lt_is_Some_2 ps i Hi) as [p Hp].
  rewrite (list_lookup_total_correct _ _ _ Hp).
  rewrite insert_take_drop by done.
  rewrite <- (take_drop_middle ps i p Hp) at 3.
  rewrite !concat_app. simpl. rewrite <- !app_assoc.
  f_equiv.
  by rewrite (Permutation_app_comm q), (Permutation_app_comm _ p), <- app_assoc.
Qed.

Lemma pile_splice_length i start count ps :
  length (pile_splice i start count ps).2 = length ps.
Proof. apply length_insert. Qed.

Lemma pile_concat_length j hand ps : length (pile_concat j hand ps) = length ps.
Proof. apply length_insert. Qed.

Lemma pile_push_length j x ps : length (pile_push j x ps) = length ps.
Proof. apply length_insert. Qed.

Lemma pile_push_concat j x ps : pile_push j x ps = pile_concat j [x] ps.
Proof. done. Qed.

Lemma pile_pop_Some i ps x ps' :
  pile_pop i ps = Some (x, ps') →
  ps !!! i = ps' !!! i ++ [x] ∨ length ps ≤ i.
Proof.
  unfold pile_pop. intros H.
  destruct (js_pop (ps !!! i)) as [[y rest]|] eqn:Hpop; simplify_eq/=.
  apply js_pop_Some in Hpop.
  destruct (decide (i < length ps)); [left|right; lia].
  by rewrite list_lookup_total_insert_eq.
Qed.

Lemma pile_pop_lt i ps x ps' : pile_pop i ps = Some (x, ps') → i < length ps.
Proof.
  unfold pile_pop. intros H. destruct (decide (i < length ps)); [done|].
  by rewrite pile_lookup_ge, js_pop_nil in H by lia.
Qed.

Lemma pile_pop_snoc i ps p x :
  ps !!! i = p ++ [x] → pile_pop i ps = Some (x, <[i := p]> ps).
Proof. intros Hp. unfold pile_pop. by rewrite Hp, js_pop_snoc. Qed.

(** A pile that holds a card can be popped. *)
Lemma pile_pop_nonempty i ps :
  0 < length (ps !!! i) →
  ∃ p x, ps !!! i = p ++ [x] ∧ pile_pop i ps = Some (x, <[i := p]> ps).
Proof.
  intros Hlen. destruct (ps !!! i) as [|x p _] eqn:Hp using rev_ind;
    [simpl in Hlen; lia|].
  exists p, x. split; [done|]. by apply pile_pop_snoc.
Qed.

Lemma pile_pop_length i ps x ps' :
  pile_pop i ps = Some (x, ps') → length ps' = length ps.
Proof.
  unfold pile_pop. intros H.
  destruct (js_pop (ps !!! i)) as [[y rest]|]; simplify_eq/=.
  apply length_insert.
Qed.

Lemma pile_concat_perm j hand ps :
  j < length ps → concat (pile_concat j hand ps) ≡ₚ concat ps ++ hand.
Proof.
  intros Hj. unfold pile_concat.
  apply (Permutation_app_inv_r (ps !!! j)).
  rewrite concat_insert_perm by done.
  by rewrite <- !app_assoc, (Permutation_app_comm hand).
Qed.

Lemma pile_splice_perm i start count ps :
  concat (pile_splice i start count ps).2 ++ (pile_splice i start count ps).1
  ≡ₚ concat ps.
Proof.
  unfold pile_splice. cbn [fst snd].
  destruct (decide (i < length ps)) as [Hi|Hi]; last first.
  { rewrite list_insert_ge, pile_lookup_ge, js_splice_nil by lia.
    by rewrite app_nil_r. }
  set (r := js_splice start count (ps !!! i)).
  apply (Permutation_app_inv_r (ps !!! i)).
  rewrite <- app_assoc, (Permutation_app_comm r.1 (ps !!! i)), app_assoc.
  rewrite concat_insert_perm by done.
  rewrite <- app_assoc. f_equiv.
  rewrite (Permutation_app_comm r.2). apply js_splice_perm.
Qed.

Lemma pile_pop_perm i ps x ps' :
  pile_pop i ps = Some (x, ps') → i < length ps →
  x :: concat ps' ≡ₚ concat ps.
Proof.
  unfold pile_pop. intros H Hi.
  destruct (js_pop (ps !!! i)) as [[y rest]|] eqn:Hpop; simplify_eq/=.
  apply js_pop_Some in Hpop.
  apply (Permutation_app_inv_r (ps !!! i)).
  rewrite <- app_comm_cons, concat_insert_perm by done.
  rewrite Hpop, app_assoc. apply Permutation_cons_append.
Qed.

(** What was appended to a pile is what splicing its tail gives back:
    the step on which every undo rests. *)
Lemma pile_splice_concat j hand ps :
  j < length ps →
  pile_splice j (Z.of_nat (length (ps !!! j))) (Z.of_nat (length hand))
    (pile_concat j hand ps) = (hand, ps).
Proof.
  intros Hj. unfold pile_splice, pile_concat.
  rewrite list_lookup_total_insert_eq by done.
  rewrite js_splice_app. cbn [fst snd].
  by rewrite list_insert_insert_eq, list_insert_total_id.
Qed.

(** And conversely: the tail spliced off and appended again. *)
Lemma pile_concat_splice i (pos : nat) ps :
  i < length ps → pos ≤ length (ps !!! i) →
  let r := pile_splice i (Z.of_nat pos)
             (Z.of_nat (length (ps !!! i)) - Z.of_nat pos) ps in
  pile_concat i r.1 r.2 = ps.
Proof.
  intros Hi Hpos. unfold pile_splice, pile_concat. cbn [fst snd].
  rewrite js_splice_suffix by done. cbn [fst snd].
  rewrite list_lookup_total_insert_eq by done.
  by rewrite take_drop, list_insert_insert_eq, list_insert_total_id.
Qed.

(** A push is taken back by a pop, and a pop by a push. *)
Lemma pile_pop_push j x ps :
  j < length ps → pile_pop j (pile_push j x ps) = Some (x, ps).
Proof.
  intros Hj. unfold pile_push.
  rewrite (pile_pop_snoc _ _ (ps !!! j) x)
    by by rewrite list_lookup_total_insert_eq.
  by rewrite list_insert_insert_eq, list_insert_total_id.
Qed.

Lemma pile_push_pop i ps x ps' :
  pile_pop i ps = Some (x, ps') → i < length ps → pile_push i x ps' = ps.
Proof.
  unfold pile_pop, pile_push. intros H Hi.
  apply bind_Some in H as ([y rest] & Hpop%js_pop_Some & H). simplify_eq.
  rewrite list_lookup_total_insert_eq by done.
  by rewrite list_insert_insert_eq, <- Hpop, list_insert_total_id.
Qed.

End Piles.

(** ** A hand moved and moved back *)

Section Transfer.
Context {A : Type}.
Implicit Types (ps : list (list A)) (p q hand : list A) (x : A).

(** The splice of [moveCard]: the cards from a position on. *)
Lemma pile_splice_suffix i (pos : nat) ps p :
  ps !! i = Some p → pos ≤ length p →
  pile_splice i (Z.of_nat pos) (Z.of_nat (length (ps !!! i)) - Z.of_nat pos) ps
  = (drop pos p, <[i := take pos p]> ps).
Proof.
  intros Hp Hpos. unfold pile_splice.
  rewrite (list_lookup_total_correct _ _ _ Hp).
  by rewrite js_splice_suffix.
Qed.

Lemma pile_concat_lookup j hand ps :
  j < length ps → pile_concat j hand ps !! j = Some (ps !!! j ++ hand).
Proof. intros. by apply list_lookup_insert_eq. Qed.

(** The splice of [undo]: what [concat] appended, found by the position
    of its first card. *)
Lemma pile_splice_concat_tail j hand ps :
  j < length ps →
  let ps' := pile_concat j hand ps in
  pile_splice j (Z.of_nat (length (ps !!! j)))
    (Z.of_nat (length (ps' !!! j)) - Z.of_nat (length (ps !!! j))) ps'
  = (hand, ps).
Proof.
  intros Hj ps'. rewrite <- (pile_splice_concat j hand ps Hj). subst ps'.
  rewrite (list_lookup_total_correct _ _ _ (pile_concat_lookup j hand ps Hj)).
  rewrite length_app. do 2 f_equal. lia.
Qed.

End Transfer.

(** ** A hand moved to another pile *)

Section TransferPiles.
Context {A : Type}.
Implicit Types (ps : list (list A)) (p q hand : list A) (x : A).

(** The piles after the cards of pile [src] from position [pos] on were
    put on pile [tgt]. *)
Definition transfer (src pos tgt : nat) ps : list (list A) :=
  let r := pile_splice src (Z.of_nat pos)
             (Z.of_nat (length (ps !!! src)) - Z.of_nat pos) ps in
  pile_concat tgt r.1 r.2.

Lemma transfer_length src pos tgt ps :
  length (transfer src pos tgt ps) = length ps.
Proof. unfold transfer. by rewrite pile_concat_length, pile_splice_length. Qed.

(** The way back: the hand is the end of the target pile, whether its
    start is given by the position of its first card or by its length,
    and appended to what the source pile kept it gives the piles
    before. *)
Lemma transfer_back src pos tgt ps :
  src < length ps → pos ≤ length (ps !!! src) → tgt < length ps →
  let hand := drop pos (ps !!! src) in
  let rest := <[src := take pos (ps !!! src)]> ps in
  let T := transfer src pos tgt ps in
  (∀ start count : Z,
     start = (Z.of_nat (length (T !!! tgt)) - Z.of_nat (length hand))%Z →
     count = Z.of_nat (length hand) →
     pile_splice tgt start count T = (hand, rest))
  ∧ pile_concat src hand rest = ps.
Proof.
  intros Hsrc Hpos Htgt hand rest T.
  pose proof (list_lookup_lookup_total_lt ps src Hsrc) as Hp.
  assert (T = pile_concat tgt hand rest) as HT
    by (unfold T, transfer; by rewrite (pile_splice_suffix _ _ _ _ Hp)).
  assert (tgt < length rest) as Hlt by (unfold rest; by rewrite length_insert).
  split.
  - intros start count -> ->. rewrite HT.
    rewrite (list_lookup_total_correct _ _ _ (pile_concat_lookup _ _ _ Hlt)).
    rewrite length_app.
    replace (Z.of_nat (length (rest !!! tgt) + length hand) - Z.of_nat (length hand))%Z
      with (Z.of_nat (length (rest !!! tgt))) by lia.
    by apply pile_splice_concat.
  - pose proof (pile_concat_splice src pos ps Hsrc Hpos) as Hback.
    by rewrite (pile_splice_suffix _ _ _ _ Hp) in Hback.
Qed.

(** The transfer between two piles, pile by pile. *)
Lemma transfer_explicit src pos tgt ps :
  src < length ps → pos ≤ length (ps !!! src) → src ≠ tgt →
  transfer src pos tgt ps
  = <[tgt := ps !!! tgt ++ drop pos (ps !!! src)]>
      (<[src := take pos (ps !!! src)]> ps).
Proof.
  intros Hsrc Hpos Hne. unfold transfer.
  rewrite (pile_splice_suffix _ _ _ _ (list_lookup_lookup_total_lt ps src Hsrc))
    by done.
  unfold pile_concat. cbn [fst snd].
  by rewrite list_lookup_total_insert_ne.
Qed.

(** A transfer lets every pile but the source grow or stay: only the
    target gets cards. *)
Lemma transfer_other src pos tgt ps i :
  i ≠ src →
  ∃ more, transfer src pos tgt ps !!! i = ps !!! i ++ more
          ∧ (i ≠ tgt → more = []).
Proof.
  intros Hi. unfold transfer, pile_concat, pile_splice. cbn [fst snd].
  set (hand := (js_splice _ _ _).1). set (rest := (js_splice _ _ _).2).
  destruct (decide (i = tgt)) as [->|Hne].
  - destruct (decide (tgt < length ps)) as [Hlt|Hge].
    + exists hand. split; [|done].
      rewrite list_lookup_total_insert_eq by by rewrite length_insert.
      by rewrite list_lookup_total_insert_ne.
    + exists []. split; [|done].
      rewrite list_insert_ge by (rewrite length_insert; lia).
      by rewrite list_lookup_total_insert_ne, app_nil_r.
  - exists []. split; [|done].
    by rewrite !list_lookup_total_insert_ne, app_nil_r.
Qed.
End TransferPiles.

(** ** The cards of all piles

    [concat ps] lists the cards of the piles [ps] in the order of the
    piles. *)

Section Concat.
Context {A : Type}.
Implicit Types (ps : list (list A)) (p q : list A) (x : A).

Lemma elem_of_concat ps x : x ∈ concat ps ↔ ∃ p, x ∈ p ∧ p ∈ ps.
Proof.
  induction ps as [|q ps IH]; simpl.
  - split; [by intros ?%elem_of_nil|by intros (? & _ & ?%elem_of_nil)].
  - rewrite elem_of_app, IH. split.
    + intros [?|(p & ? & ?)]; [exists q|exists p]; rewrite elem_of_cons; eauto.
    + intros (p & ? & [->|?]%elem_of_cons); eauto.
Qed.

Lemma elem_of_concat_lookup ps i p x :
  ps !! i = Some p → x ∈ p → x ∈ concat ps.
Proof.
  intros Hp Hx. apply elem_of_concat. exists p. split; [done|].
  by eapply list_elem_of_lookup_2.
Qed.

(** When no card is in the piles twice, each pile has no card twice and
    no card is in two piles. *)
Lemma concat_NoDup_pile ps i p :
  NoDup (concat ps) → ps !! i = Some p → NoDup p.
Proof.
  revert i. induction ps as [|q ps IH]; intros [|i] Hn Hp; simplify_eq/=;
    apply list.NoDup_app in Hn as (? & ? & ?); eauto.
Qed.

Lemma concat_NoDup_lookup ps i j p q x :
  NoDup (concat ps) → ps !! i = Some p → ps !! j = Some q →
  x ∈ p → x ∈ q → i = j.
Proof.
  revert i j. induction ps as [|r ps IH]; intros [|i] [|j] Hn Hp Hq Hxp Hxq;
    simplify_eq/=; apply list.NoDup_app in Hn as (Hr & Hd & Hn); [done|..].
  - destruct (Hd x Hxp). by eapply elem_of_concat_lookup.
  - destruct (Hd x Hxq). by eapply elem_of_concat_lookup.
  - f_equal. by eapply IH.
Qed.

End Concat.

(** ** Counting the cards *)

Section Count.
Context {A : Type}.
Implicit Types (ps : list (list A)).

Lemma length_concat_sum ps : length (concat ps) = sum_list (length <$> ps).
Proof.
  induction ps as [|p ps IH]; [done|].
  simpl. by rewrite length_app, IH.
Qed.

Lemma sum_list_ge (k : nat) (l : list nat) :
  Forall (λ n, k ≤ n) l → k * length l ≤ sum_list l.
Proof. induction 1; simpl; lia. Qed.

Lemma sum_list_zero (l : list nat) : sum_list l = 0 → Forall (λ n, n = 0) l.
Proof.
  induction l as [|n l IH]; simpl; [done|].
  intros. constructor; [lia|apply IH; lia].
Qed.

(** The cards of the piles from [i] on, when those of [n] piles among
    the first [i] already make up all [total] cards. *)
Lemma piles_rest_empty ps (i n k total : nat) j :
  length (concat ps) = total →
  (∀ m, m < n → k ≤ length (ps !!! (i - n + m))) → n ≤ i →
  total ≤ k * n → i ≤ j → ps !!! j = [].
Proof.
  intros Htot Hk Hn Hle Hj.
  destruct (decide (j < length ps)) as [Hlt|]; [|apply pile_lookup_ge; lia].
  rewrite length_concat_sum in Htot.
  rewrite <- (take_drop i ps), fmap_app, sum_list_with_app in Htot.
  rewrite <- (take_drop (i - n) (take i ps)), fmap_app, sum_list_with_app in Htot.
  assert (k * n ≤ sum_list (length <$> drop (i - n) (take i ps))) as Hhomes.
  { assert (length (drop (i - n) (take i ps)) = n) as Hlen
      by (rewrite length_drop, length_take; lia).
    rewrite <- Hlen at 1. rewrite <- (length_fmap length).
    apply sum_list_ge, Forall_fmap, Forall_lookup. intros m p Hp.
    pose proof (lookup_lt_Some _ _ _ Hp) as Hm. rewrite Hlen in Hm.
    rewrite lookup_drop, lookup_take_lt in Hp by lia. simpl.
    specialize (Hk m Hm). by rewrite (list_lookup_total_correct _ _ _ Hp) in Hk. }
  assert (sum_list (length <$> drop i ps) = 0) as Hz by lia.
  apply sum_list_zero in Hz. rewrite Forall_fmap, Forall_lookup in Hz.
  assert (drop i ps !! (j - i) = Some (ps !!! j)) as Hjp.
  { rewrite lookup_drop. replace (i + (j - i)) with j by lia.
    by apply list_lookup_lookup_total_lt. }
  apply Hz in Hjp. simpl in Hjp. by apply length_zero_iff_nil.
Qed.

End Count.

Arguments pile_splice : simpl never.
Arguments pile_concat : simpl never.
Arguments pile_push : simpl never.
Arguments pile_pop : simpl never.
Arguments transfer : simpl never.
