(* ===== verification/Cards.v ===== *)
(** * Cards: the card object and the deck as a store of objects

    [prepareCards] builds each card as the object
    [{suit, value, hierarchy, facingUp, canDrag}] (lines 373-379) and
    gives it its [id] after the shuffle (lines 395-397).  The engine then
    reads and writes the fields of a card through whichever array holds a
    reference to it.  Here the objects live in one list, the deck, and a
    reference is the index of the object, which is its [id]. *)

From stdpp Require Import base list strings numbers option.
From S2P Require Import Prelude.

#[local] Open Scope string_scope.

(** ** The card object *)

Record Card := mkCard {
  suit : string;
  value : string;
  hierarchy : nat;
  facingUp : bool;
  canDrag : bool;
  id : nat
}.

#[export] Instance Card_eq_dec : EqDecision Card.
Proof. solve_decision. Defined.

#[export] Instance Card_inhabited : Inhabited Card :=
  populate (mkCard "" "" 0 false false 0).

(** Line 337 and line 354. *)
Definition suits : list string := ["c"; "d"; "h"; "s"].

Definition values : list string :=
  ["A"; "2"; "3"; "4"; "5"; "6"; "7"; "8"; "9"; "10"; "J"; "Q"; "K"].

(** ** Assignments to the fields of a card *)

(** [card.facingUp = b] *)
Definition set_facingUp (b : bool) (c : Card) : Card :=
  mkCard (suit c) (value c) (hierarchy c) b (canDrag c) (id c).

(** [card.canDrag = b] *)
Definition set_canDrag (b : bool) (c : Card) : Card :=
  mkCard (suit c) (value c) (hierarchy c) (facingUp c) b (id c).

(** [card.id = n] *)
Definition set_id (n : nat) (c : Card) : Card :=
  mkCard (suit c) (value c) (hierarchy c) (facingUp c) (canDrag c) n.

(** What never changes once a card has its id: the key of the card. *)
Definition face (c : Card) : string * string * nat * nat :=
  (suit c, value c, hierarchy c, id c).

(** ** The store *)

(** The card a reference denotes. *)
Definition card_at (deck : list Card) (ref : nat) : Card := deck !!! ref.

(** [card.facingUp = b] through the reference [ref]. *)
Definition write_facingUp (b : bool) (ref : nat) (deck : list Card) : list Card :=
  alter (set_facingUp b) ref deck.

(** [card.canDrag = b] through each reference of [refs], in order. *)
Definition write_canDrag (b : bool) (refs : list nat) (deck : list Card) : list Card :=
  foldl (λ d ref, alter (set_canDrag b) ref d) deck refs.

(** The cards of a pile as objects (what [JSON.stringify] sees). *)
Definition cards_of (deck : list Card) (pile : list nat) : list Card :=
  card_at deck <$> pile.

(** Every card sits at the index that is its id. *)
Definition ids_ok (deck : list Card) : Prop :=
  ∀ i c, deck !! i = Some c → id c = i.

#[export] Instance ids_ok_dec deck : Decision (ids_ok deck).
Proof.
  refine (cast_if (decide (Forall (λ p, id p.2 = p.1) (imap pair deck))));
    unfold ids_ok; rewrite Forall_lookup in *.
  - intros i c Hc. apply (f i (i, c)). by rewrite list_lookup_imap, Hc.
  - intros H. apply n. intros i [j c]. rewrite list_lookup_imap.
    destruct (deck !! i) eqn:E; intros; simplify_eq/=. eauto.
Defined.

(** ** Piles by kind

    Indices 0-4 are the stacks still to deal ([home_0]..[home_4], class
    [deal]), 5-12 the homes of completed suits, 13-22 the ten columns
    ([base_0]..[base_9]). *)

Definition is_deal_pile (i : nat) : Prop := i < 5.
Definition is_home_pile (i : nat) : Prop := 5 ≤ i < 13.
Definition is_column (i : nat) : Prop := 13 ≤ i < 23.

#[export] Instance is_deal_pile_dec i : Decision (is_deal_pile i) := _.
#[export] Instance is_home_pile_dec i : Decision (is_home_pile i) := _.
#[export] Instance is_column_dec i : Decision (is_column i) := _.

(** ** Cards up to their draggable mark

    [canDrag] is recomputed for every card by each refresh of the
    table, so two decks that agree once the marks are wiped are the same
    table. *)

Definition unmarked (deck : list Card) : list Card := set_canDrag false <$> deck.

(** ** Lemmas on field updates *)

Section Fields.
Implicit Types (c : Card) (deck : list Card) (b : bool).

Lemma face_set_facingUp b c : face (set_facingUp b c) = face c.
Proof. done. Qed.

Lemma face_set_canDrag b c : face (set_canDrag b c) = face c.
Proof. done. Qed.

Lemma set_facingUp_id b c : facingUp c = b → set_facingUp b c = c.
Proof. intros <-. by destruct c. Qed.

Lemma set_facingUp_twice b b' c :
  set_facingUp b (set_facingUp b' c) = set_facingUp b c.
Proof. done. Qed.

Lemma set_canDrag_facingUp b b' c :
  set_canDrag b (set_facingUp b' c) = set_facingUp b' (set_canDrag b c).
Proof. done. Qed.

Lemma write_facingUp_length b ref deck :
  length (write_facingUp b ref deck) = length deck.
Proof. apply length_alter. Qed.

Lemma write_canDrag_length b refs deck :
  length (write_canDrag b refs deck) = length deck.
Proof.
  revert deck. induction refs as [|r refs IH]; intros deck; [done|].
  simpl. by rewrite IH, length_alter.
Qed.

(** A flip and the flip back leave the store as it was. *)
Lemma write_facingUp_undo b ref deck :
  facingUp (card_at deck ref) = b →
  write_facingUp b ref (write_facingUp (negb b) ref deck) = deck.
Proof.
  intros Hb. unfold write_facingUp. rewrite list_alter_alter_eq.
  apply list_eq. intros j. rewrite list_lookup_alter.
  destruct (decide (ref = j)) as [<-|]; [|done].
  destruct (deck !! ref) as [c|] eqn:Hc; [|done]. simpl. f_equal.
  unfold card_at in Hb. rewrite (list_lookup_total_correct _ _ _ Hc) in Hb.
  rewrite set_facingUp_twice. by apply set_facingUp_id.
Qed.

Lemma card_at_write_facingUp_eq b ref deck :
  ref < length deck →
  card_at (write_facingUp b ref deck) ref = set_facingUp b (card_at deck ref).
Proof. intros. by apply list_lookup_total_alter_eq. Qed.

Lemma card_at_write_facingUp_ne b ref ref' deck :
  ref ≠ ref' → card_at (write_facingUp b ref deck) ref' = card_at deck ref'.
Proof. intros. by apply list_lookup_total_alter_ne. Qed.

(** A write of one field is not seen by a view that does not read it. *)
Lemma fmap_alter_blind {B} (view : Card → B) (g : Card → Card) ref deck :
  (∀ c, view (g c) = view c) → view <$> alter g ref deck = view <$> deck.
Proof.
  intros Hg. rewrite (list_fmap_alter view _ (λ x, x)).
  - by apply list_alter_id.
  - apply Forall_forall. intros. apply Hg.
Qed.

Lemma fmap_write_facingUp {B} (view : Card → B) b ref deck :
  (∀ b c, view (set_facingUp b c) = view c) →
  view <$> write_facingUp b ref deck = view <$> deck.
Proof. intros. by apply fmap_alter_blind. Qed.

Lemma fmap_write_canDrag {B} (view : Card → B) b refs deck :
  (∀ b c, view (set_canDrag b c) = view c) →
  view <$> write_canDrag b refs deck = view <$> deck.
Proof.
  intros Hv. revert deck. induction refs as [|r refs IH]; intros deck; [done|].
  simpl. rewrite IH. by apply fmap_alter_blind.
Qed.

(** Writes of the mutable fields keep the key of every card. *)
Lemma face_write_facingUp b ref deck :
  face <$> write_facingUp b ref deck = face <$> deck.
Proof. by apply fmap_write_facingUp. Qed.

Lemma face_write_canDrag b refs deck :
  face <$> write_canDrag b refs deck = face <$> deck.
Proof. by apply fmap_write_canDrag. Qed.

(** What a flip does to the faces shown. *)
Lemma facingUp_write_facingUp b ref deck :
  facingUp <$> write_facingUp b ref deck = <[ref := b]> (facingUp <$> deck).
Proof.
  unfold write_facingUp. rewrite list_insert_alter.
  apply list_fmap_alter, Forall_forall. done.
Qed.

(** Marking cards as draggable turns none over. *)
Lemma facingUp_write_canDrag b refs deck :
  facingUp <$> write_canDrag b refs deck = facingUp <$> deck.
Proof. by apply fmap_write_canDrag. Qed.

Lemma ids_ok_face deck deck' :
  face <$> deck = face <$> deck' → ids_ok deck → ids_ok deck'.
Proof.
  intros Hf Hok i c Hc.
  assert ((face <$> deck) !! i = Some (face c)) as H
    by (by rewrite Hf, list_lookup_fmap, Hc).
  rewrite list_lookup_fmap in H.
  destruct (deck !! i) as [c0|] eqn:E; [|done]. simpl in H.
  assert (id c0 = id c) as <- by (unfold face in H; congruence).
  by apply Hok.
Qed.

End Fields.

(** ** Lemmas on decks up to the marks *)

Section Unmarked.
Implicit Types (c : Card) (deck : list Card) (b : bool).

Lemma unmarked_write_facingUp b ref deck :
  unmarked (write_facingUp b ref deck) = write_facingUp b ref (unmarked deck).
Proof. apply list_fmap_alter, Forall_forall. done. Qed.

Lemma unmarked_write_canDrag b refs deck :
  unmarked (write_canDrag b refs deck) = unmarked deck.
Proof. by apply fmap_write_canDrag. Qed.

Lemma card_at_unmarked deck ref :
  card_at (unmarked deck) ref = set_canDrag false (card_at deck ref).
Proof.
  unfold card_at, unmarked. destruct (decide (ref < length deck)).
  - by apply list_lookup_total_fmap.
  - by rewrite !list_lookup_total_alt, !lookup_ge_None_2
      by (rewrite ?length_fmap; lia).
Qed.

(** What does not read the mark is the same on decks that agree up to
    the marks. *)
Lemma unmarked_view {B} (view : Card → B) deck deck' :
  (∀ b c, view (set_canDrag b c) = view c) →
  unmarked deck = unmarked deck' → view <$> deck = view <$> deck'.
Proof.
  intros Hv Hd. apply (f_equal (fmap view)) in Hd. unfold unmarked in Hd.
  rewrite <- !list_fmap_compose in Hd.
  etrans; [|etrans; [exact Hd|]]; apply list_fmap_ext; intros; simpl; by rewrite Hv.
Qed.

End Unmarked.

#[export] Hint Rewrite write_facingUp_length write_canDrag_length
  unmarked_write_facingUp unmarked_write_canDrag : spider.
#[export] Hint Resolve face_write_facingUp face_write_canDrag : spider.
