(* ===== verification/State.v ===== *)
(** * State: the fields of the game object and what surrounds it

    The [SpiderSolitaire] object keeps the game in its fields (lines
    36-48 and [playing], [cardSelected], [usingstorage], set later).
    [State] has one field for each that a handler reads or writes, and
    one for each part of the browser a handler acts on: the items of
    [localStorage], the disabled flags of the Deal and Undo buttons, the
    dialogs raised, the results [Math.random] will give, the clock, and
    the one global variable the engine reads back, [topCard].
    [ssObj.moveCount] (line 46) is never read or written again and has no
    field; the card dimensions (lines 52-58) only feed the style sheet. *)

From stdpp Require Import base list strings numbers option.
From S2P Require Import Prelude Cards.

#[local] Open Scope Z_scope.

(** ** Records of the undo log

    [recordMove] pushes [{cardId, sourcePile, targetPile, resultedInTurn}]
    (line 817).  [cardId] is -1 for a deal, -2 for a suit cleared, the id
    of the card moved otherwise; [deal] passes -1 for the last two fields
    (line 462), so they are integers and [resultedInTurn] is a boolean or
    a number. *)

Inductive Flag :=
| FBool (b : bool)
| FNum (n : Z).

#[export] Instance Flag_eq_dec : EqDecision Flag.
Proof. solve_decision. Defined.

(** JavaScript's truth value of a flag: [if (thisMove.resultedInTurn)]. *)
Definition truthy (f : Flag) : bool :=
  match f with
  | FBool b => b
  | FNum n => negb (n =? 0)
  end.

Record Move := mkMove {
  cardId : Z;
  sourcePile : Z;
  targetPile : Z;
  resultedInTurn : Flag
}.

#[export] Instance Move_eq_dec : EqDecision Move.
Proof. solve_decision. Defined.

(** ** High scores

    An entry is [{level, score, date, player}] (lines 900-904); entries
    saved by the version without levels have no [level]. *)

Module HighScore.
Record t := mk {
  level : option nat;
  score : Z;
  date : nat;
  player : string
}.
End HighScore.

#[export] Instance HighScore_eq_dec : EqDecision HighScore.t.
Proof. solve_decision. Defined.

(** [ssObj.scoresToKeep] (line 44), never assigned again. *)
Definition scoresToKeep : nat := 10.

(** ** The browser's store

    One field per item [saveGame] writes (lines 1035-1043); [None] is an
    item that is absent.  An item holds the value that was serialised:
    the piles are stored as the card objects they referred to then. *)

Record Storage := mkStorage {
  spidersolitaireMoves : option (list Move);
  spidersolitairePiles : option (list (list Card));
  spidersolitaireDeck : option (list Card);
  spidersolitaireScore : option Z;
  spidersolitaireHighScores : option (list HighScore.t);
  spidersolitairePlayerName : option string;
  spidersolitairePlayed : option nat;
  spidersolitaireWon : option nat
}.

#[export] Instance Storage_eq_dec : EqDecision Storage.
Proof. solve_decision. Defined.

Definition no_storage : Storage :=
  mkStorage None None None None None None None None.

(** ** The state *)

Record State := mkState {
  moves : list Move;  (** [ssObj.moves]: the undo log, oldest first *)
  piles : list (list nat);  (** [ssObj.piles]: 23 piles of references, bottom card first *)
  deck : list Card;  (** [ssObj.deck]: the card objects, by id *)
  playerName : string;
  highScores : list HighScore.t;
  statPlayed : nat;
  statWon : nat;
  score : Z;
  howManySuits : nat;
  howManySuitsNext : nat;
  playing : bool;
  cardSelected : Z;  (** the id of the card clicked on, or -1 *)
  usingstorage : bool;
  topCard : option nat;  (** the global [topCard] that [getPileContainingCard] assigns; [None] until then *)
  localStorage : Storage;  (** the browser's store for this page *)
  storageSupported : bool;  (** whether the browser has [localStorage] (line 1054) *)
  nostorageCookie : bool;  (** whether [document.cookie] holds [nostorage] (line 1065) *)
  dealDisabled : bool;  (** [$('#Deal').prop('disabled')] *)
  undoDisabled : bool;  (** [$('#Undo').prop('disabled')] *)
  alerts : list string;  (** the dialogs [ssObj.alert] has raised, oldest first *)
  entropy : N → nat;  (** the results of [Math.random], as [floor (r * 1000)] *)
  drawn : N;  (** how many of them have been drawn *)
  now : nat  (** the clock [new Date()] reads *)
}.

(** ** Assignments to the fields *)

Definition set_moves (v : list Move) (st : State) : State :=
  mkState v (piles st) (deck st) (playerName st) (highScores st) (statPlayed st) (statWon st) (score st) (howManySuits st) (howManySuitsNext st) (playing st) (cardSelected st) (usingstorage st) (topCard st) (localStorage st) (storageSupported st) (nostorageCookie st) (dealDisabled st) (undoDisabled st) (alerts st) (entropy st) (drawn st) (now st).

Definition set_piles (v : list (list nat)) (st : State) : State :=
  mkState (moves st) v (deck st) (playerName st) (highScores st) (statPlayed st) (statWon st) (score st) (howManySuits st) (howManySuitsNext st) (playing st) (cardSelected st) (usingstorage st) (topCard st) (localStorage st) (storageSupported st) (nostorageCookie st) (dealDisabled st) (undoDisabled st) (alerts st) (entropy st) (drawn st) (now st).

Definition set_deck (v : list Card) (st : State) : State :=
  mkState (moves st) (piles st) v (playerName st) (highScores st) (statPlayed st) (statWon st) (score st) (howManySuits st) (howManySuitsNext st) (playing st) (cardSelected st) (usingstorage st) (topCard st) (localStorage st) (storageSupported st) (nostorageCookie st) (dealDisabled st) (undoDisabled st) (alerts st) (entropy st) (drawn st) (now st).

Definition set_playerName (v : string) (st : State) : State :=
  mkState (moves st) (piles st) (deck st) v (highScores st) (statPlayed st) (statWon st) (score st) (howManySuits st) (howManySuitsNext st) (playing st) (cardSelected st) (usingstorage st) (topCard st) (localStorage st) (storageSupported st) (nostorageCookie st) (dealDisabled st) (undoDisabled st) (alerts st) (entropy st) (drawn st) (now st).

Definition set_highScores (v : list HighScore.t) (st : State) : State :=
  mkState (moves st) (piles st) (deck st) (playerName st) v (statPlayed st) (statWon st) (score st) (howManySuits st) (howManySuitsNext st) (playing st) (cardSelected st) (usingstorage st) (topCard st) (localStorage st) (storageSupported st) (nostorageCookie st) (dealDisabled st) (undoDisabled st) (alerts st) (entropy st) (drawn st) (now st).

Definition set_statPlayed (v : nat) (st : State) : State :=
  mkState (moves st) (piles st) (deck st) (playerName st) (highScores st) v (statWon st) (score st) (howManySuits st) (howManySuitsNext st) (playing st) (cardSelected st) (usingstorage st) (topCard st) (localStorage st) (storageSupported st) (nostorageCookie st) (dealDisabled st) (undoDisabled st) (alerts st) (entropy st) (drawn st) (now st).

Definition set_statWon (v : nat) (st : State) : State :=
  mkState (moves st) (piles st) (deck st) (playerName st) (highScores st) (statPlayed st) v (score st) (howManySuits st) (howManySuitsNext st) (playing st) (cardSelected st) (usingstorage st) (topCard st) (localStorage st) (storageSupported st) (nostorageCookie st) (dealDisabled st) (undoDisabled st) (alerts st) (entropy st) (drawn st) (now st).

Definition set_score (v : Z) (st : State) : State :=
  mkState (moves st) (piles st) (deck st) (playerName st) (highScores st) (statPlayed st) (statWon st) v (howManySuits st) (howManySuitsNext st) (playing st) (cardSelected st) (usingstorage st) (topCard st) (localStorage st) (storageSupported st) (nostorageCookie st) (dealDisabled st) (undoDisabled st) (alerts st) (entropy st) (drawn st) (now st).

Definition set_howManySuits (v : nat) (st : State) : State :=
  mkState (moves st) (piles st) (deck st) (playerName st) (highScores st) (statPlayed st) (statWon st) (score st) v (howManySuitsNext st) (playing st) (cardSelected st) (usingstorage st) (topCard st) (localStorage st) (storageSupported st) (nostorageCookie st) (dealDisabled st) (undoDisabled st) (alerts st) (entropy st) (drawn st) (now st).

Definition set_howManySuitsNext (v : nat) (st : State) : State :=
  mkState (moves st) (piles st) (deck st) (playerName st) (highScores st) (statPlayed st) (statWon st) (score st) (howManySuits st) v (playing st) (cardSelected st) (usingstorage st) (topCard st) (localStorage st) (storageSupported st) (nostorageCookie st) (dealDisabled st) (undoDisabled st) (alerts st) (entropy st) (drawn st) (now st).

Definition set_playing (v : bool) (st : State) : State :=
  mkState (moves st) (piles st) (deck st) (playerName st) (highScores st) (statPlayed st) (statWon st) (score st) (howManySuits st) (howManySuitsNext st) v (cardSelected st) (usingstorage st) (topCard st) (localStorage st) (storageSupported st) (nostorageCookie st) (dealDisabled st) (undoDisabled st) (alerts st) (entropy st) (drawn st) (now st).

Definition set_cardSelected (v : Z) (st : State) : State :=
  mkState (moves st) (piles st) (deck st) (playerName st) (highScores st) (statPlayed st) (statWon st) (score st) (howManySuits st) (howManySuitsNext st) (playing st) v (usingstorage st) (topCard st) (localStorage st) (storageSupported st) (nostorageCookie st) (dealDisabled st) (undoDisabled st) (alerts st) (entropy st) (drawn st) (now st).

Definition set_usingstorage (v : bool) (st : State) : State :=
  mkState (moves st) (piles st) (deck st) (playerName st) (highScores st) (statPlayed st) (statWon st) (score st) (howManySuits st) (howManySuitsNext st) (playing st) (cardSelected st) v (topCard st) (localStorage st) (storageSupported st) (nostorageCookie st) (dealDisabled st) (undoDisabled st) (alerts st) (entropy st) (drawn st) (now st).

Definition set_topCard (v : option nat) (st : State) : State :=
  mkState (moves st) (piles st) (deck st) (playerName st) (highScores st) (statPlayed st) (statWon st) (score st) (howManySuits st) (howManySuitsNext st) (playing st) (cardSelected st) (usingstorage st) v (localStorage st) (storageSupported st) (nostorageCookie st) (dealDisabled st) (undoDisabled st) (alerts st) (entropy st) (drawn st) (now st).

Definition set_localStorage (v : Storage) (st : State) : State :=
  mkState (moves st) (piles st) (deck st) (playerName st) (highScores st) (statPlayed st) (statWon st) (score st) (howManySuits st) (howManySuitsNext st) (playing st) (cardSelected st) (usingstorage st) (topCard st) v (storageSupported st) (nostorageCookie st) (dealDisabled st) (undoDisabled st) (alerts st) (entropy st) (drawn st) (now st).

Definition set_storageSupported (v : bool) (st : State) : State :=
  mkState (moves st) (piles st) (deck st) (playerName st) (highScores st) (statPlayed st) (statWon st) (score st) (howManySuits st) (howManySuitsNext st) (playing st) (cardSelected st) (usingstorage st) (topCard st) (localStorage st) v (nostorageCookie st) (dealDisabled st) (undoDisabled st) (alerts st) (entropy st) (drawn st) (now st).

Definition set_nostorageCookie (v : bool) (st : State) : State :=
  mkState (moves st) (piles st) (deck st) (playerName st) (highScores st) (statPlayed st) (statWon st) (score st) (howManySuits st) (howManySuitsNext st) (playing st) (cardSelected st) (usingstorage st) (topCard st) (localStorage st) (storageSupported st) v (dealDisabled st) (undoDisabled st) (alerts st) (entropy st) (drawn st) (now st).

Definition set_dealDisabled (v : bool) (st : State) : State :=
  mkState (moves st) (piles st) (deck st) (playerName st) (highScores st) (statPlayed st) (statWon st) (score st) (howManySuits st) (howManySuitsNext st) (playing st) (cardSelected st) (usingstorage st) (topCard st) (localStorage st) (storageSupported st) (nostorageCookie st) v (undoDisabled st) (alerts st) (entropy st) (drawn st) (now st).

Definition set_undoDisabled (v : bool) (st : State) : State :=
  mkState (moves st) (piles st) (deck st) (playerName st) (highScores st) (statPlayed st) (statWon st) (score st) (howManySuits st) (howManySuitsNext st) (playing st) (cardSelected st) (usingstorage st) (topCard st) (localStorage st) (storageSupported st) (nostorageCookie st) (dealDisabled st) v (alerts st) (entropy st) (drawn st) (now st).

Definition set_alerts (v : list string) (st : State) : State :=
  mkState (moves st) (piles st) (deck st) (playerName st) (highScores st) (statPlayed st) (statWon st) (score st) (howManySuits st) (howManySuitsNext st) (playing st) (cardSelected st) (usingstorage st) (topCard st) (localStorage st) (storageSupported st) (nostorageCookie st) (dealDisabled st) (undoDisabled st) v (entropy st) (drawn st) (now st).

Definition set_entropy (v : N → nat) (st : State) : State :=
  mkState (moves st) (piles st) (deck st) (playerName st) (highScores st) (statPlayed st) (statWon st) (score st) (howManySuits st) (howManySuitsNext st) (playing st) (cardSelected st) (usingstorage st) (topCard st) (localStorage st) (storageSupported st) (nostorageCookie st) (dealDisabled st) (undoDisabled st) (alerts st) v (drawn st) (now st).

Definition set_drawn (v : N) (st : State) : State :=
  mkState (moves st) (piles st) (deck st) (playerName st) (highScores st) (statPlayed st) (statWon st) (score st) (howManySuits st) (howManySuitsNext st) (playing st) (cardSelected st) (usingstorage st) (topCard st) (localStorage st) (storageSupported st) (nostorageCookie st) (dealDisabled st) (undoDisabled st) (alerts st) (entropy st) v (now st).

Definition set_now (v : nat) (st : State) : State :=
  mkState (moves st) (piles st) (deck st) (playerName st) (highScores st) (statPlayed st) (statWon st) (score st) (howManySuits st) (howManySuitsNext st) (playing st) (cardSelected st) (usingstorage st) (topCard st) (localStorage st) (storageSupported st) (nostorageCookie st) (dealDisabled st) (undoDisabled st) (alerts st) (entropy st) (drawn st) v.


(** Projections of assignments, reduced: the one step that every proof
    about a handler starts with. *)
Ltac simpl_state :=
  cbn [moves piles deck playerName highScores statPlayed statWon score howManySuits howManySuitsNext playing cardSelected usingstorage topCard localStorage storageSupported nostorageCookie dealDisabled undoDisabled alerts entropy drawn now
       set_moves set_piles set_deck set_playerName set_highScores set_statPlayed set_statWon set_score set_howManySuits set_howManySuitsNext set_playing set_cardSelected set_usingstorage set_topCard set_localStorage set_storageSupported set_nostorageCookie set_dealDisabled set_undoDisabled set_alerts set_entropy set_drawn set_now
       fst snd] in *.

(** ** The surroundings *)

(** [Math.random()], as the integer [floor (r * 1000)] of the result. *)
Definition Math_random (st : State) : nat * State :=
  ((entropy st (drawn st) mod 1000)%nat, set_drawn (N.succ (drawn st)) st).

(** [ssObj.alert(someHTML)] (lines 1133-1142): a dialog is raised. *)
Definition alert (someHTML : string) (st : State) : State :=
  set_alerts (alerts st ++ [someHTML]) st.

(** The index of a pile named by a number that may be negative or too
    large: [ssObj.piles[n]] is then [undefined]. *)
Definition pile_index (n : Z) (st : State) : option nat :=
  if decide (0 ≤ n < Z.of_nat (length (piles st))) then Some (Z.to_nat n)
  else None.

(** The top card of a pile, [pile[pile.length - 1]], as a reference. *)
Definition top_ref (stack : nat) (st : State) : option nat :=
  list.last (piles st !!! stack).

(** The card a reference of this state denotes. *)
Definition card (st : State) (ref : nat) : Card := card_at (deck st) ref.

(** The object as the constructor leaves it (lines 36-48), in given
    surroundings. *)
Definition initial (store : Storage) (supported cookie : bool)
    (rnd : N → nat) (clock : nat) : State :=
  mkState [] [] [] "" [] 0 0 500 4 4 false (-1) false None store
          supported cookie false true [] rnd 0%N clock.

Lemma pile_index_Some n st i :
  pile_index n st = Some i ↔ n = Z.of_nat i ∧ (i < length (piles st))%nat.
Proof.
  unfold pile_index.
  case_decide; split; intros; destruct_and?; simplify_eq;
    repeat split; try f_equal; lia.
Qed.

Lemma pile_index_of_nat (i : nat) st :
  (i < length (piles st))%nat → pile_index (Z.of_nat i) st = Some i.
Proof. intros. apply pile_index_Some. lia. Qed.

(** An assignment overwrites an earlier one to the same field. *)
Lemma set_piles_twice a b st : set_piles a (set_piles b st) = set_piles a st.
Proof. done. Qed.

Lemma set_deck_twice a b st : set_deck a (set_deck b st) = set_deck a st.
Proof. done. Qed.

Lemma set_topCard_twice a b st :
  set_topCard a (set_topCard b st) = set_topCard a st.
Proof. done. Qed.

Lemma set_topCard_same st : set_topCard (topCard st) st = st.
Proof. by destruct st. Qed.

#[export] Hint Rewrite set_piles_twice set_deck_twice : spider.
