(* ===== verification/Storage.v ===== *)
(** * Storage: the game in [localStorage]

    [saveGame] (lines 1031-1048), [readGame] (1053-1071), [readStorage]
    (1075-1087), [forgetGame] (1091-1102) and [resetHighScores]
    (1106-1114).  An item of the store holds the value that
    [JSON.stringify] was given: [JSON.parse] of it gives the value back,
    and a missing item makes [JSON.parse] throw, which [readStorage]
    turns into the default of the type asked for.  [setItem] and
    [removeItem] are taken to succeed (the program ignores their
    failures, lines 1044-1046).

    One identification is made.  The piles the program reads back are
    copies of the card objects, no longer the objects of [ssObj.deck]:
    after a reload a write through a pile does not reach the deck.
    The model keeps one object per card, so [readGame] reads the piles
    back as references ([ids_of_pile]) into the deck read.  The two
    agree on everything the engine reads after a reload, which is the
    cards through the piles and, through the deck, the fields that
    never change; they differ in the mutable fields of the deck that a
    later [saveGame] stores, which nothing reads back. *)

From stdpp Require Import base list strings numbers option.
From S2P Require Import Prelude Cards State.

#[local] Open Scope Z_scope.

(** ** Items *)

(** [localStorage.setItem(key, JSON.stringify(v))], one per key; with
    [None] it is [localStorage.removeItem(key)]. *)
Definition store_Moves (v : option (list Move)) (ls : Storage) : Storage :=
  mkStorage v (spidersolitairePiles ls) (spidersolitaireDeck ls)
    (spidersolitaireScore ls) (spidersolitaireHighScores ls)
    (spidersolitairePlayerName ls) (spidersolitairePlayed ls)
    (spidersolitaireWon ls).

Definition store_Piles (v : option (list (list Card))) (ls : Storage) : Storage :=
  mkStorage (spidersolitaireMoves ls) v (spidersolitaireDeck ls)
    (spidersolitaireScore ls) (spidersolitaireHighScores ls)
    (spidersolitairePlayerName ls) (spidersolitairePlayed ls)
    (spidersolitaireWon ls).

Definition store_Deck (v : option (list Card)) (ls : Storage) : Storage :=
  mkStorage (spidersolitaireMoves ls) (spidersolitairePiles ls) v
    (spidersolitaireScore ls) (spidersolitaireHighScores ls)
    (spidersolitairePlayerName ls) (spidersolitairePlayed ls)
    (spidersolitaireWon ls).

Definition store_Score (v : option Z) (ls : Storage) : Storage :=
  mkStorage (spidersolitaireMoves ls) (spidersolitairePiles ls)
    (spidersolitaireDeck ls) v (spidersolitaireHighScores ls)
    (spidersolitairePlayerName ls) (spidersolitairePlayed ls)
    (spidersolitaireWon ls).

Definition store_HighScores (v : option (list HighScore.t)) (ls : Storage) : Storage :=
  mkStorage (spidersolitaireMoves ls) (spidersolitairePiles ls)
    (spidersolitaireDeck ls) (spidersolitaireScore ls) v
    (spidersolitairePlayerName ls) (spidersolitairePlayed ls)
    (spidersolitaireWon ls).

Definition store_PlayerName (v : option string) (ls : Storage) : Storage :=
  mkStorage (spidersolitaireMoves ls) (spidersolitairePiles ls)
    (spidersolitaireDeck ls) (spidersolitaireScore ls)
    (spidersolitaireHighScores ls) v (spidersolitairePlayed ls)
    (spidersolitaireWon ls).

Definition store_Played (v : option nat) (ls : Storage) : Storage :=
  mkStorage (spidersolitaireMoves ls) (spidersolitairePiles ls)
    (spidersolitaireDeck ls) (spidersolitaireScore ls)
    (spidersolitaireHighScores ls) (spidersolitairePlayerName ls) v
    (spidersolitaireWon ls).

Definition store_Won (v : option nat) (ls : Storage) : Storage :=
  mkStorage (spidersolitaireMoves ls) (spidersolitairePiles ls)
    (spidersolitaireDeck ls) (spidersolitaireScore ls)
    (spidersolitaireHighScores ls) (spidersolitairePlayerName ls)
    (spidersolitairePlayed ls) v.

(** ** The handlers *)

(** What [JSON.stringify(ssObj.piles)] writes: each reference as the
    object it denotes. *)
Definition piles_as_objects (st : State) : list (list Card) :=
  cards_of (deck st) <$> piles st.

(** [saveGame]: the game only while playing, the player's record always. *)
Definition saveGame (st : State) : State :=
  if usingstorage st then
    let ls := localStorage st in
    let ls :=
      if playing st then
        store_Score (Some (score st))
          (store_Deck (Some (deck st))
            (store_Piles (Some (piles_as_objects st))
              (store_Moves (Some (moves st)) ls)))
      else ls in
    let ls :=
      store_Won (Some (statWon st))
        (store_Played (Some (statPlayed st))
          (store_PlayerName (Some (playerName st))
            (store_HighScores (Some (highScores st)) ls))) in
    set_localStorage ls st
  else st.

(** [forgetGame]: the four items of the game are removed. *)
Definition forgetGame (st : State) : State :=
  if usingstorage st then
    set_localStorage
      (store_Score None
        (store_Deck None
          (store_Piles None (store_Moves None (localStorage st))))) st
  else st.

(** [readStorage(item, type)]: the value parsed, or the default of the
    type when the item is missing. *)
Definition readStorage {T : Type} (item : option T) (type_default : T) : T :=
  default type_default item.

(** The text of the dialog of line 1067; [localStorage] is quoted in it. *)
Definition no_storage_message : string :=
  let quote := String (Ascii.ascii_of_nat 34) EmptyString in
  ("Your browser does not support " +:+ quote +:+ "localStorage" +:+ quote
   +:+ " so there is no way to remember games, sorry")%string.

(** The references of a pile read as objects. *)
Definition ids_of_pile (pile : list Card) : list nat := id <$> pile.

(** [readGame]: the fields are overwritten by what the store holds, and
    the result says whether a game of 23 piles was found.  The piles
    read are objects; the engine will use them through their ids. *)
Definition readGame (st : State) : bool * State :=
  if storageSupported st then
    let ls := localStorage st in
    let st := set_usingstorage true st in
    let st := set_playerName (readStorage (spidersolitairePlayerName ls) "") st in
    let st := set_highScores (readStorage (spidersolitaireHighScores ls) []) st in
    let st := set_deck (readStorage (spidersolitaireDeck ls) []) st in
    let st := set_piles (ids_of_pile <$> readStorage (spidersolitairePiles ls) []) st in
    let st := set_moves (readStorage (spidersolitaireMoves ls) []) st in
    let st := set_score (readStorage (spidersolitaireScore ls) 0) st in
    let st := set_statPlayed (readStorage (spidersolitairePlayed ls) 0%nat) st in
    let st := set_statWon (readStorage (spidersolitaireWon ls) 0%nat) st in
    (bool_decide (length (piles st) = 23%nat), st)
  else
    let st :=
      if nostorageCookie st then st
      else alert no_storage_message (set_nostorageCookie true st) in
    (false, set_usingstorage false st).

(** [resetHighScores] *)
Definition resetHighScores (st : State) : State :=
  let st := set_highScores [] st in
  let st := set_statPlayed 0%nat st in
  let st := set_statWon 0%nat st in
  let st := set_localStorage (store_HighScores None (localStorage st)) st in
  saveGame st.

(** ** What the handlers leave alone *)

Section Frame.
Implicit Types (st : State).

(** [saveGame] and [forgetGame] write nothing but the store. *)
Lemma saveGame_frame st :
  saveGame st = set_localStorage (localStorage (saveGame st)) st.
Proof. unfold saveGame. destruct st as []; simpl. by split_guard. Qed.

Lemma forgetGame_frame st :
  forgetGame st = set_localStorage (localStorage (forgetGame st)) st.
Proof. unfold forgetGame. destruct st as []; simpl. by split_guard. Qed.

Lemma saveGame_piles st : piles (saveGame st) = piles st.
Proof. by rewrite saveGame_frame. Qed.

Lemma saveGame_deck st : deck (saveGame st) = deck st.
Proof. by rewrite saveGame_frame. Qed.

Lemma saveGame_moves st : moves (saveGame st) = moves st.
Proof. by rewrite saveGame_frame. Qed.

Lemma saveGame_score st : score (saveGame st) = score st.
Proof. by rewrite saveGame_frame. Qed.

Lemma saveGame_playing st : playing (saveGame st) = playing st.
Proof. by rewrite saveGame_frame. Qed.

Lemma saveGame_usingstorage st : usingstorage (saveGame st) = usingstorage st.
Proof. by rewrite saveGame_frame. Qed.

Lemma saveGame_topCard st : topCard (saveGame st) = topCard st.
Proof. by rewrite saveGame_frame. Qed.

Lemma forgetGame_piles st : piles (forgetGame st) = piles st.
Proof. by rewrite forgetGame_frame. Qed.

Lemma forgetGame_deck st : deck (forgetGame st) = deck st.
Proof. by rewrite forgetGame_frame. Qed.

End Frame.

#[export] Hint Rewrite saveGame_piles saveGame_deck saveGame_moves
  saveGame_score saveGame_playing saveGame_usingstorage saveGame_topCard
  forgetGame_piles forgetGame_deck : spider.
