(* ===== verification/Tableau.v ===== *)
(** * Tableau: finding cards in the piles, and what the table shows

    [getPileContainingCard] (lines 936-954), [getPileDroppedOn]
    (924-932), [setDraggableCards] (992-1022),
    [unselectCurrentSelectedCard] (958-961) and [refreshTable]
    (965-971), then the invariant of the tableau: 23 piles that hold each
    of the 104 cards once. *)

From stdpp Require Import base list strings numbers option.
From S2P Require Import Prelude Cards State Storage.

#[local] Open Scope Z_scope.

(** ** Where a card is *)

(** What both searches return: [{result, cardOnTop, pos}], with
    [result = -1] and [pos = -1] when the card is in no pile. *)
Record PileRef := mkPileRef {
  result : Z;
  cardOnTop : option nat;
  pos : Z
}.

(** What the page hands to [moveCard] as the place of the drop: the
    element [base_k] under a column, or the element of a card. *)
Inductive Target :=
| Base (k : nat)
| CardEl (cardId : Z).

(** [card.id == cardId] for the card behind a reference. *)
Definition has_id (st : State) (cardId : Z) (ref : nat) : Prop :=
  Z.of_nat (id (card st ref)) = cardId.

#[export] Instance has_id_dec st cardId ref : Decision (has_id st cardId ref).
Proof. unfold has_id. apply _. Defined.

(** [getPileContainingCard]: the first pile, and the first position in
    it, whose card has the id.  The pile's top card goes to the global
    [topCard], and the result reads that global back: when the card is
    in no pile the result carries whatever an earlier search left there,
    and when there was no earlier search reading it is a
    [ReferenceError]. *)
Definition getPileContainingCard (cardId : Z) (st : State)
    : option (PileRef * State) :=
  match list_find (Exists (has_id st cardId)) (piles st) with
  | Some (pileIndex, pile) =>
      let cardIndex := default 0%nat (fst <$> list_find (has_id st cardId) pile) in
      let st := set_topCard (list.last pile) st in
      Some (mkPileRef (Z.of_nat pileIndex) (topCard st) (Z.of_nat cardIndex), st)
  | None =>
      match topCard st with
      | Some stale => Some (mkPileRef (-1) (Some stale) (-1), st)
      | None => None
      end
  end.

(** [getPileDroppedOn]: a base names its column and has no card on top;
    any other element is a card, looked for in the piles. *)
Definition getPileDroppedOn (target : Target) (st : State)
    : option (PileRef * State) :=
  match target with
  | Base k => Some (mkPileRef (13 + Z.of_nat k) None (-1), st)
  | CardEl cardId => getPileContainingCard cardId st
  end.

(** ** Which cards can be dragged *)

(** The cards below the top one that the second loop of
    [setDraggableCards] marks: going down, each must be one higher than
    the card above it and of its suit; the loop stops at the first that
    is not. [above] is [pile[cardIndex + 1]]. *)
Fixpoint run_below (deck : list Card) (above : nat) (below : list nat) : list nat :=
  match below with
  | [] => []
  | ref :: rest =>
      if decide (hierarchy (card_at deck ref) = (hierarchy (card_at deck above) + 1)%nat
                 ∧ suit (card_at deck ref) = suit (card_at deck above))
      then ref :: run_below deck ref rest
      else []
  end.

(** The cards of one column that get [canDrag = true], top card first. *)
Definition draggable (deck : list Card) (pile : list nat) : list nat :=
  match reverse pile with
  | [] => []
  | top :: below => top :: run_below deck top below
  end.

(** [setDraggableCards]: every card of every pile loses [canDrag], then
    the piles from index 13 on mark theirs. *)
Definition setDraggableCards (st : State) : State :=
  let d := write_canDrag false (concat (piles st)) (deck st) in
  let d := foldl (λ d pile, write_canDrag true (draggable d pile) d) d
             (drop 13 (piles st)) in
  set_deck d st.

(** [unselectCurrentSelectedCard] *)
Definition unselectCurrentSelectedCard (st : State) : State :=
  set_cardSelected (-1) st.

(** [refreshTable]: [respaceCards] and [displayScore] only write to the
    page. *)
Definition refreshTable (st : State) : State :=
  let st := setDraggableCards st in
  let st := unselectCurrentSelectedCard st in
  set_undoDisabled (negb (playing st) || bool_decide (length (moves st) = 0%nat)) st.

(** ** The invariant of the tableau *)

(** The shape every handler keeps: 23 piles, 104 card objects each at
    its id, and every card in exactly one place of one pile. *)
Record wf (st : State) : Prop := mk_wf {
  wf_piles : length (piles st) = 23%nat;
  wf_deck : length (deck st) = 104%nat;
  wf_ids : ids_ok (deck st);
  wf_cards : concat (piles st) ≡ₚ seq 0 104
}.

#[export] Instance wf_dec st : Decision (wf st).
Proof.
  refine (cast_if (decide (length (piles st) = 23%nat
                           ∧ length (deck st) = 104%nat
                           ∧ ids_ok (deck st)
                           ∧ concat (piles st) ≡ₚ seq 0 104))).
  - destruct_and!. by constructor.
  - intros []. by apply n.
Defined.

(** ** Steps that keep the cards

    [keeps st st'] says that [st'] has the piles of [st] up to moving
    cards between them, and the cards of [st] up to their mutable
    fields.  Every step of a handler, a new game apart, is of this
    kind, and the relation is a preorder, so a handler is. *)

Definition keeps (st st' : State) : Prop :=
  length (piles st') = length (piles st)
  ∧ concat (piles st') ≡ₚ concat (piles st)
  ∧ face <$> deck st' = face <$> deck st.

#[export] Instance keeps_preorder : PreOrder keeps.
Proof.
  split.
  - by intros st.
  - intros st1 st2 st3 (?&?&?) (?&?&?).
    repeat split; by etrans.
Qed.

(** A state that differs from another in other fields only. *)
Lemma keeps_same st st' :
  piles st' = piles st → deck st' = deck st → keeps st st'.
Proof. intros Hp Hd. unfold keeps. by rewrite Hp, Hd. Qed.

Lemma keeps_set_piles ps st :
  length ps = length (piles st) → concat ps ≡ₚ concat (piles st) →
  keeps st (set_piles ps st).
Proof. by intros. Qed.

Lemma keeps_set_deck d st :
  face <$> d = face <$> deck st → keeps st (set_deck d st).
Proof. by intros. Qed.

Lemma wf_keeps st st' : keeps st st' → wf st → wf st'.
Proof.
  intros (Hl & Hp & Hf) [w1 w2 w3 w4]. split.
  - by rewrite Hl.
  - by rewrite <- w2, <- (length_fmap face), Hf, length_fmap.
  - by eapply ids_ok_face.
  - by rewrite Hp.
Qed.

#[export] Instance wf_keeps_proper : Proper (keeps ==> impl) wf.
Proof. intros st st' H Hwf. by eapply wf_keeps. Qed.

(** The steps of this file. *)

Lemma keeps_topCard v st : keeps st (set_topCard v st).
Proof. by apply keeps_same. Qed.

Lemma getPileContainingCard_keeps cardId st r st' :
  getPileContainingCard cardId st = Some (r, st') → keeps st st'.
Proof.
  unfold getPileContainingCard. intros H.
  repeat split_guard_in H; simplify_eq; by apply keeps_same.
Qed.

Lemma getPileDroppedOn_keeps tg st r st' :
  getPileDroppedOn tg st = Some (r, st') → keeps st st'.
Proof.
  destruct tg; simpl; intros H; simplify_eq; [done|].
  by eapply getPileContainingCard_keeps.
Qed.

(** The searches write the global [topCard] and nothing else. *)
Lemma getPileContainingCard_frame cardId st r st' :
  getPileContainingCard cardId st = Some (r, st') →
  st' = set_topCard (topCard st') st.
Proof.
  unfold getPileContainingCard. intros H.
  repeat split_guard_in H; simplify_eq; by rewrite ?set_topCard_same.
Qed.

Lemma getPileDroppedOn_frame tg st r st' :
  getPileDroppedOn tg st = Some (r, st') → st' = set_topCard (topCard st') st.
Proof.
  destruct tg; simpl; intros H; [|by eapply getPileContainingCard_frame].
  simplify_eq. by rewrite set_topCard_same.
Qed.

(** A drop lands on a column, or on a pile that holds the card
    dropped on. *)
Lemma getPileDroppedOn_target tg st r st' (tgt : nat) :
  getPileDroppedOn tg st = Some (r, st') → result r = Z.of_nat tgt →
  (13 ≤ tgt)%nat ∨ piles st !!! tgt ≠ [].
Proof.
  destruct tg as [k|cardId]; simpl; intros H Hr; [simplify_eq/=; lia|].
  unfold getPileContainingCard in H.
  destruct (list_find _ _) as [[i pile]|] eqn:Hfind; last first.
  { destruct (topCard st); simplify_eq/=. lia. }
  simplify_eq/=. apply list_find_Some in Hfind as (Hi & Hex & _). right.
  rewrite (list_lookup_total_correct _ _ _ Hi). intros ->.
  by apply Exists_nil in Hex.
Qed.

(** [setDraggableCards] writes [canDrag] and nothing else: a view of the
    cards that does not read that field is the same after it. *)
Lemma foldl_write_canDrag_blind {B} (view : Card → B)
    (f : list Card → list nat → list nat) ps d :
  (∀ b c, view (set_canDrag b c) = view c) →
  view <$> foldl (λ d pile, write_canDrag true (f d pile) d) d ps = view <$> d.
Proof.
  intros Hv. revert d. induction ps as [|p ps IH]; intros d; [done|].
  simpl. by rewrite IH, fmap_write_canDrag.
Qed.

Lemma setDraggableCards_blind {B} (view : Card → B) st :
  (∀ b c, view (set_canDrag b c) = view c) →
  view <$> deck (setDraggableCards st) = view <$> deck st.
Proof.
  intros Hv. unfold setDraggableCards. simpl_state.
  by rewrite foldl_write_canDrag_blind, fmap_write_canDrag.
Qed.

Lemma refreshTable_blind {B} (view : Card → B) st :
  (∀ b c, view (set_canDrag b c) = view c) →
  view <$> deck (refreshTable st) = view <$> deck st.
Proof. apply setDraggableCards_blind. Qed.

Lemma refreshTable_unmarked st :
  unmarked (deck (refreshTable st)) = unmarked (deck st).
Proof. by apply refreshTable_blind. Qed.

Lemma setDraggableCards_piles st : piles (setDraggableCards st) = piles st.
Proof. done. Qed.

Lemma refreshTable_piles st : piles (refreshTable st) = piles st.
Proof. done. Qed.

Lemma setDraggableCards_keeps st : keeps st (setDraggableCards st).
Proof. apply keeps_set_deck. by apply setDraggableCards_blind. Qed.

Lemma refreshTable_keeps st : keeps st (refreshTable st).
Proof.
  unfold refreshTable, unselectCurrentSelectedCard.
  etrans; [apply setDraggableCards_keeps|]. by apply keeps_same.
Qed.

Lemma saveGame_keeps st : keeps st (saveGame st).
Proof. apply keeps_same; by autorewrite with spider. Qed.

Lemma alert_keeps msg st : keeps st (alert msg st).
Proof. by apply keeps_same. Qed.

#[export] Hint Resolve keeps_topCard setDraggableCards_keeps
  refreshTable_keeps saveGame_keeps alert_keeps : spider.

(** ** The search finds the card

    In a well-formed state no card is in the piles twice and the card
    behind a reference has the reference as its id, so the search for
    an id stops at the place of the card. *)

Section Search.
Implicit Types (st : State) (ref cardId : nat).

Lemma wf_NoDup st : wf st → NoDup (concat (piles st)).
Proof. intros Hwf. rewrite (wf_cards _ Hwf). apply NoDup_seq. Qed.

Lemma wf_ref_lt st ref : wf st → ref ∈ concat (piles st) ↔ (ref < 104)%nat.
Proof. intros Hwf. rewrite (wf_cards _ Hwf), elem_of_seq. lia. Qed.

(** In a well-formed state a reference is the id of its card. *)
Lemma wf_id st ref : wf st → (ref < 104)%nat → id (card st ref) = ref.
Proof.
  intros Hwf Hlt. apply (wf_ids _ Hwf).
  apply list_lookup_lookup_total_lt. by rewrite (wf_deck _ Hwf).
Qed.

Lemma has_id_ref st cardId ref :
  wf st → ref ∈ concat (piles st) →
  has_id st (Z.of_nat cardId) ref ↔ ref = cardId.
Proof.
  intros Hwf Hin. unfold has_id.
  rewrite wf_id; [lia|done|by apply (wf_ref_lt _ _ Hwf)].
Qed.

(** The search finds the card where it is. *)
Lemma getPileContainingCard_found st cardId i pile p :
  wf st → piles st !! i = Some pile → pile !! p = Some cardId →
  getPileContainingCard (Z.of_nat cardId) st
  = Some (mkPileRef (Z.of_nat i) (list.last pile) (Z.of_nat p),
          set_topCard (list.last pile) st).
Proof.
  intros Hwf Hi Hp. unfold getPileContainingCard.
  pose proof (wf_NoDup _ Hwf) as Hn.
  assert (∀ j q ref, piles st !! j = Some q → ref ∈ q →
            has_id st (Z.of_nat cardId) ref ↔ ref = cardId) as Hid.
  { intros. apply has_id_ref; [done|]. by eapply elem_of_concat_lookup. }
  assert (list_find (Exists (has_id st (Z.of_nat cardId))) (piles st)
          = Some (i, pile)) as ->.
  { apply list_find_Some. split_and!; [done|..].
    - apply list.Exists_exists. exists cardId.
      split; [by eapply list_elem_of_lookup_2|].
      eapply Hid; [done|by eapply list_elem_of_lookup_2|done].
    - intros j q Hq Hlt (ref & Hin & Hh)%list.Exists_exists.
      eapply Hid in Hh; [|done..]. subst ref.
      assert (j = i); [|lia].
      eapply concat_NoDup_lookup; [done..|by eapply list_elem_of_lookup_2]. }
  assert (list_find (has_id st (Z.of_nat cardId)) pile = Some (p, cardId)) as ->.
  { apply list_find_Some. split_and!; [done|..].
    - eapply Hid; [done|by eapply list_elem_of_lookup_2|done].
    - intros j ref Hj Hlt Hh.
      eapply Hid in Hh; [|done|by eapply list_elem_of_lookup_2]. subst ref.
      assert (j = p); [|lia].
      eapply NoDup_lookup; [by eapply concat_NoDup_pile|done..]. }
  done.
Qed.

Lemma wf_locate st ref :
  wf st → (ref < 104)%nat →
  ∃ i pile p, piles st !! i = Some pile ∧ pile !! p = Some ref.
Proof.
  intros Hwf Href. apply (wf_ref_lt _ _ Hwf) in Href.
  apply elem_of_concat in Href as (pile & Hin & Hpile).
  apply list_elem_of_lookup_1 in Hin as [p Hp].
  apply list_elem_of_lookup_1 in Hpile as [i Hi]. eauto.
Qed.

Lemma refreshTable_moves st : moves (refreshTable st) = moves st.
Proof. done. Qed.

Lemma refreshTable_score st : score (refreshTable st) = score st.
Proof. done. Qed.

End Search.
