(* ===== verification/Scores.v ===== *)
(** * Scores: the list of high scores

    [highScoreCheck] (lines 891-920) puts the score of a game won into
    the list kept in [ssObj.highScores], which is ordered by level and
    then by score, both descending, and holds [scoresToKeep] entries at
    most. *)

From stdpp Require Import base list strings numbers option sorting.
From S2P Require Import Prelude Cards State.

#[local] Open Scope Z_scope.

(** Lines 894-896, and 608-610 of [showMenu]: an entry without a level
    is from the version that only had four suits. *)
Definition fixLevel (h : HighScore.t) : HighScore.t :=
  match HighScore.level h with
  | Some _ => h
  | None => HighScore.mk (Some 4%nat) (HighScore.score h) (HighScore.date h)
              (HighScore.player h)
  end.

Arguments fixLevel : simpl never.

(** The level of an entry once fixed. *)
Definition levelOf (h : HighScore.t) : nat := default 4%nat (HighScore.level h).

(** The test of lines 898-899: the entry is below a game of [suits]
    suits won with [sc] points. *)
Definition below (suits : nat) (sc : Z) (h : HighScore.t) : bool :=
  bool_decide (levelOf h < suits)%nat
  || (bool_decide (levelOf h = suits) && bool_decide (HighScore.score h < sc)).

(** The loop of lines 893-910 up to its [break]: the entries passed get
    their level fixed, the new entry goes before the first that is below
    it.  The boolean says whether the loop broke off. *)
Fixpoint scanScores (new : HighScore.t) (suits : nat) (sc : Z)
    (l : list HighScore.t) : list HighScore.t * bool :=
  match l with
  | [] => ([], false)
  | h :: rest =>
      let h := fixLevel h in
      if below suits sc h then (new :: h :: rest, true)
      else let r := scanScores new suits sc rest in (h :: r.1, r.2)
  end.

(** The list after [highScoreCheck], from what the handler reads: the
    entry is inserted by the loop and the last entry dropped when the
    list got too long (lines 904-906), or the entry is appended when
    the loop did not break off and there is room (lines 911-917). *)
Definition insertScore (new : HighScore.t) (l : list HighScore.t)
    : list HighScore.t :=
  let r := scanScores new (levelOf new) (HighScore.score new) l in
  if r.2 then
    if decide (scoresToKeep < length r.1)%nat
    then take (length r.1 - 1) r.1 else r.1
  else if decide (length r.1 < scoresToKeep)%nat then r.1 ++ [new]
  else r.1.

(** [highScoreCheck] *)
Definition highScoreCheck (st : State) : State :=
  let new := HighScore.mk (Some (howManySuits st)) (score st) (now st)
               (playerName st) in
  set_highScores (insertScore new (highScores st)) st.

(** ** The order of the list *)

(** [a] is not below [b]: a higher level, or the same level and a score
    at least as high. *)
Definition entry_ge (a b : HighScore.t) : Prop :=
  (levelOf b < levelOf a)%nat
  ∨ (levelOf b = levelOf a ∧ HighScore.score b ≤ HighScore.score a).

#[export] Instance entry_ge_dec a b : Decision (entry_ge a b).
Proof. unfold entry_ge. apply _. Defined.

#[export] Instance entry_ge_preorder : PreOrder entry_ge.
Proof.
  split; [intros a; right; split; lia|].
  intros a b c [?|[? ?]] [?|[? ?]]; unfold entry_ge; lia.
Qed.

Section Order.
Implicit Types (h new : HighScore.t) (l : list HighScore.t).

Lemma levelOf_fixLevel h : levelOf (fixLevel h) = levelOf h.
Proof. by destruct h as [[] ? ? ?]. Qed.

Lemma score_fixLevel h : HighScore.score (fixLevel h) = HighScore.score h.
Proof. by destruct h as [[] ? ? ?]. Qed.

Lemma entry_ge_fixLevel_l h h' : entry_ge (fixLevel h) h' ↔ entry_ge h h'.
Proof. unfold entry_ge. by rewrite levelOf_fixLevel, score_fixLevel. Qed.

Lemma entry_ge_fixLevel_r h h' : entry_ge h (fixLevel h') ↔ entry_ge h h'.
Proof. unfold entry_ge. by rewrite levelOf_fixLevel, score_fixLevel. Qed.

(** The test of the loop, as the order. *)
Lemma below_spec new h :
  below (levelOf new) (HighScore.score new) h = false ↔ entry_ge h new.
Proof.
  unfold below, entry_ge.
  rewrite orb_false_iff, andb_false_iff, !bool_decide_eq_false. lia.
Qed.

Lemma below_entry_ge new h :
  below (levelOf new) (HighScore.score new) h = true → entry_ge new h.
Proof.
  unfold below, entry_ge.
  rewrite orb_true_iff, andb_true_iff, !bool_decide_eq_true. lia.
Qed.

(** The loop adds one entry when it breaks off, and none otherwise. *)
Lemma scanScores_length new l :
  let r := scanScores new (levelOf new) (HighScore.score new) l in
  length r.1 = if r.2 then S (length l) else length l.
Proof.
  induction l as [|h l IH]; simpl; [done|].
  destruct (below _ _ _); simpl; [done|].
  rewrite IH. by destruct (scanScores _ _ _ _).2.
Qed.

(** When it does not break off every entry is at least the new one. *)
Lemma scanScores_all_ge new l :
  let r := scanScores new (levelOf new) (HighScore.score new) l in
  r.2 = false → Forall (λ h, entry_ge h new) r.1.
Proof.
  induction l as [|h l IH]; simpl; [done|].
  destruct (below _ _ _) eqn:Hb; simpl; [done|].
  intros Hr. constructor; [by apply below_spec|by apply IH].
Qed.

(** The loop keeps the list ordered, and below any entry that was
    above the whole list and the new entry. *)
Lemma scanScores_sorted new l :
  StronglySorted entry_ge l →
  let r := scanScores new (levelOf new) (HighScore.score new) l in
  StronglySorted entry_ge r.1
  ∧ ∀ x, entry_ge x new → Forall (entry_ge x) l → Forall (entry_ge x) r.1.
Proof.
  induction 1 as [|h l Hl IH Hh]; simpl; [by repeat constructor|].
  destruct (below _ _ _) eqn:Hb; simpl.
  - apply below_entry_ge in Hb. split.
    + constructor; [constructor; [done|]|].
      * eapply list.Forall_impl; [exact Hh|].
        intros h' ?. by rewrite entry_ge_fixLevel_l.
      * constructor; [done|]. rewrite entry_ge_fixLevel_r in Hb.
        eapply list.Forall_impl; [exact Hh|]. intros h' ?. by etrans.
    + intros x Hx Hxl. apply Forall_cons_1 in Hxl as [? ?].
      constructor; [done|constructor; [by rewrite entry_ge_fixLevel_r|done]].
  - apply below_spec in Hb. rewrite entry_ge_fixLevel_l in Hb.
    destruct IH as [IH1 IH2]. split.
    + constructor; [done|].
      eapply list.Forall_impl; [by apply IH2|].
      intros h' ?. by rewrite entry_ge_fixLevel_l.
    + intros x Hx Hxl. apply Forall_cons_1 in Hxl as [? ?].
      constructor; [by rewrite entry_ge_fixLevel_r|by apply IH2].
Qed.

Lemma StronglySorted_take {A} (R : relation A) n (l : list A) :
  StronglySorted R l → StronglySorted R (take n l).
Proof.
  intros Hl. revert n. induction Hl as [|x l Hl IH Hx]; intros [|n]; simpl;
    constructor; [done|]. by apply Forall_take.
Qed.

Lemma StronglySorted_snoc {A} (R : relation A) (l : list A) x :
  StronglySorted R l → Forall (λ y, R y x) l → StronglySorted R (l ++ [x]).
Proof.
  induction 1 as [|y l Hl IH Hy]; intros Hx; simpl; [by repeat constructor|].
  apply Forall_cons_1 in Hx as [? ?].
  constructor; [by apply IH|]. apply Forall_app. by repeat constructor.
Qed.

(** [insertScore] keeps the list ordered. *)
Lemma insertScore_sorted new l :
  StronglySorted entry_ge l → StronglySorted entry_ge (insertScore new l).
Proof.
  intros Hl. unfold insertScore.
  destruct (scanScores_sorted new l Hl) as [Hs _].
  pose proof (scanScores_all_ge new l) as Hge. simpl in Hge.
  destruct (scanScores _ _ _ _).2; repeat case_decide;
    auto using StronglySorted_take, StronglySorted_snoc.
Qed.

(** [insertScore] gives at most [scoresToKeep] entries when it was
    given as many, and never more than it was given plus one. *)
Lemma insertScore_length new l :
  (length (insertScore new l) ≤ Nat.max scoresToKeep (length l))%nat.
Proof.
  unfold insertScore. pose proof (scanScores_length new l) as Hr.
  simpl in Hr. destruct (scanScores _ _ _ _).2; repeat case_decide;
    rewrite ?length_take, ?length_app; simpl; lia.
Qed.

End Order.

(** ** What a game leaves of the player

    The handlers of a game in progress do not touch what
    [highScoreCheck] reads besides the score: the level, the name, the
    clock and the list itself. *)

Definition same_player (st st' : State) : Prop :=
  playerName st' = playerName st ∧ highScores st' = highScores st
  ∧ statPlayed st' = statPlayed st ∧ statWon st' = statWon st
  ∧ howManySuits st' = howManySuits st ∧ now st' = now st.

#[export] Instance same_player_preorder : PreOrder same_player.
Proof.
  split; [by intros st|].
  intros st1 st2 st3 (?&?&?&?&?&?) (?&?&?&?&?&?).
  repeat split; by etrans.
Qed.

(** The list after [highScoreCheck] depends on the player and the
    score only. *)
Lemma highScoreCheck_player st st' :
  same_player st st' → score st' = score st →
  highScores (highScoreCheck st') = highScores (highScoreCheck st).
Proof.
  intros (Hn & Hh & _ & _ & Hs & Hd) Hsc. unfold highScoreCheck. simpl_state.
  by rewrite Hn, Hh, Hs, Hd, Hsc.
Qed.

(** ** The theorems on [highScoreCheck] *)

(** A game of four suits won with 800 points by a player whose list
    holds three entries, one of them from the version without levels. *)
Definition three_scores : State :=
  set_score 800
    (set_highScores
       [HighScore.mk (Some 4%nat) 900 3 "ann"; HighScore.mk None 700 1 "bob";
        HighScore.mk (Some 2%nat) 950 2 "ann"]
       (initial no_storage false false (λ _, 0%nat) 7)).

(** C18. [highScoreCheck] keeps the list of high scores ordered: when
    the list is in descending order of level and, within a level, of
    score (an entry without a level counting as level 4), so is the
    list with the score of the game won put in. *)
Theorem highScoreCheck_sorted (st : State) :
  StronglySorted entry_ge (highScores st) →
  StronglySorted entry_ge (highScores (highScoreCheck st)).
Proof. apply insertScore_sorted. Qed.

Lemma highScoreCheck_sorted_witness :
  StronglySorted entry_ge (highScores (highScoreCheck three_scores))
  ∧ highScores (highScoreCheck three_scores)
    = [HighScore.mk (Some 4%nat) 900 3 "ann"; HighScore.mk (Some 4%nat) 800 7 "";
       HighScore.mk (Some 4%nat) 700 1 "bob"; HighScore.mk (Some 2%nat) 950 2 "ann"].
Proof.
  split; [|reflexivity]. apply (highScoreCheck_sorted three_scores).
  apply (bool_decide_unpack _). vm_compute. reflexivity.
Defined.

(** C19. The list of high scores stays bounded: a list of at most
    [scoresToKeep] (ten) entries has at most ten entries after
    [highScoreCheck], the last one being dropped when the new score
    went in above it. *)
Theorem highScoreCheck_bound (st : State) :
  (length (highScores st) ≤ scoresToKeep)%nat →
  (length (highScores (highScoreCheck st)) ≤ scoresToKeep)%nat.
Proof.
  intros Hle. unfold highScoreCheck. simpl_state.
  etrans; [apply insertScore_length|]. lia.
Qed.

Lemma highScoreCheck_bound_witness :
  (length (highScores (highScoreCheck three_scores)) ≤ scoresToKeep)%nat.
Proof. apply (highScoreCheck_bound three_scores). vm_compute. lia. Defined.
