(* ===== verification/Dealing.v ===== *)
(** * Dealing: building, shuffling and laying out the cards

    [prepareCards] (lines 315-424) with both its branches, [countSuits]
    (1175-1183) and [newGame] (224-311).  Of [newGame] the part that
    draws the page is left out; what it does to the game and to the two
    buttons (the template of line 1192 creates Undo disabled and Deal
    enabled) is kept. *)

From stdpp Require Import base list strings numbers option.
From S2P Require Import Prelude Cards State Storage Tableau.

#[local] Open Scope string_scope.
#[local] Open Scope Z_scope.

(** ** Helpers of [prepareCards] *)

(** [s.includes(sub)] *)
Definition js_includes (s sub : string) : bool :=
  bool_decide (is_Some (String.index 0 sub s)).

(** [countSuits]: the suits of the deck are gathered in a string, each
    once, and the length of the string is the count. *)
Definition countSuits (st : State) : nat :=
  String.length
    (foldl (λ tmpSuits c,
              if js_includes tmpSuits (suit c) then tmpSuits
              else tmpSuits +:+ suit c)
       "" (deck st)).

(** The loop of lines 321-325 and 442-446: the highest of the piles 5
    down to 0 that holds exactly 10 cards, or -1. *)
Definition nextDealStack (st : State) : Z :=
  match list_find (λ stack, length (piles st !!! stack) = 10%nat)
          [5; 4; 3; 2; 1; 0]%nat with
  | Some (_, stack) => Z.of_nat stack
  | None => -1
  end.

(** Lines 337-353: the four suit slots, according to the level. *)
Definition chooseSuits (st : State) : list string * State :=
  if decide (howManySuits st = 2%nat) then
    let '(r, st) := Math_random st in
    let red := if decide (r < 500)%nat then "d" else "h" in
    let '(r, st) := Math_random st in
    let black := if decide (r < 500)%nat then "c" else "s" in
    ([black; red; red; black], st)
  else if decide (howManySuits st = 1%nat) then
    let '(r, st) := Math_random st in
    let suit := suits !!! (r / 250)%nat in
    ([suit; suit; suit; suit], st)
  else (suits, st).

(** Lines 368-382: two packs of four suits of thirteen cards, face down.
    The id is given after the shuffle. *)
Definition createCards (suits : list string) : list Card :=
  _ ← seq 0 2; csuit ← seq 0 4; card ← seq 0 13;
  [mkCard (suits !!! csuit) (values !!! card) card false false 0].

(** The bound of the loop of line 386. *)
Definition shuffleCount : nat := 8000.

(** Lines 386-392: [n] times, two positions are drawn and their cards
    exchanged. *)
Fixpoint shuffle (n : nat) (pile : list Card) (st : State) : list Card * State :=
  match n with
  | O => (pile, st)
  | S n =>
      let '(r, st) := Math_random st in
      let card1 := (r mod 104)%nat in
      let '(r, st) := Math_random st in
      let card2 := (r mod 104)%nat in
      let tempCard := pile !!! card1 in
      let pile := <[card1 := pile !!! card2]> pile in
      let pile := <[card2 := tempCard]> pile in
      shuffle n pile st
  end.

(** Lines 395-397. *)
Definition assignIds (pile : list Card) : list Card := imap set_id pile.

(** Lines 400-405: the first fifty cards, ten to each deal stack. *)
Definition createDealStacks (ps : list (list nat)) : list (list nat) :=
  foldl (λ ps stack,
           foldl (λ ps card, pile_push stack (stack * 10 + card)%nat ps)
             ps (seq 0 10))
    ps (seq 0 5).

(** One pass of the [for] of lines 410-419 over the columns still to
    visit: the card is turned up from number 94 on, pushed, and the pass
    breaks off when the cards are used up. *)
Fixpoint dealRound (stacks : list nat) (card : nat)
    (pile : list Card) (ps : list (list nat)) : nat * list Card * list (list nat) :=
  match stacks with
  | [] => (card, pile, ps)
  | stack :: rest =>
      let pile := if decide (94 ≤ card)%nat then write_facingUp true card pile
                  else pile in
      let ps := pile_push stack card ps in
      let card := S card in
      if decide (104 ≤ card)%nat then (card, pile, ps)
      else dealRound rest card pile ps
  end.

(** The [do ... while (card < 104)] around it.  Each pass pushes at
    least one card, so [fuel] passes are enough when [fuel + card] is at
    least 104. *)
Fixpoint createPlayingStacks (fuel : nat) (card : nat)
    (pile : list Card) (ps : list (list nat)) : list Card * list (list nat) :=
  match fuel with
  | O => (pile, ps)
  | S fuel =>
      let '(card, pile, ps) := dealRound (seq 13 10) card pile ps in
      if decide (card < 104)%nat then createPlayingStacks fuel card pile ps
      else (pile, ps)
  end.

(** ** [prepareCards] *)

(** The branch that sets up a new game (lines 335-423).  A push onto a
    pile that does not exist is a [TypeError]: this happens when the
    store held a game whose piles were not 23, which [readGame] has by
    then put into [ssObj.piles]. *)
Definition prepareNewGame (st : State) : option State :=
  let st := set_howManySuits (howManySuitsNext st) st in
  let '(suits, st) := chooseSuits st in
  let st := forgetGame st in
  let st := set_score 500 st in
  let st := if decide (length (piles st) = 0%nat)
            then set_piles (replicate 23 []) st else st in
  let pile := createCards suits in
  let '(pile, st) := shuffle shuffleCount pile st in
  let pile := assignIds pile in
  if decide (23 ≤ length (piles st))%nat then
    let ps := createDealStacks (piles st) in
    let '(pile, ps) := createPlayingStacks 54 50 pile ps in
    Some (set_deck pile (set_piles ps st))
  else None.

(** The branch that takes up the game found in the store (lines
    317-332). *)
Definition prepareLoadedGame (st : State) : State :=
  let st := set_dealDisabled (bool_decide (nextDealStack st = -1)) st in
  let n := countSuits st in
  let st := set_howManySuits n (set_howManySuitsNext n st) in
  let st := set_playing (bool_decide (length (piles st !!! 0%nat) ≠ 13%nat)) st in
  set_undoDisabled (negb (playing st) || bool_decide (length (moves st) = 0%nat)) st.

Definition prepareCards (forgetOld : bool) (st : State) : option State :=
  let '(found, st) := if forgetOld then (false, st) else readGame st in
  if found then Some (prepareLoadedGame st) else prepareNewGame st.

(** ** [newGame] *)

Definition newGame (forgetOld : bool) (st : State) : option State :=
  let st := set_moves [] st in
  let st := set_piles [] st in
  let st := set_deck [] st in
  let st := set_score 500 st in
  let st := set_playing false st in
  let st := set_cardSelected (-1) st in
  let st := set_undoDisabled true (set_dealDisabled false st) in
  st ← prepareCards forgetOld st;
  let st := set_cardSelected (-1) st in
  Some (refreshTable st).

(** ** What a new game looks like *)

#[local] Close Scope string_scope.

(** The piles of every new game: the layout does not depend on the
    shuffle, since the cards are numbered after it. *)
Definition layout : list (list nat) :=
  Eval vm_compute in
    (createPlayingStacks 54 50 [] (createDealStacks (replicate 23 []))).2.

(** The cards that start face up: the last ten dealt. *)
Definition turnUp (pile : list Card) : list Card :=
  foldl (λ d card, write_facingUp true card d) pile (seq 94 10).

Section NewGame.
Implicit Types (st : State) (pile : list Card).

Lemma set_drawn_twice a b st : set_drawn b (set_drawn a st) = set_drawn b st.
Proof. done. Qed.

Lemma Math_random_bound st : ((Math_random st).1 < 1000)%nat.
Proof. unfold Math_random. cbn [fst]. apply Nat.mod_upper_bound. lia. Qed.

(** Drawing changes nothing but the count of draws. *)
Lemma chooseSuits_frame st : ∃ k, (chooseSuits st).2 = set_drawn k st.
Proof.
  unfold chooseSuits, Math_random.
  do 2 (case_decide; [by eexists|]).
  exists (drawn st). by destruct st.
Qed.

Lemma shuffle_frame n pile st :
  ∃ k, (shuffle n pile st).2 = set_drawn k st.
Proof.
  revert pile st. induction n as [|n IH]; intros pile st.
  - exists (drawn st). by destruct st.
  - simpl. unfold Math_random.
    edestruct IH as [k ->]. exists k. done.
Qed.

Lemma shuffle_perm n pile st :
  length pile = 104%nat → (shuffle n pile st).1 ≡ₚ pile.
Proof.
  revert pile st. induction n as [|n IH]; intros pile st Hlen; [done|].
  simpl. rewrite IH.
  - apply swap_perm; rewrite Hlen; apply Nat.mod_upper_bound; lia.
  - by rewrite !length_insert.
Qed.

Lemma shuffle_length n pile st :
  length pile = 104%nat → length (shuffle n pile st).1 = 104%nat.
Proof. intros H. by rewrite shuffle_perm. Qed.

Lemma createCards_length suits : length (createCards suits) = 104%nat.
Proof. reflexivity. Qed.

Lemma assignIds_ids_ok pile : ids_ok (assignIds pile).
Proof.
  intros i c. unfold assignIds. rewrite list_lookup_imap.
  destruct (pile !! i); intros; by simplify_eq/=.
Qed.

Lemma assignIds_length pile : length (assignIds pile) = length pile.
Proof. apply length_imap. Qed.

Lemma turnUp_face pile : face <$> turnUp pile = face <$> pile.
Proof.
  unfold turnUp. generalize (seq 94 10). intros l. revert pile.
  induction l as [|x l IH]; intros pile; [done|].
  simpl. by rewrite IH, face_write_facingUp.
Qed.

Lemma turnUp_length pile : length (turnUp pile) = length pile.
Proof. by rewrite <- (length_fmap face), turnUp_face, length_fmap. Qed.

Lemma createPlayingStacks_layout pile :
  createPlayingStacks 54 50 pile (createDealStacks (replicate 23 []))
  = (turnUp pile, layout).
Proof. vm_compute. reflexivity. Qed.

Lemma layout_cards : concat layout ≡ₚ seq 0 104.
Proof. compute_done. Qed.

Lemma facingUp_turnUp pile :
  facingUp <$> turnUp pile
  = foldl (λ l card, <[card := true]> l) (facingUp <$> pile) (seq 94 10).
Proof.
  unfold turnUp. generalize (seq 94 10). intros l. revert pile.
  induction l as [|x l IH]; intros pile; [done|].
  simpl. by rewrite IH, facingUp_write_facingUp.
Qed.

Lemma createCards_face_down suits :
  Forall (λ c, facingUp c = false) (createCards suits).
Proof. by repeat constructor. Qed.

Lemma assignIds_facingUp pile :
  facingUp <$> assignIds pile = facingUp <$> pile.
Proof.
  unfold assignIds. rewrite fmap_imap. apply list_eq. intros i.
  rewrite list_lookup_imap, list_lookup_fmap. by destruct (pile !! i).
Qed.

(** What [prepareCards] makes of an object whose piles [newGame] has
    just emptied. *)
Lemma prepareNewGame_spec st :
  piles st = [] →
  ∃ st1 pile suits,
    prepareNewGame st = Some st1
    ∧ piles st1 = layout ∧ deck st1 = turnUp (assignIds pile)
    ∧ pile ≡ₚ createCards suits
    ∧ score st1 = 500 ∧ moves st1 = moves st ∧ playing st1 = playing st
    ∧ highScores st1 = highScores st ∧ howManySuits st1 = howManySuitsNext st
    ∧ undoDisabled st1 = undoDisabled st ∧ dealDisabled st1 = dealDisabled st.
Proof.
  intros Hp. unfold prepareNewGame.
  destruct (chooseSuits_frame (set_howManySuits (howManySuitsNext st) st))
    as [k Hk].
  destruct (chooseSuits _) as [suits st1]. simpl in Hk. subst st1.
  rewrite forgetGame_frame.
  set (st2 := set_score _ _).
  assert (piles st2 = []) as -> by done.
  simpl (length []). rewrite decide_True by done.
  set (st3 := set_piles _ _).
  destruct (shuffle_frame shuffleCount (createCards suits) st3) as [k2 Hk2].
  pose proof (shuffle_perm shuffleCount (createCards suits) st3 eq_refl) as Hperm.
  destruct (shuffle _ _ _) as [pile st4]. simpl in Hk2, Hperm. subst st4.
  rewrite decide_True by (subst st3; simpl; lia).
  change (piles (set_drawn k2 st3)) with (replicate 23 (@nil nat)).
  rewrite createPlayingStacks_layout.
  eexists _, pile, suits. split; [reflexivity|]. by repeat split.
Qed.

End NewGame.

(** ** The theorems on [newGame] *)

(** What [newGame()] gives; the handlers that end a game use it. *)
Lemma newGame_spec (st : State) :
  ∃ st', newGame true st = Some st'
    ∧ wf st' ∧ piles st' = layout
    ∧ score st' = 500 ∧ moves st' = [] ∧ playing st' = false
    ∧ dealDisabled st' = false ∧ undoDisabled st' = true.
Proof.
  unfold newGame, prepareCards.
  edestruct (prepareNewGame_spec) as
    (st1 & pile & suits & -> & Hp & Hd & Hperm & Hs & Hm & Hpl & _ & _ & Hu & Hdl);
    [|eexists; split; [reflexivity|]]; [done|].
  assert (wf st1) as Hwf.
  { split; rewrite ?Hp, ?Hd; [done| | |apply layout_cards].
    - by rewrite turnUp_length, assignIds_length, Hperm.
    - eapply ids_ok_face; [symmetry; apply turnUp_face|].
      apply assignIds_ids_ok. }
  split.
  { eapply wf_keeps; [|exact Hwf].
    etrans; [|apply refreshTable_keeps]. by apply keeps_same. }
  unfold refreshTable, unselectCurrentSelectedCard, setDraggableCards.
  simpl_state. rewrite Hs, Hm, Hpl. by rewrite orb_true_r.
Qed.

(** What a new game keeps of the object: the player and the record. *)
Lemma newGame_record st st' :
  newGame true st = Some st' →
  playerName st' = playerName st ∧ highScores st' = highScores st
  ∧ statPlayed st' = statPlayed st ∧ statWon st' = statWon st
  ∧ howManySuits st' = howManySuitsNext st ∧ now st' = now st.
Proof.
  unfold newGame, prepareCards, prepareNewGame.
  set (st0 := set_howManySuits _ _).
  destruct (chooseSuits_frame st0) as [k Hk].
  destruct (chooseSuits st0) as [suits st1]. simpl in Hk. subst st1.
  rewrite forgetGame_frame. set (st2 := set_score _ _).
  set (st3 := if decide _ then _ else _).
  assert (st3 = set_piles (piles st3) st2) as Hst3
    by (unfold st3; by case_decide).
  destruct (shuffle_frame shuffleCount (createCards suits) st3) as [k2 Hk2].
  destruct (shuffle _ _ _) as [pile st4]. simpl in Hk2. subst st4.
  case_decide; [|done]. destruct (createPlayingStacks _ _ _ _) as [d ps].
  cbn [mbind option_bind]. intros [= <-].
  rewrite Hst3. by repeat split.
Qed.

(** C1. [newGame()] never fails, whatever the object held before, and
    leaves a well-formed tableau: 23 piles in the fixed layout (five deal
    stacks of ten cards, four columns of six and six of five), 104
    cards each at its id and each in one pile, the score at 500, an
    empty undo log, the game not yet playing, the Deal button enabled
    and the Undo button disabled. *)
Theorem newGame_fresh (st : State) :
  ∃ st', newGame true st = Some st'
    ∧ wf st' ∧ (length <$> piles st') = [10; 10; 10; 10; 10; 0; 0; 0; 0; 0; 0; 0; 0;
                                         6; 6; 6; 6; 5; 5; 5; 5; 5; 5]%nat
    ∧ score st' = 500 ∧ moves st' = [] ∧ playing st' = false
    ∧ dealDisabled st' = false ∧ undoDisabled st' = true.
Proof.
  destruct (newGame_spec st) as (st' & E & Hwf & Hp & H).
  exists st'. by rewrite Hp.
Qed.

(** The cards that face up in a new game. *)
Lemma newGame_facingUp st st' :
  newGame true st = Some st' →
  facingUp <$> deck st' = (λ i, bool_decide (94 ≤ i)%nat) <$> seq 0 104.
Proof.
  unfold newGame, prepareCards.
  edestruct (prepareNewGame_spec) as
    (st1 & pile & suits & -> & Hp & Hd & Hperm & _); [done|].
  cbn [mbind option_bind]. intros [= <-].
  rewrite refreshTable_blind by done. simpl_state.
  rewrite Hd, facingUp_turnUp, assignIds_facingUp.
  assert (facingUp <$> pile = replicate 104 false) as ->; [|done].
  rewrite <- (createCards_length suits), <- Hperm, <- (length_fmap facingUp).
  symmetry. apply replicate_as_Forall_2; [done|].
  apply Forall_fmap. rewrite Hperm. by repeat constructor.
Qed.

(** C17. In a new game exactly the last ten cards dealt, numbers 94 to
    103, face up, and they are the top cards of the ten columns: in each
    column every card but the last faces down.  The fifty cards of the
    deal stacks face down as well. *)
Theorem newGame_face_up (st st' : State) :
  newGame true st = Some st' →
  facingUp <$> deck st' = (λ i, bool_decide (94 ≤ i)%nat) <$> seq 0 104
  ∧ Forall (λ pile, (λ i, bool_decide (94 ≤ i)%nat) <$> pile
                    = replicate (length pile - 1) false ++ [true])
      (drop 13 (piles st')).
Proof.
  intros Hnew. split; [by eapply newGame_facingUp|]. revert Hnew.
  unfold newGame, prepareCards.
  edestruct (prepareNewGame_spec) as
    (st1 & pile & suits & -> & Hp & Hd & Hperm & _); [done|].
  cbn [mbind option_bind]. intros [= <-].
  rewrite refreshTable_piles. simpl_state. rewrite Hp. by repeat constructor.
Qed.

(** The object as the constructor leaves it, in a browser without a
    store whose [Math.random] always gives 0: the state the examples of
    this development start from. *)
Definition blank : State := initial no_storage false false (λ _, 0%nat) 0.

(** The table after [newGame()] from [blank]: no two cards were
    swapped, so card [i] is the [i mod 13]-th value of the
    [(i / 13) mod 4]-th suit. *)
Definition started : State :=
  Eval vm_compute in default blank (newGame true blank).

Lemma started_new : newGame true blank = Some started.
Proof. by vm_compute. Qed.

Lemma started_wf : wf started.
Proof.
  destruct (newGame_spec blank) as (st & E & Hwf & _).
  rewrite started_new in E. by simplify_eq.
Qed.

Lemma newGame_face_up_witness :
  facingUp <$> deck started = (λ i, bool_decide (94 ≤ i)%nat) <$> seq 0 104
  ∧ Forall (λ pile, (λ i, bool_decide (94 ≤ i)%nat) <$> pile
                    = replicate (length pile - 1) false ++ [true])
      (drop 13 (piles started)).
Proof. exact (newGame_face_up blank started started_new). Defined.
