(* ===== verification/Marks.v ===== *)
(** * Marks: which cards the page lets the player pick up

    [setDraggableCards] (lines 992-1022) gives each card its [canDrag]
    mark, and the page starts a drag or selects a card only when the
    element has it (lines 126 and 148).  This file says which cards get
    the mark: those of a column from which the cards up to the top are a
    run of one suit, each card one higher than the card on it.  Whether
    a card faces up is not looked at. *)

From stdpp Require Import base list strings numbers option.
From S2P Require Import Prelude Cards State Storage Tableau Dealing.

(** The cards [setDraggableCards] marks, column by column. *)

Definition top_runs (st : State) : list nat :=
  concat (draggable (deck st) <$> drop 13 (piles st)).

(** The marks are those [setDraggableCards] leaves: what holds between
    two handlers, since each ends with [refreshTable]. *)
Definition marks_ok (st : State) : Prop := deck (setDraggableCards st) = deck st.

#[export] Instance marks_ok_dec st : Decision (marks_ok st).
Proof. unfold marks_ok. apply _. Defined.

(** [below] continues [above]: it is one higher and of the same suit
    (line 1009). *)
Definition descends (deck : list Card) (below above : nat) : Prop :=
  hierarchy (card_at deck below) = (hierarchy (card_at deck above) + 1)%nat
  ∧ suit (card_at deck below) = suit (card_at deck above).

(** A run, bottom card first: each card continues the card on it. *)
Definition is_run (deck : list Card) (l : list nat) : Prop :=
  ∀ i a b, l !! i = Some a → l !! S i = Some b → descends deck a b.

(** The same, top card first. *)
Fixpoint chain (deck : list Card) (above : nat) (below : list nat) : Prop :=
  match below with
  | [] => True
  | ref :: rest => descends deck ref above ∧ chain deck ref rest
  end.

Section Marks.
Implicit Types (st : State) (deck d : list Card) (pile refs : list nat) (ref : nat).

Lemma canDrag_write_canDrag b refs d ref :
  ref < length d →
  canDrag (card_at (write_canDrag b refs d) ref)
  = if decide (ref ∈ refs) then b else canDrag (card_at d ref).
Proof.
  revert d. induction refs as [|r refs IH]; intros d Hlt.
  { case_decide as Hin; [by apply elem_of_nil in Hin|done]. }
  change (write_canDrag b (r :: refs) d)
    with (write_canDrag b refs (alter (set_canDrag b) r d)).
  rewrite IH by by rewrite length_alter. unfold card_at.
  destruct (decide (r = ref)) as [->|].
  - rewrite list_lookup_total_alter_eq by done.
    rewrite (decide_True (P := ref ∈ ref :: refs)) by (apply elem_of_cons; by left).
    by destruct (decide _).
  - rewrite list_lookup_total_alter_ne by done.
    apply decide_ext. rewrite elem_of_cons. intuition congruence.
Qed.

Lemma card_at_face d d' ref :
  face <$> d = face <$> d' → face (card_at d ref) = face (card_at d' ref).
Proof.
  intros Hf. unfold card_at. rewrite !list_lookup_total_alt.
  apply (f_equal (.!! ref)) in Hf. rewrite !list_lookup_fmap in Hf.
  destruct (d !! ref), (d' !! ref); simplify_eq/=; try done; unfold face; congruence.
Qed.

Lemma run_below_face d d' above below :
  face <$> d = face <$> d' → run_below d above below = run_below d' above below.
Proof.
  intros Hf. revert above.
  induction below as [|r rest IH]; intros above; [done|]. simpl.
  pose proof (card_at_face _ _ r Hf) as Hr.
  pose proof (card_at_face _ _ above Hf) as Ha.
  unfold face in Hr, Ha. injection Hr as -> _ -> _. injection Ha as -> _ -> _.
  by rewrite IH.
Qed.

Lemma draggable_face d d' pile :
  face <$> d = face <$> d' → draggable d pile = draggable d' pile.
Proof.
  intros. unfold draggable. destruct (reverse pile); [done|].
  f_equal. by apply run_below_face.
Qed.

Lemma write_canDrag_app b refs refs' d :
  write_canDrag b (refs ++ refs') d = write_canDrag b refs' (write_canDrag b refs d).
Proof. apply foldl_app. Qed.

(** The second loop of [setDraggableCards] as one write: the marks of
    one column do not change what the next column reads. *)
Lemma mark_columns ps d :
  foldl (λ d pile, write_canDrag true (draggable d pile) d) d ps
  = write_canDrag true (concat (draggable d <$> ps)) d.
Proof.
  revert d. induction ps as [|p ps IH]; intros d; [done|]. simpl.
  rewrite IH, write_canDrag_app. do 2 f_equal.
  apply list_fmap_ext. intros _ pile _.
  apply draggable_face, face_write_canDrag.
Qed.

Lemma setDraggableCards_deck st :
  deck (setDraggableCards st)
  = write_canDrag true (top_runs st)
      (write_canDrag false (concat (piles st)) (deck st)).
Proof.
  unfold setDraggableCards, top_runs. simpl_state. rewrite mark_columns.
  do 2 f_equal. apply list_fmap_ext. intros _ pile _.
  apply draggable_face, face_write_canDrag.
Qed.

Lemma setDraggableCards_length st :
  length (deck (setDraggableCards st)) = length (deck st).
Proof. rewrite setDraggableCards_deck. by autorewrite with spider. Qed.

(** The mark of a card after [setDraggableCards]. *)
Lemma canDrag_setDraggableCards st ref :
  ref < length (deck st) →
  canDrag (card (setDraggableCards st) ref)
  = if decide (ref ∈ top_runs st) then true
    else if decide (ref ∈ concat (piles st)) then false
    else canDrag (card st ref).
Proof.
  intros. unfold card. rewrite setDraggableCards_deck.
  rewrite !canDrag_write_canDrag; autorewrite with spider; done.
Qed.

Lemma top_runs_face st st' :
  piles st' = piles st → face <$> deck st' = face <$> deck st →
  top_runs st' = top_runs st.
Proof.
  intros Hp Hf. unfold top_runs. rewrite Hp. f_equal.
  apply list_fmap_ext. intros _ pile _. by apply draggable_face.
Qed.

(** Two decks that agree up to the marks and on the marks are the same. *)
Lemma deck_ext d d' :
  unmarked d = unmarked d' →
  (∀ ref, ref < length d → canDrag (card_at d ref) = canDrag (card_at d' ref)) →
  d = d'.
Proof.
  intros Hu Hm. assert (length d = length d') as Hl.
  { pose proof (f_equal length Hu) as Hl. unfold unmarked in Hl.
    by rewrite !length_fmap in Hl. }
  apply list_eq_same_length with (length d); [done..|].
  intros i x y Hi Hx Hy.
  specialize (Hm i Hi). unfold card_at in Hm.
  rewrite (list_lookup_total_correct _ _ _ Hx), (list_lookup_total_correct _ _ _ Hy) in Hm.
  apply (f_equal (.!! i)) in Hu. unfold unmarked in Hu.
  rewrite !list_lookup_fmap, Hx, Hy in Hu. simplify_eq/=.
  destruct x, y. unfold set_canDrag in Hu. simplify_eq/=. done.
Qed.

(** [setDraggableCards] is idempotent: the marks it leaves are those
    it would write again. *)
Lemma setDraggableCards_marks st : marks_ok (setDraggableCards st).
Proof.
  unfold marks_ok. apply deck_ext.
  { by apply (setDraggableCards_blind (set_canDrag false)). }
  intros ref Hlt. rewrite !setDraggableCards_length in Hlt.
  fold (card (setDraggableCards (setDraggableCards st)) ref).
  fold (card (setDraggableCards st) ref).
  rewrite canDrag_setDraggableCards by by rewrite setDraggableCards_length.
  rewrite (top_runs_face st (setDraggableCards st))
    by (done || by apply (setDraggableCards_blind face)).
  rewrite setDraggableCards_piles.
  rewrite (canDrag_setDraggableCards st) by done.
  by repeat destruct (decide _).
Qed.

Lemma refreshTable_marks st : marks_ok (refreshTable st).
Proof. apply setDraggableCards_marks. Qed.
Lemma elem_of_run_below d above below ref :
  ref ∈ run_below d above below
  ↔ ∃ i, below !! i = Some ref ∧ chain d above (take (S i) below).
Proof.
  revert above. induction below as [|r rest IH]; intros above; simpl.
  { split; [by intros ?%elem_of_nil|by intros (? & ? & _)]. }
  fold (descends d r above). case_decide as Hd.
  - rewrite elem_of_cons, IH. split.
    + intros [->|(i & ? & ?)]; [by exists 0|by exists (S i)].
    + intros ([|i] & ? & ? & ?); simplify_eq/=; eauto.
  - split; [by intros ?%elem_of_nil|]. by intros (i & _ & ? & _).
Qed.

Lemma chain_lookup d above below :
  chain d above below
  ↔ ∀ j x y, (above :: below) !! j = Some x → (above :: below) !! S j = Some y →
      descends d y x.
Proof.
  revert above. induction below as [|r rest IH]; intros above; simpl.
  { split; [|done]. by intros _ [|[]] ???. }
  rewrite IH. split.
  - intros [? Hc] [|j] x y ??; simplify_eq/=; [done|]. by eapply Hc.
  - intros Hc. split; [by apply (Hc 0)|]. intros j x y ??. by apply (Hc (S j)).
Qed.

Lemma is_run_reverse d l :
  is_run d l
  ↔ ∀ j x y, reverse l !! j = Some x → reverse l !! S j = Some y → descends d y x.
Proof.
  assert (∀ l, is_run d l →
    ∀ j x y, reverse l !! j = Some x → reverse l !! S j = Some y → descends d y x)
    as Hone.
  { intros l' Hr j x y Hx Hy.
    pose proof (lookup_lt_Some _ _ _ Hy) as Hj. rewrite length_reverse in Hj.
    rewrite reverse_lookup in Hx, Hy by lia.
    apply (Hr (length l' - S (S j))); [done|].
    by replace (S (length l' - S (S j))) with (length l' - S j) by lia. }
  split; [apply Hone|]. intros Hr i a b Ha Hb.
  pose proof (lookup_lt_Some _ _ _ Hb) as Hi.
  apply (Hr (length l - S (S i))).
  - rewrite reverse_lookup by lia.
    by replace (length l - S (length l - S (S i))) with (S i) by lia.
  - rewrite reverse_lookup by lia.
    by replace (length l - S (S (length l - S (S i)))) with i by lia.
Qed.

Lemma draggable_rev d pile ref :
  ref ∈ draggable d pile
  ↔ ∃ i, reverse pile !! i = Some ref
      ∧ ∀ j x y, take (S i) (reverse pile) !! j = Some x →
          take (S i) (reverse pile) !! S j = Some y → descends d y x.
Proof.
  unfold draggable. destruct (reverse pile) as [|top below].
  { split; [by intros ?%elem_of_nil|by intros (? & ? & _)]. }
  rewrite elem_of_cons, elem_of_run_below. split.
  - intros [->|(i & ? & ?)].
    + exists 0. split; [done|]. by intros [|[]] ???.
    + exists (S i). split; [done|]. by apply chain_lookup.
  - intros ([|i] & ? & Hc); simplify_eq/=; [by left|right].
    exists i. split; [done|]. by apply chain_lookup.
Qed.

(** What [draggable] marks: a card is marked exactly when the cards
    from it to the top of the pile are a run. *)
Lemma draggable_spec d pile ref :
  ref ∈ draggable d pile
  ↔ ∃ k, pile !! k = Some ref ∧ is_run d (drop k pile).
Proof.
  rewrite draggable_rev. split.
  - intros (i & Hi & Hc).
    pose proof (lookup_lt_Some _ _ _ Hi) as Hlt. rewrite length_reverse in Hlt.
    rewrite reverse_lookup in Hi by done. rewrite take_reverse in Hc.
    exists (length pile - S i). split; [done|]. by apply is_run_reverse.
  - intros (k & Hk & Hr). pose proof (lookup_lt_Some _ _ _ Hk) as Hlt.
    exists (length pile - S k). rewrite reverse_lookup, take_reverse by lia.
    replace (length pile - S (length pile - S k)) with k by lia.
    split; [done|]. by apply is_run_reverse.
Qed.

Lemma elem_of_top_runs st ref :
  ref ∈ top_runs st
  ↔ ∃ stack pile, 13 ≤ stack ∧ piles st !! stack = Some pile
      ∧ ref ∈ draggable (deck st) pile.
Proof.
  unfold top_runs. rewrite elem_of_concat. split.
  - intros (run & Hin & (pile & -> & Hp)%list_elem_of_fmap).
    apply list_elem_of_lookup_1 in Hp as [i Hi]. rewrite lookup_drop in Hi.
    exists (13 + i), pile. split_and!; [lia|done..].
  - intros (stack & pile & Hge & Hp & Hin). eexists. split; [done|].
    apply list_elem_of_fmap. exists pile. split; [done|].
    apply (list_elem_of_lookup_2 _ (stack - 13)). rewrite lookup_drop.
    by replace (13 + (stack - 13)) with stack by lia.
Qed.

(** The marks of a well-formed table. *)
Lemma canDrag_wf st ref :
  wf st → ref < 104 →
  canDrag (card (setDraggableCards st) ref) = bool_decide (ref ∈ top_runs st).
Proof.
  intros Hwf Hlt. rewrite canDrag_setDraggableCards by by rewrite (wf_deck _ Hwf).
  apply (wf_ref_lt _ _ Hwf) in Hlt. by repeat case_decide; case_bool_decide.
Qed.

End Marks.

(** ** A table whose marks are fresh *)

Section Fresh.
Implicit Types (st : State) (ref : nat).

(** Between handlers a marked card is in a column, and the cards from
    it to the top of the column are a run. *)
Lemma marked_in_column st ref :
  wf st → marks_ok st → ref < 104 → canDrag (card st ref) = true →
  ∃ stack pile k, 13 ≤ stack ∧ piles st !! stack = Some pile
    ∧ pile !! k = Some ref ∧ is_run (deck st) (drop k pile).
Proof.
  intros Hwf Hm Hlt Hc. unfold card in Hc. rewrite <- Hm in Hc.
  fold (card (setDraggableCards st) ref) in Hc.
  rewrite canDrag_wf, bool_decide_eq_true in Hc by done.
  apply elem_of_top_runs in Hc as (stack & pile & ? & ? & Hd).
  apply draggable_spec in Hd as (k & ? & ?). eauto 10.
Qed.

Lemma marks_ok_same st st' :
  piles st' = piles st → deck st' = deck st → marks_ok st → marks_ok st'.
Proof.
  unfold marks_ok. rewrite !setDraggableCards_deck. intros Hp Hd.
  rewrite (top_runs_face st st'), Hp, Hd by by rewrite ?Hd. done.
Qed.

End Fresh.

(** ** Examples *)

(** A game of one suit in which the shuffle exchanged the cards at 88
    and 90 and no others: the card under the top card of the first
    column is one higher than it. *)
Definition one_swap : State :=
  set_howManySuitsNext 1
    (initial no_storage false false
       (λ n, if (n =? 1)%N then 88 else if (n =? 2)%N then 90 else 0) 0).

Definition hidden_run : State :=
  Eval vm_compute in default one_swap (newGame true one_swap).

Lemma hidden_run_new : newGame true one_swap = Some hidden_run.
Proof. by vm_compute. Qed.

(** [setDraggableCards] marks a card that lies face down: card 90 of
    [hidden_run] is under the top card of its column and can be
    dragged. *)
Lemma hidden_card_marked :
  piles hidden_run !! 13 = Some [50; 60; 70; 80; 90; 100]
  ∧ facingUp (card hidden_run 90) = false
  ∧ canDrag (card hidden_run 90) = true.
Proof. by vm_compute. Qed.

(** C12. Which cards can be picked up: after [setDraggableCards] a card
    of a well-formed table has the mark [canDrag] exactly when it lies
    in a column and the cards from it to the top of the column are a
    run, each of the suit of the card on it and one higher.  The test
    does not read [facingUp]. *)
Theorem setDraggableCards_spec (st : State) (ref : nat) :
  wf st → ref < 104 →
  canDrag (card (setDraggableCards st) ref) = true
  ↔ ∃ stack pile k, 13 ≤ stack ∧ piles st !! stack = Some pile
      ∧ pile !! k = Some ref ∧ is_run (deck st) (drop k pile).
Proof.
  intros Hwf Hlt. rewrite canDrag_wf, bool_decide_eq_true by done.
  rewrite elem_of_top_runs. setoid_rewrite draggable_spec.
  split; intros (? & ? & ? & ? & ? & ? & ?); eauto 10.
Qed.

Lemma setDraggableCards_spec_witness :
  canDrag (card (setDraggableCards started) 103) = true
  ↔ ∃ stack pile k, 13 ≤ stack ∧ piles started !! stack = Some pile
      ∧ pile !! k = Some 103 ∧ is_run (deck started) (drop k pile).
Proof. apply (setDraggableCards_spec started 103 started_wf). lia. Defined.
