(* ===== verification/Moves.v ===== *)
(** * Moves: dealing a stack, moving cards, clearing a suit

    [recordMove] (lines 811-820), [checkAndDoRemove] (824-887), the part
    of [showMenu] that acts on the game (596-611), [moveCard] (473-505)
    and [deal] (428-469). *)

From stdpp Require Import base list strings numbers option.
From S2P Require Import Prelude Cards State Storage Tableau Dealing Scores.

#[local] Open Scope string_scope.
#[local] Open Scope Z_scope.

(** ** The undo log *)

(** [recordMove]: the game is on, a move of a card costs a point, the
    record is pushed and the game saved. *)
Definition recordMove (cardId sourcePile targetPile : Z)
    (resultedInTurn : Flag) (st : State) : State :=
  let st := set_playing true st in
  let st := if decide (0 ≤ cardId) then set_score (score st - 1) st else st in
  let st := set_moves
              (moves st ++ [mkMove cardId sourcePile targetPile resultedInTurn])
              st in
  saveGame st.

(** ** Turning up the card a move uncovers *)

(** Lines 490-497 and 862-868: if the pile is not empty and its top card
    faces down, the card is turned up; the result says whether it was. *)
Definition turnTopCard (stack : nat) (st : State) : bool * State :=
  match top_ref stack st with
  | Some top =>
      if facingUp (card st top) then (false, st)
      else (true, set_deck (write_facingUp true top (deck st)) st)
  | None => (false, st)
  end.

(** ** Clearing a suit *)

(** Lines 829-834: the first empty home, or -2. *)
Definition firstSpareHome (st : State) : Z :=
  match list_find (λ stack, length (piles st !!! stack) = 0%nat)
          (seq 5 8) with
  | Some (_, stack) => Z.of_nat stack
  | None => -2
  end.

(** The test of line 847 on the card [card] places below the top:
    [tempCard] against [cardAbove], the card just above it. *)
Definition continuesSuit (st : State) (pile : list nat) (topCard : Card)
    (card : nat) : bool :=
  let n := length pile in
  let tempCard := card_at (deck st) (pile !!! (n - 1 - card)%nat) in
  let cardAbove := card_at (deck st) (pile !!! (n - card)%nat) in
  facingUp tempCard
  && bool_decide (suit tempCard = suit topCard)
  && bool_decide (hierarchy tempCard = (hierarchy cardAbove + 1)%nat).

(** Lines 838-852: the column ends in a full suit: at least 13 cards, an
    ace facing up on top and, below it, twelve cards facing up of its
    suit, each one higher than the card above. *)
Definition fullSuitOnTop (stack : nat) (st : State) : bool :=
  let pile := piles st !!! stack in
  match list.last pile with
  | Some top =>
      let topCard := card st top in
      bool_decide (13 ≤ length pile)%nat
      && bool_decide (value topCard = "A")
      && facingUp topCard
      && forallb (continuesSuit st pile topCard) (seq 1 12)
  | None => false
  end.

(** Lines 853-870: the thirteen cards go to the spare home, 100 points
    are won, the card uncovered is turned, the removal is recorded and
    the next home becomes the spare one.  Without a spare home
    [piles[spareHome]] is [undefined]. *)
Definition removeSuit (stack : nat) (spareHome : Z) (st : State)
    : option (Z * State) :=
  let n := Z.of_nat (length (piles st !!! stack)) in
  let r := pile_splice stack (n - 13) 13 (piles st) in
  let st := set_piles r.2 st in
  home ← pile_index spareHome st;
  let st := set_piles (pile_concat home r.1 (piles st)) st in
  let st := set_score (score st + 100) st in
  let '(turned, st) := turnTopCard stack st in
  let st := recordMove (-2) (Z.of_nat stack) spareHome (FBool turned) st in
  Some (spareHome + 1, st).

(** The loop of lines 837-873 over the columns still to look at. *)
Fixpoint removeSuits (stacks : list nat) (spareHome : Z) (st : State)
    : option (Z * State) :=
  match stacks with
  | [] => Some (spareHome, st)
  | stack :: rest =>
      if fullSuitOnTop stack st then
        '(spareHome, st) ← removeSuit stack spareHome st;
        removeSuits rest spareHome st
      else removeSuits rest spareHome st
  end.

(** [showMenu(theirScore)], as far as the game goes: with a score, a new
    game is started; then the levels of the high scores are fixed for
    display.  The dialog and its buttons are other handlers. *)
Definition showMenu (theirScore : option Z) (st : State) : option State :=
  st ← match theirScore with
       | Some _ => newGame true st
       | None => Some st
       end;
  Some (set_highScores (fixLevel <$> highScores st) st).

(** [checkAndDoRemove]: the result says whether the game goes on. *)
Definition checkAndDoRemove (st : State) : option (bool * State) :=
  '(spareHome, st) ← removeSuits (seq 13 10) (firstSpareHome st) st;
  if decide (spareHome = 13) then
    let st := set_statPlayed (S (statPlayed st)) st in
    let st := set_statWon (S (statWon st)) st in
    let st := set_playing false st in
    let st := highScoreCheck st in
    let st := saveGame st in
    st ← showMenu (Some (score st)) st;
    Some (false, st)
  else Some (true, st).

(** ** Moving cards *)

(** The test of line 480. [onthemove] is [ssObj.deck[cardId]], which is
    only looked at when there is a card on top of the target. *)
Definition canLand (onthemove : option Card) (targetPile : PileRef)
    (st : State) : option bool :=
  match cardOnTop targetPile with
  | None => Some true
  | Some top =>
      c ← onthemove;
      Some (bool_decide (Z.of_nat (hierarchy c)
                         = Z.of_nat (hierarchy (card st top)) - 1))
  end.

(** Lines 482-502, once the drop is accepted: the card and those above
    it leave their pile for the target pile, the card uncovered is
    turned, the move is recorded, and a suit this completed is
    cleared. *)
Definition transferCards (c : Card) (sourcePile targetPile : PileRef)
    (st : State) : option (bool * State) :=
  src ← pile_index (result sourcePile) st;
  let n := Z.of_nat (length (piles st !!! src)) in
  let r := pile_splice src (pos sourcePile) (n - pos sourcePile) (piles st) in
  let st := set_piles r.2 st in
  tgt ← pile_index (result targetPile) st;
  let st := set_piles (pile_concat tgt r.1 (piles st)) st in
  let '(resultedInTurn, st) := turnTopCard src st in
  let st := recordMove (Z.of_nat (id c)) (result sourcePile)
              (result targetPile) (FBool resultedInTurn) st in
  '(stillPlaying, st) ← checkAndDoRemove st;
  let st := if (stillPlaying : bool) then refreshTable st else st in
  Some (true, st).

(** [moveCard(cardId, tg)]: the result is whether the cards were moved. *)
Definition moveCard (cardId : nat) (tg : Target) (st : State)
    : option (bool * State) :=
  let onthemove := deck st !! cardId in
  '(targetPile, st) ← getPileDroppedOn tg st;
  if decide (result targetPile = -1) then Some (false, st)
  else
    match canLand onthemove targetPile st with
    | None => None
    | Some false => Some (false, st)
    | Some true =>
      c ← onthemove;
      '(sourcePile, st) ← getPileContainingCard (Z.of_nat (id c)) st;
      transferCards c sourcePile targetPile st
    end.

(** ** Dealing a stack *)

(** Lines 431-435: some column is empty. *)
Definition emptySpace (st : State) : bool :=
  bool_decide (Exists (λ stack, length (piles st !!! (13 + stack)%nat) = 0%nat)
                 (seq 0 10)).

(** Lines 452-460: ten cards are popped off the stack, each turned up
    and pushed onto the next column. *)
Fixpoint dealCards (stack : nat) (counts : list nat) (st : State)
    : option State :=
  match counts with
  | [] => Some st
  | count :: rest =>
      '(ref, ps) ← pile_pop stack (piles st);
      let st := set_piles ps st in
      let st := set_deck (write_facingUp true ref (deck st)) st in
      let st := set_piles (pile_push (13 + count) ref (piles st)) st in
      dealCards stack rest st
  end.

(** [deal] *)
Definition deal (st : State) : option State :=
  if emptySpace st then
    Some (alert "You cannot deal when there are empty spaces" st)
  else
    let stack := nextDealStack st in
    if decide (stack = -1) then
      Some (set_dealDisabled true (alert "No cards left to deal" st))
    else
      st ← dealCards (Z.to_nat stack) (seq 0 10) st;
      let st := recordMove (-1) stack (-1) (FNum (-1)) st in
      '(_, st) ← checkAndDoRemove st;
      let st := refreshTable st in
      Some (if decide (stack = 0) then set_dealDisabled true st else st).

(** ** The cards are kept *)

#[local] Close Scope string_scope.

Section Keeps.
Implicit Types (st : State) (stack : nat).

Lemma recordMove_keeps cardId src tgt turned st :
  keeps st (recordMove cardId src tgt turned st).
Proof.
  unfold recordMove. etrans; [|apply saveGame_keeps].
  apply keeps_same; by case_decide.
Qed.

Lemma turnTopCard_keeps stack st : keeps st (turnTopCard stack st).2.
Proof.
  unfold turnTopCard. repeat split_guard; try done.
  apply keeps_set_deck, face_write_facingUp.
Qed.

(** A splice and the append of what it removed, as one step on the
    piles: the heart of [moveCard], [removeSuit] and the undos. *)
Lemma splice_concat_keeps i start count j st :
  (j < length (piles st))%nat →
  let r := pile_splice i start count (piles st) in
  keeps st (set_piles (pile_concat j r.1 r.2) st).
Proof.
  intros Hj r. subst r. apply keeps_set_piles.
  - by rewrite pile_concat_length, pile_splice_length.
  - rewrite pile_concat_perm by (by rewrite pile_splice_length).
    apply pile_splice_perm.
Qed.

Lemma removeSuit_keeps stack spareHome st spareHome' st' :
  removeSuit stack spareHome st = Some (spareHome', st') → keeps st st'.
Proof.
  unfold removeSuit. intros H.
  apply bind_Some in H as (home & Hhome & H).
  apply pile_index_Some in Hhome as [_ Hhome]. simpl_state.
  rewrite pile_splice_length in Hhome.
  destruct (turnTopCard _ _) as [turned st1] eqn:Ht. simplify_eq.
  etrans; [|apply recordMove_keeps].
  apply (f_equal snd) in Ht. cbn [snd] in Ht. subst st1.
  etrans; [|apply turnTopCard_keeps].
  etrans; [by apply (splice_concat_keeps stack
                       (Z.of_nat (length (piles st !!! stack)) - 13) 13 home)|].
  by apply keeps_same.
Qed.

Lemma removeSuits_keeps stacks spareHome st spareHome' st' :
  removeSuits stacks spareHome st = Some (spareHome', st') → keeps st st'.
Proof.
  revert spareHome st. induction stacks as [|stack stacks IH];
    intros spareHome st H; cbn [removeSuits] in H; [by simplify_eq|].
  destruct (fullSuitOnTop stack st); [|by eapply IH].
  apply bind_Some in H as ([sh st1] & Hr & H).
  etrans; [by eapply removeSuit_keeps|by eapply IH].
Qed.

End Keeps.

(** ** The invariant is kept *)

Section Wf.
Implicit Types (st : State) (stack : nat).

(** A card popped off one pile, turned, and pushed onto another. *)
Lemma pop_push_keeps i j b st ref ps :
  pile_pop i (piles st) = Some (ref, ps) → (j < length (piles st))%nat →
  keeps st (set_piles (pile_push j ref ps)
              (set_deck (write_facingUp b ref (deck st)) (set_piles ps st))).
Proof.
  intros Hpop Hj. pose proof (pile_pop_lt _ _ _ _ Hpop) as Hi.
  pose proof (pile_pop_length _ _ _ _ Hpop) as Hl.
  repeat split; simpl_state.
  - by rewrite pile_push_length.
  - rewrite pile_push_concat, pile_concat_perm by lia.
    rewrite <- (pile_pop_perm _ _ _ _ Hpop Hi).
    symmetry. apply Permutation_cons_append.
  - apply face_write_facingUp.
Qed.

Lemma dealCards_keeps stack counts st st' :
  Forall (λ count, 13 + count < length (piles st))%nat counts →
  dealCards stack counts st = Some st' → keeps st st'.
Proof.
  revert st. induction counts as [|count counts IH]; intros st Hc H;
    cbn [dealCards] in H; [by simplify_eq|].
  apply bind_Some in H as ([ref ps] & Hpop & H). simpl_state.
  apply Forall_cons_1 in Hc as [Hc Hcs].
  pose proof (pop_push_keeps stack (13 + count) true st ref ps Hpop Hc) as Hk.
  etrans; [exact Hk|]. apply IH; [|done].
  destruct Hk as (-> & _). done.
Qed.

Lemma highScoreCheck_keeps st : keeps st (highScoreCheck st).
Proof. by apply keeps_same. Qed.

(** After [showMenu] with a score the table holds a new game. *)
Lemma showMenu_new sc st st' :
  showMenu (Some sc) st = Some st' → wf st' ∧ piles st' = layout ∧ moves st' = [].
Proof.
  unfold showMenu. intros H. apply bind_Some in H as (st1 & Hn & H).
  destruct (newGame_spec st) as (st2 & Hn' & Hwf & Hp & _ & Hm & _).
  simplify_eq. split; [|done]. by destruct Hwf.
Qed.

(** While the game goes on, [checkAndDoRemove] keeps the cards. *)
(** The menu after a game that was won starts the next game. *)
Lemma showMenu_inv sc st st' :
  showMenu (Some sc) st = Some st' →
  ∃ s1, newGame true st = Some s1
    ∧ st' = set_highScores (fixLevel <$> highScores s1) s1.
Proof.
  unfold showMenu. intros H. apply bind_Some in H as (s1 & Hn & H).
  exists s1. split; [done|]. by injection H as <-.
Qed.

(** What [checkAndDoRemove] returns: the table after the clearances
    while the game goes on, a new game once it is over. *)
Lemma checkAndDoRemove_inv st b st' :
  checkAndDoRemove st = Some (b, st') →
  ∃ spareHome st1,
    removeSuits (seq 13 10) (firstSpareHome st) st = Some (spareHome, st1)
    ∧ if b then st' = st1
      else ∃ s0 s1, newGame true s0 = Some s1
             ∧ st' = set_highScores (fixLevel <$> highScores s1) s1.
Proof.
  unfold checkAndDoRemove. intros H.
  apply bind_Some in H as ([sh st1] & Hr & H). exists sh, st1. split; [done|].
  case_decide; [|by simplify_eq].
  apply bind_Some in H as (st2 & Hm & H). injection H as <- <-.
  apply showMenu_inv in Hm as (s1 & Hn & ->). eauto.
Qed.

Lemma checkAndDoRemove_keeps st st' :
  checkAndDoRemove st = Some (true, st') → keeps st st'.
Proof.
  unfold checkAndDoRemove. intros H.
  apply bind_Some in H as ([sh st1] & Hr & H).
  case_decide; [|simplify_eq; by eapply removeSuits_keeps].
  apply bind_Some in H as (? & _ & ?). simplify_eq.
Qed.

(** When it ends the game, a new game is on the table. *)
Lemma checkAndDoRemove_won st st' :
  checkAndDoRemove st = Some (false, st') →
  wf st' ∧ piles st' = layout ∧ moves st' = [].
Proof.
  unfold checkAndDoRemove. intros H.
  apply bind_Some in H as ([sh st1] & Hr & H).
  case_decide; [|simplify_eq].
  apply bind_Some in H as (st2 & Hm & ?). simplify_eq.
  by eapply showMenu_new.
Qed.

Lemma checkAndDoRemove_wf st b st' :
  wf st → checkAndDoRemove st = Some (b, st') → wf st'.
Proof.
  intros Hwf H. destruct b.
  - by rewrite <- (checkAndDoRemove_keeps _ _ H).
  - by apply checkAndDoRemove_won in H as [? _].
Qed.

End Wf.

Section Handlers.
Implicit Types (st : State) (stack : nat).

(** The steps of [moveCard] between the test of the drop and
    [checkAndDoRemove]. *)
Lemma transfer_keeps src start count tgt turned st st1 :
  (tgt < length (piles st))%nat →
  let r := pile_splice src start count (piles st) in
  turnTopCard src (set_piles (pile_concat tgt r.1 r.2) st) = (turned, st1) →
  ∀ cardId s t, keeps st (recordMove cardId s t (FBool turned) st1).
Proof.
  intros Htgt r Ht cardId s t. etrans; [|apply recordMove_keeps].
  apply (f_equal snd) in Ht. cbn [snd] in Ht. subst st1.
  etrans; [|apply turnTopCard_keeps]. by apply splice_concat_keeps.
Qed.

Lemma transferCards_inv c sourcePile targetPile st moved st' :
  wf st → transferCards c sourcePile targetPile st = Some (moved, st') → wf st'.
Proof.
  unfold transferCards. intros Hwf H.
  apply bind_Some in H as (src & _ & H).
  apply bind_Some in H as (tgt & Htgt & H).
  apply pile_index_Some in Htgt as [_ Htgt]. simpl_state.
  rewrite pile_splice_length in Htgt.
  destruct (turnTopCard _ _) as [turned st2] eqn:Ht.
  apply bind_Some in H as ([stillPlaying st3] & Hc & H).
  rewrite set_piles_twice in Ht.
  pose proof (transfer_keeps _ _ _ _ _ _ _ Htgt Ht) as Hk.
  eapply checkAndDoRemove_wf in Hc; [|by rewrite <- (Hk _ _ _)].
  destruct stillPlaying; simplify_eq; [|done].
  by rewrite <- refreshTable_keeps.
Qed.

(** [moveCard] keeps the invariant, whatever it is asked to move. *)
Lemma moveCard_inv cardId tg st moved st' :
  wf st → moveCard cardId tg st = Some (moved, st') → wf st'.
Proof.
  unfold moveCard. intros Hwf H.
  apply bind_Some in H as ([targetPile st0] & Hd & H).
  apply getPileDroppedOn_keeps in Hd. rewrite Hd in Hwf. clear Hd.
  case_decide; [by simplify_eq|].
  destruct (canLand _ _ _) as [[]|]; [|by simplify_eq..].
  apply bind_Some in H as (c & _ & H).
  apply bind_Some in H as ([sourcePile st1] & Hs & H).
  apply getPileContainingCard_keeps in Hs. rewrite Hs in Hwf.
  by eapply transferCards_inv.
Qed.

(** [transferCards] never answers [false]. *)
Lemma transferCards_true c sourcePile targetPile st moved st' :
  transferCards c sourcePile targetPile st = Some (moved, st') → moved = true.
Proof.
  unfold transferCards. intros H.
  apply bind_Some in H as (src & _ & H).
  apply bind_Some in H as (tgt & _ & H).
  destruct (turnTopCard _ _) as [turned st2].
  apply bind_Some in H as ([stillPlaying st3] & _ & H).
  by simplify_eq.
Qed.

(** A drop that is refused leaves the search for the target behind
    and nothing else. *)
Lemma moveCard_false cardId tg st st' :
  moveCard cardId tg st = Some (false, st') → ∃ t, st' = set_topCard t st.
Proof.
  unfold moveCard. intros H.
  apply bind_Some in H as ([targetPile st0] & Hd & H).
  apply getPileDroppedOn_frame in Hd.
  assert (∃ t, st0 = set_topCard t st) as Hst0 by eauto.
  case_decide; [by simplify_eq|].
  destruct (canLand _ _ _) as [[]|]; [|by simplify_eq..].
  apply bind_Some in H as (c & _ & H).
  apply bind_Some in H as ([sourcePile st1] & _ & H).
  by apply transferCards_true in H.
Qed.

Lemma nextDealStack_cases st :
  nextDealStack st = -1 ∨ ∃ k : nat, nextDealStack st = Z.of_nat k.
Proof.
  unfold nextDealStack. destruct (list_find _ _) as [[i k]|]; eauto.
Qed.

(** What [deal] returns: a dialog and the table as it was, or the
    table after the cards were dealt, the deal recorded and the suits
    completed cleared. *)
Lemma deal_dealt st st' :
  deal st = Some st' →
  (∃ msg, st' = alert msg st ∨ st' = set_dealDisabled true (alert msg st))
  ∨ ∃ (k : nat) st1 b st3,
      nextDealStack st = Z.of_nat k
      ∧ dealCards k (seq 0 10) st = Some st1
      ∧ checkAndDoRemove (recordMove (-1) (Z.of_nat k) (-1) (FNum (-1)) st1)
        = Some (b, st3)
      ∧ (st' = refreshTable st3 ∨ st' = set_dealDisabled true (refreshTable st3)).
Proof.
  unfold deal. intros H. destruct (emptySpace st);
    [injection H as <-; left; eexists; by left|].
  destruct (nextDealStack_cases st) as [Hn|[k Hk]].
  { rewrite Hn, decide_True in H by done. injection H as <-.
    left. eexists. by right. }
  rewrite Hk in H. rewrite decide_False, Nat2Z.id in H by lia. right.
  apply bind_Some in H as (st1 & Hd & H).
  apply bind_Some in H as ([b st3] & Hc & H).
  exists k, st1, b, st3. split_and!; [done..|].
  case_decide; injection H as <-; auto.
Qed.

(** The gate of [deal] on the piles: one of the ten columns is empty. *)
Lemma emptySpace_spec st :
  emptySpace st = true ↔ ∃ k, (k < 10)%nat ∧ piles st !!! (13 + k)%nat = [].
Proof.
  unfold emptySpace. rewrite bool_decide_eq_true, list.Exists_exists.
  setoid_rewrite elem_of_seq. setoid_rewrite length_zero_iff_nil.
  split; intros (k & ? & ?); exists k; split; (lia || done).
Qed.

(** The search for the stack to deal finds none when none of the
    piles it looks at holds ten cards. *)
Lemma nextDealStack_none st :
  (∀ stack, (stack ≤ 5)%nat → length (piles st !!! stack) ≠ 10%nat) →
  nextDealStack st = -1.
Proof.
  intros Hno. unfold nextDealStack.
  destruct (list_find _ _) as [[i stack]|] eqn:Hf; [|done].
  apply list_find_Some in Hf as (Hin%list_elem_of_lookup_2 & Hlen & _).
  destruct (Hno stack); [|done].
  repeat (apply elem_of_cons in Hin as [->|Hin]; [lia|]).
  by apply elem_of_nil in Hin.
Qed.

Lemma deal_inv st st' : wf st → deal st = Some st' → wf st'.
Proof.
  unfold deal. intros Hwf H.
  destruct (emptySpace st);
    [simplify_eq; by apply (wf_keeps st); [apply keeps_same|]|].
  case_decide; [simplify_eq; by apply (wf_keeps st); [apply keeps_same|]|].
  apply bind_Some in H as (st1 & Hd & H).
  apply bind_Some in H as ([stillPlaying st2] & Hc & H).
  apply dealCards_keeps in Hd; last first.
  { rewrite (wf_piles _ Hwf). apply Forall_seq. lia. }
  eapply checkAndDoRemove_wf in Hc;
    [|by rewrite <- (recordMove_keeps _ _ _ _ _), <- Hd].
  apply (wf_keeps st2); [|done]. rewrite refreshTable_keeps at 1.
  case_decide; simplify_eq; by apply keeps_same.
Qed.

End Handlers.

(** ** What each step writes *)

Section Log.
Implicit Types (st : State) (stack : nat).

Lemma recordMove_moves cardId s t f st :
  moves (recordMove cardId s t f st) = moves st ++ [mkMove cardId s t f].
Proof. unfold recordMove. rewrite saveGame_moves. by case_decide. Qed.

Lemma recordMove_piles cardId s t f st :
  piles (recordMove cardId s t f st) = piles st.
Proof. unfold recordMove. rewrite saveGame_piles. by case_decide. Qed.

Lemma recordMove_deck cardId s t f st :
  deck (recordMove cardId s t f st) = deck st.
Proof. unfold recordMove. rewrite saveGame_deck. by case_decide. Qed.

Lemma recordMove_score cardId s t f st :
  score (recordMove cardId s t f st)
  = if decide (0 ≤ cardId) then score st - 1 else score st.
Proof. unfold recordMove. rewrite saveGame_score. by case_decide. Qed.

(** [turnTopCard] writes one field of one card. *)
Lemma turnTopCard_spec stack st :
  turnTopCard stack st
  = match top_ref stack st with
    | Some top =>
        let turned := negb (facingUp (card st top)) in
        (turned, if turned then set_deck (write_facingUp true top (deck st)) st
                 else st)
    | None => (false, st)
    end.
Proof. unfold turnTopCard. by repeat split_guard. Qed.

Lemma turnTopCard_frame stack st :
  (turnTopCard stack st).2 = set_deck (deck (turnTopCard stack st).2) st.
Proof. unfold turnTopCard. repeat split_guard; by destruct st. Qed.

(** A suit cleared leaves its record. *)
Lemma removeSuit_moves stack spareHome st spareHome' st' :
  removeSuit stack spareHome st = Some (spareHome', st') →
  ∃ turned, moves st'
            = moves st ++ [mkMove (-2) (Z.of_nat stack) spareHome (FBool turned)].
Proof.
  unfold removeSuit. intros H.
  apply bind_Some in H as (home & _ & H).
  destruct (turnTopCard _ _) as [turned st1] eqn:Ht. simplify_eq.
  exists turned. rewrite recordMove_moves. f_equal.
  apply (f_equal snd) in Ht. cbn [snd] in Ht.
  by rewrite <- Ht, turnTopCard_frame.
Qed.

Lemma removeSuit_next stack spareHome st spareHome' st' :
  removeSuit stack spareHome st = Some (spareHome', st') →
  spareHome' = spareHome + 1.
Proof.
  unfold removeSuit. intros H.
  apply bind_Some in H as (home & _ & H).
  destruct (turnTopCard _ _). by simplify_eq.
Qed.

(** The log only grows while suits are cleared, and when it did not
    grow nothing was cleared. *)
Lemma removeSuits_moves stacks spareHome st spareHome' st' :
  removeSuits stacks spareHome st = Some (spareHome', st') →
  (length (moves st) ≤ length (moves st'))%nat
  ∧ (length (moves st') = length (moves st) →
     spareHome' = spareHome ∧ st' = st).
Proof.
  revert spareHome st. induction stacks as [|stack stacks IH];
    intros spareHome st H; cbn [removeSuits] in H; [by simplify_eq|].
  destruct (fullSuitOnTop stack st); [|by eapply IH].
  apply bind_Some in H as ([sh st1] & Hr & H).
  apply removeSuit_moves in Hr as [turned Hr].
  apply IH in H as [Hle _]. rewrite Hr, length_app in Hle. simpl in Hle.
  split; lia.
Qed.

(** [checkAndDoRemove] that leaves the log as long as it was, when the
    log is not empty, has done nothing. *)
Lemma checkAndDoRemove_quiet st playing' st' :
  checkAndDoRemove st = Some (playing', st') →
  moves st ≠ [] → length (moves st') = length (moves st) →
  playing' = true ∧ st' = st.
Proof.
  unfold checkAndDoRemove. intros H Hne Hl.
  apply bind_Some in H as ([sh st1] & Hr & H).
  apply removeSuits_moves in Hr as [Hle Hsame].
  case_decide.
  - apply bind_Some in H as (st2 & Hm%showMenu_new & ?). simplify_eq.
    destruct Hm as (_ & _ & Hm). rewrite Hm in Hl.
    by destruct (moves st).
  - simplify_eq. by destruct Hsame.
Qed.

End Log.

#[export] Hint Rewrite recordMove_moves recordMove_piles recordMove_deck
  recordMove_score : spider.

(** ** What a move that succeeds did *)

Section Moved.
Implicit Types (st : State) (stack : nat).

Lemma turnTopCard_moves stack st turned st' :
  turnTopCard stack st = (turned, st') → moves st' = moves st.
Proof.
  intros Ht. apply (f_equal snd) in Ht. cbn [snd] in Ht.
  by rewrite <- Ht, turnTopCard_frame.
Qed.

Lemma turnTopCard_piles stack st turned st' :
  turnTopCard stack st = (turned, st') → piles st' = piles st.
Proof.
  intros Ht. apply (f_equal snd) in Ht. cbn [snd] in Ht.
  by rewrite <- Ht, turnTopCard_frame.
Qed.

Lemma turnTopCard_score stack st turned st' :
  turnTopCard stack st = (turned, st') → score st' = score st.
Proof.
  intros Ht. apply (f_equal snd) in Ht. cbn [snd] in Ht.
  by rewrite <- Ht, turnTopCard_frame.
Qed.

(** [turnTopCard] turns no card of another pile. *)
Lemma turnTopCard_facingUp stack st turned st' ref :
  turnTopCard stack st = (turned, st') → ref ∉ piles st !!! stack →
  facingUp (card st' ref) = facingUp (card st ref).
Proof.
  rewrite turnTopCard_spec. unfold top_ref. intros H Hin.
  destruct (list.last _) as [top|] eqn:Htop; [|by simplify_eq].
  destruct (facingUp (card st top)); simplify_eq/=; [done|].
  unfold card. simpl_state. rewrite card_at_write_facingUp_ne; [done|].
  intros ->. apply Hin. apply last_Some in Htop as [l ->].
  apply elem_of_app. right. by apply list_elem_of_singleton.
Qed.

Lemma transferCards_moved c sourcePile targetPile st st' (src p : nat) :
  result sourcePile = Z.of_nat src → pos sourcePile = Z.of_nat p →
  transferCards c sourcePile targetPile st = Some (true, st') →
  ∃ tgt turned sT playing' st3,
    result targetPile = Z.of_nat tgt ∧ (tgt < length (piles st))%nat
    ∧ turnTopCard src (set_piles (transfer src p tgt (piles st)) st)
      = (turned, sT)
    ∧ checkAndDoRemove (recordMove (Z.of_nat (id c)) (Z.of_nat src)
                          (Z.of_nat tgt) (FBool turned) sT)
      = Some (playing', st3)
    ∧ st' = if playing' then refreshTable st3 else st3.
Proof.
  unfold transferCards. intros Hsrc Hpos H. rewrite Hsrc, Hpos in H.
  apply bind_Some in H as (src' & [Hs' _]%pile_index_Some & H).
  assert (src' = src) as -> by lia.
  apply bind_Some in H as (tgt & [Htgt Hlt]%pile_index_Some & H).
  simpl_state. rewrite pile_splice_length in Hlt. rewrite set_piles_twice in H.
  destruct (turnTopCard _ _) as [turned sT] eqn:Ht.
  apply bind_Some in H as ([playing' st3] & Hc & H).
  exists tgt, turned, sT, playing', st3. rewrite Htgt in *. by simplify_eq.
Qed.

(** In a well-formed tableau the search finds the card moved, so a
    move that succeeds is a transfer from the place of the card. *)
Lemma moveCard_moved_to cardId tg st st' :
  wf st → moveCard cardId tg st = Some (true, st') →
  ∃ src spile p tgt turned t sT playing' st3,
    piles st !! src = Some spile ∧ spile !! p = Some cardId
    ∧ (tgt < length (piles st))%nat
    ∧ ((13 ≤ tgt)%nat ∨ piles st !!! tgt ≠ [])
    ∧ turnTopCard src (set_piles (transfer src p tgt (piles st))
                         (set_topCard t st)) = (turned, sT)
    ∧ checkAndDoRemove (recordMove (Z.of_nat cardId) (Z.of_nat src)
                          (Z.of_nat tgt) (FBool turned) sT)
      = Some (playing', st3)
    ∧ st' = if playing' then refreshTable st3 else st3.
Proof.
  unfold moveCard. intros Hwf H.
  apply bind_Some in H as ([targetPile st0] & Hd & H).
  pose proof (λ tgt, getPileDroppedOn_target _ _ _ _ tgt Hd) as Htg.
  apply getPileDroppedOn_frame in Hd. rewrite Hd in H.
  case_decide; [by simplify_eq|].
  destruct (canLand _ _ _) as [[]|]; [|by simplify_eq..].
  apply bind_Some in H as (c & Hc & H).
  assert (cardId < 104)%nat as Hlt
    by (rewrite <- (wf_deck _ Hwf); by eapply lookup_lt_Some).
  assert (id c = cardId) as Hid by (by eapply wf_ids).
  destruct (wf_locate _ _ Hwf Hlt) as (src & spile & p & Hsrc & Hp).
  rewrite Hid, (getPileContainingCard_found _ _ src spile p) in H;
    [|by eapply wf_keeps; [apply keeps_topCard|]|done..].
  cbn [mbind option_bind] in H. rewrite set_topCard_twice in H.
  eapply transferCards_moved in H
    as (tgt & turned & sT & playing' & st3 & ? & ? & ? & ? & ?); [|done..].
  rewrite Hid in *.
  exists src, spile, p, tgt, turned, (list.last spile), sT, playing', st3.
  split_and!; try done. by apply Htg.
Qed.

Lemma moveCard_moved cardId tg st st' :
  wf st → moveCard cardId tg st = Some (true, st') →
  ∃ src spile p tgt turned t sT playing' st3,
    piles st !! src = Some spile ∧ spile !! p = Some cardId
    ∧ (tgt < length (piles st))%nat
    ∧ turnTopCard src (set_piles (transfer src p tgt (piles st))
                         (set_topCard t st)) = (turned, sT)
    ∧ checkAndDoRemove (recordMove (Z.of_nat cardId) (Z.of_nat src)
                          (Z.of_nat tgt) (FBool turned) sT)
      = Some (playing', st3)
    ∧ st' = if playing' then refreshTable st3 else st3.
Proof.
  intros Hwf H. destruct (moveCard_moved_to _ _ _ _ Hwf H)
    as (src & spile & p & tgt & turned & t & sT & pl & st3
        & ? & ? & ? & _ & ? & ? & ?).
  by exists src, spile, p, tgt, turned, t, sT, pl, st3.
Qed.

(** The log of the state that [checkAndDoRemove] is given by a move. *)
Lemma moved_log cardId src tgt turned ps t st stack sT :
  turnTopCard stack (set_piles ps (set_topCard t st)) = (turned, sT) →
  moves (recordMove cardId src tgt (FBool turned) sT)
  = moves st ++ [mkMove cardId src tgt (FBool turned)].
Proof. intros Ht%turnTopCard_moves. by rewrite recordMove_moves, Ht. Qed.

(** A move that clears no suit. *)
Lemma moveCard_quiet cardId tg st st' :
  wf st → moveCard cardId tg st = Some (true, st') →
  length (moves st') = S (length (moves st)) →
  ∃ src spile p tgt turned t sT,
    piles st !! src = Some spile ∧ spile !! p = Some cardId
    ∧ (tgt < length (piles st))%nat
    ∧ turnTopCard src (set_piles (transfer src p tgt (piles st))
                         (set_topCard t st)) = (turned, sT)
    ∧ st' = refreshTable (recordMove (Z.of_nat cardId) (Z.of_nat src)
                            (Z.of_nat tgt) (FBool turned) sT).
Proof.
  intros Hwf H Hlen.
  apply moveCard_moved in H as (src & spile & p & tgt & turned & t & sT
    & playing' & st3 & Hsrc & Hp & Htgt & Ht & Hc & ->); [|done].
  pose proof (moved_log (Z.of_nat cardId) (Z.of_nat src) (Z.of_nat tgt)
                _ _ _ _ _ _ Ht) as Hm.
  apply checkAndDoRemove_quiet in Hc as [-> ->].
  - by exists src, spile, p, tgt, turned, t, sT.
  - rewrite Hm. by destruct (moves st).
  - rewrite Hm, length_app. simpl.
    destruct playing'; rewrite ?refreshTable_moves in Hlen; lia.
Qed.

End Moved.

(** ** The player and the score while suits are cleared *)

Section Player.
Implicit Types (st : State) (stack : nat).

Lemma recordMove_player cardId s t f st :
  same_player st (recordMove cardId s t f st).
Proof.
  unfold recordMove. rewrite saveGame_frame. repeat split; by case_decide.
Qed.

Lemma turnTopCard_player stack st : same_player st (turnTopCard stack st).2.
Proof. by rewrite turnTopCard_frame. Qed.

Lemma removeSuit_player stack spareHome st spareHome' st' :
  removeSuit stack spareHome st = Some (spareHome', st') →
  same_player st st' ∧ score st' = score st + 100.
Proof.
  unfold removeSuit. intros H.
  apply bind_Some in H as (home & _ & H).
  destruct (turnTopCard _ _) as [turned st1] eqn:Ht. simplify_eq.
  rewrite recordMove_score, decide_False, (turnTopCard_score _ _ _ _ Ht) by lia.
  split; [|done]. etrans; [|apply recordMove_player].
  apply (f_equal snd) in Ht. cbn [snd] in Ht. subst st1.
  etrans; [|apply turnTopCard_player]. done.
Qed.

(** Each suit cleared is worth 100 points and takes the next home. *)
Lemma removeSuits_player stacks spareHome st spareHome' st' :
  removeSuits stacks spareHome st = Some (spareHome', st') →
  same_player st st' ∧ score st' = score st + 100 * (spareHome' - spareHome).
Proof.
  revert spareHome st. induction stacks as [|stack stacks IH];
    intros spareHome st H; cbn [removeSuits] in H;
    [simplify_eq; split; [done|lia]|].
  destruct (fullSuitOnTop stack st); [|by eapply IH].
  apply bind_Some in H as ([sh st1] & Hr & H).
  pose proof (removeSuit_next _ _ _ _ _ Hr). subst sh.
  apply removeSuit_player in Hr as [Hp1 Hs1].
  apply IH in H as [Hp2 Hs2]. split; [by etrans|lia].
Qed.

End Player.

(** ** The theorems on [moveCard] and [deal] *)

(** The table after the whole first column of [started] was put on the
    fourth: the engine does not ask whether a card may be dragged. *)
Definition gapped : State :=
  Eval vm_compute in default started (snd <$> moveCard 50 (CardEl 103) started).

(** The table after the four of spades of [started] was put on the
    five: the card under the four was turned up. *)
Definition moved : State :=
  Eval vm_compute in default started (snd <$> moveCard 94 (CardEl 95) started).

(** The table after five deals from [started]: the stock is used up. *)
Definition dealt_out : State :=
  Eval vm_compute in
    default started (Nat.iter 5 (λ o, o ≫= deal) (Some started)).

Lemma dealt_out_deals :
  Nat.iter 5 (λ o, o ≫= deal) (Some started) = Some dealt_out.
Proof. vm_compute. reflexivity. Qed.

Lemma moved_move : moveCard 94 (CardEl 95) started = Some (true, moved).
Proof. by vm_compute. Qed.

Lemma gapped_move : moveCard 50 (CardEl 103) started = Some (true, gapped).
Proof. by vm_compute. Qed.

Lemma gapped_wf : wf gapped.
Proof. exact (moveCard_inv _ _ _ _ _ started_wf gapped_move). Qed.

(** C2. Card conservation for [moveCard]: from a well-formed tableau
    (23 piles, 104 cards each at its id, every card in exactly one
    place of one pile) every call that returns leaves a well-formed
    tableau, whether cards were moved, the drop was refused, a suit was
    cleared or the game was won. *)
Theorem moveCard_wf (cardId : nat) (tg : Target) (st : State)
    (moved : bool) (st' : State) :
  wf st → moveCard cardId tg st = Some (moved, st') → wf st'.
Proof. apply moveCard_inv. Qed.

Lemma moveCard_wf_witness : wf gapped.
Proof.
  exact (moveCard_wf 50 (CardEl 103) started true gapped started_wf gapped_move).
Defined.

(** C4. Card conservation for [deal]: from a well-formed tableau every
    call that returns leaves a well-formed tableau. *)
Theorem deal_wf (st st' : State) : wf st → deal st = Some st' → wf st'.
Proof. apply deal_inv. Qed.

Lemma deal_wf_witness : ∃ st', deal started = Some st' ∧ wf st'.
Proof.
  assert (is_Some (deal started)) as [st' E]
    by (vm_compute; eexists; reflexivity).
  exists st'. split; [exact E|]. exact (deal_wf started st' started_wf E).
Defined.

(** C14. A drop that [moveCard] refuses (the result is [false]: the
    place of the drop is no pile, or the card on top of the target pile
    is not one higher than the card moved) changes nothing of the game:
    the state is the one before but for the global [topCard] that the
    search for the target wrote. *)
Theorem moveCard_refused (cardId : nat) (tg : Target) (st st' : State) :
  moveCard cardId tg st = Some (false, st') → ∃ t, st' = set_topCard t st.
Proof. apply moveCard_false. Qed.

Lemma moveCard_refused_witness :
  moveCard 94 (CardEl 96) started = Some (false, set_topCard (Some 96%nat) started)
  ∧ ∃ t, set_topCard (Some 96%nat) started = set_topCard t started.
Proof.
  assert (moveCard 94 (CardEl 96) started
          = Some (false, set_topCard (Some 96%nat) started)) as E
    by (vm_compute; reflexivity).
  split; [exact E|]. exact (moveCard_refused 94 (CardEl 96) started _ E).
Defined.

(** C16. The two dialogs of [deal].  While one of the ten columns,
    piles 13 to 22, is empty, [deal] raises the dialog about empty
    spaces and changes nothing else: no card leaves a deal stack and
    nothing is recorded.  When no column is empty and none of the piles
    0 to 5 holds exactly ten cards, it raises the dialog that no cards
    are left, disables the Deal button and changes nothing else. *)
Theorem deal_gated (st : State) :
  ((∃ k, (k < 10)%nat ∧ piles st !!! (13 + k)%nat = []) →
   deal st = Some (alert "You cannot deal when there are empty spaces"%string st))
  ∧ ((∀ k, (k < 10)%nat → piles st !!! (13 + k)%nat ≠ []) →
     (∀ stack, (stack ≤ 5)%nat → length (piles st !!! stack) ≠ 10%nat) →
     deal st = Some (set_dealDisabled true
                       (alert "No cards left to deal"%string st))).
Proof.
  unfold deal. split.
  - intros He%emptySpace_spec. by rewrite He.
  - intros Hcols Hstock. destruct (emptySpace st) eqn:He.
    { apply emptySpace_spec in He as (k & ? & ?). by destruct (Hcols k). }
    by rewrite nextDealStack_none, decide_True.
Qed.

Lemma deal_gated_witness :
  deal gapped = Some (alert "You cannot deal when there are empty spaces"%string gapped)
  ∧ deal dealt_out = Some (set_dealDisabled true
                             (alert "No cards left to deal"%string dealt_out)).
Proof.
  split.
  - apply (proj1 (deal_gated gapped)). exists 0%nat. split; [lia|by vm_compute].
  - apply (proj2 (deal_gated dealt_out)).
    + intros k Hk. do 10 (destruct k as [|k]; [by vm_compute|]). lia.
    + intros s Hs. do 6 (destruct s as [|s]; [by vm_compute|]). lia.
Defined.

(** C13. The landing rule of [moveCard] on a card: when the place of
    the drop is a card of some pile, the cards are moved exactly when
    the card moved is one lower than the card on top of that pile.
    Nothing else is asked: not the suit, not that the card moved faces
    up or may be dragged, and not that the pile is a column, so a drop
    on a card of a deal stack or of a home is accepted by the same
    rule. *)
Theorem moveCard_rank (cardId : nat) (st : State) (tgt q z top : nat)
    (tpile : list nat) (c : Card) (moved : bool) (st' : State) :
  wf st → deck st !! cardId = Some c →
  piles st !! tgt = Some tpile → tpile !! q = Some z →
  list.last tpile = Some top →
  moveCard cardId (CardEl (Z.of_nat z)) st = Some (moved, st') →
  moved = bool_decide (hierarchy c + 1 = hierarchy (card st top))%nat.
Proof.
  intros Hwf Hc Htgt Hz Htop. unfold moveCard, getPileDroppedOn.
  rewrite (getPileContainingCard_found _ _ _ _ _ Hwf Htgt Hz), Hc, Htop.
  cbn [mbind option_bind result]. rewrite decide_False by lia.
  unfold canLand. cbn [cardOnTop mbind option_bind].
  case_bool_decide as Hrank; intros H.
  - apply bind_Some in H as ([sourcePile st1] & _ & H).
    apply transferCards_true in H as ->.
    symmetry. apply bool_decide_eq_true.
    change (card (set_topCard (Some top) st) top) with (card st top) in Hrank.
    lia.
  - simplify_eq. symmetry. apply bool_decide_eq_false.
    change (card (set_topCard (Some top) st) top) with (card st top) in Hrank.
    lia.
Qed.

Lemma moveCard_rank_witness :
  (fst <$> moveCard 99 (CardEl 9) started) = Some true
  ∧ true = bool_decide (hierarchy (card started 99) + 1
                        = hierarchy (card started 9))%nat.
Proof.
  assert (is_Some (moveCard 99 (CardEl 9) started)) as [[moved st'] E]
    by (vm_compute; eexists; reflexivity).
  assert (moved = true) as -> by (vm_compute in E; congruence).
  split; [by rewrite E|].
  refine (moveCard_rank 99 started 0 9 9 9 _ _ true st' started_wf _ _ _ _ E);
    reflexivity.
Defined.

(** C15. A drop on the base of a column is never refused: for the
    element [base_k] the search gives no card on top, so the rank of
    the card moved is not compared with anything, whether the column
    is empty or not. *)
Theorem moveCard_base_unchecked (cardId k : nat) (st : State)
    (moved : bool) (st' : State) :
  moveCard cardId (Base k) st = Some (moved, st') → moved = true.
Proof.
  unfold moveCard, getPileDroppedOn, canLand.
  cbn [mbind option_bind result cardOnTop]. rewrite decide_False by lia.
  intros H. apply bind_Some in H as (c & _ & H).
  apply bind_Some in H as ([sourcePile st1] & _ & H).
  by apply transferCards_true in H.
Qed.

Lemma moveCard_base_unchecked_witness :
  ∃ st', moveCard 94 (Base 3) started = Some (true, st')
    ∧ piles started !!! 16%nat = [53; 63; 73; 83; 93; 103]%nat
    ∧ hierarchy (card started 94) = 3%nat
    ∧ hierarchy (card started 103) = 12%nat.
Proof.
  assert (is_Some (moveCard 94 (Base 3) started)) as [[moved st'] E]
    by (vm_compute; eexists; reflexivity).
  exists st'. rewrite E.
  rewrite (moveCard_base_unchecked 94 3 started moved st' E).
  by repeat split.
Defined.
