(* ===== verification/Safety.v ===== *)
(** * Safety: [deal] and [checkAndDoRemove] do not throw

    The one statement of [checkAndDoRemove] that can fail is the append
    to [ssObj.piles[spareHome]] (line 859) when no home is spare.  This
    file shows that it does not happen while the homes in use hold whole
    suits, and that [deal] (lines 428-469) then returns on every
    path. *)

From stdpp Require Import base list strings numbers option.
From S2P Require Import Prelude Cards State Storage Tableau Dealing Scores Moves.

#[local] Open Scope Z_scope.

(** ** A home for every suit cleared

    What [checkAndDoRemove] needs is a home for the suit it clears.  It
    has one as long as the homes in use hold whole suits: with all
    eight in use the 104 cards are in the homes and no column is left
    to clear. *)

(** Each home is empty or holds at least a suit. *)
Definition homes_ok (st : State) : Prop :=
  Forall (λ i, length (piles st !!! i) = 0%nat ∨ (13 ≤ length (piles st !!! i))%nat)
    (seq 5 8).

#[export] Instance homes_ok_dec st : Decision (homes_ok st).
Proof. unfold homes_ok. apply _. Defined.

Section Safety.
Implicit Types (st : State) (stack : nat).

Lemma firstSpareHome_range st :
  firstSpareHome st = -2 ∨ 5 ≤ firstSpareHome st ≤ 12.
Proof.
  unfold firstSpareHome.
  destruct (list_find _ _) as [[i stack]|] eqn:Hf; [right|by left].
  apply list_find_Some in Hf as (Hin%list_elem_of_lookup_2 & _).
  apply elem_of_seq in Hin. lia.
Qed.

(** With every home in use no column holds a card. *)
Lemma homes_full_columns_empty st i :
  wf st → homes_ok st → firstSpareHome st = -2 → (13 ≤ i)%nat →
  piles st !!! i = [].
Proof.
  intros Hwf Hh Hf Hi. unfold firstSpareHome in Hf.
  destruct (list_find _ _) as [[]|] eqn:Hnone; [lia|].
  apply list_find_None in Hnone.
  apply (piles_rest_empty (piles st) 13 8 13 104); [|intros m Hm|lia..].
  - by rewrite (wf_cards _ Hwf), length_seq.
  - pose proof (proj1 (Forall_seq _ _ _) Hh (5 + m)%nat).
    pose proof (proj1 (Forall_seq _ _ _) Hnone (5 + m)%nat).
    replace (13 - 8 + m)%nat with (5 + m)%nat by lia. simpl in *. lia.
Qed.

Lemma fullSuitOnTop_length stack st :
  fullSuitOnTop stack st = true → (13 ≤ length (piles st !!! stack))%nat.
Proof.
  unfold fullSuitOnTop. destruct (list.last _); [|done].
  rewrite !andb_true_iff, bool_decide_eq_true. tauto.
Qed.

Lemma removeSuit_safe stack spareHome st :
  0 ≤ spareHome < Z.of_nat (length (piles st)) →
  is_Some (removeSuit stack spareHome st).
Proof.
  intros Hsh. unfold removeSuit.
  rewrite (proj2 (pile_index_Some spareHome _ (Z.to_nat spareHome)))
    by (simpl_state; rewrite pile_splice_length; lia).
  cbn [mbind option_bind]. by destruct (turnTopCard _ _).
Qed.

Lemma removeSuits_safe stacks spareHome st :
  0 ≤ spareHome →
  spareHome + Z.of_nat (length stacks) ≤ Z.of_nat (length (piles st)) →
  is_Some (removeSuits stacks spareHome st).
Proof.
  revert spareHome st. induction stacks as [|stack stacks IH];
    intros spareHome st H0 Hle; cbn [removeSuits]; [done|].
  cbn [length] in Hle.
  destruct (fullSuitOnTop stack st); [|apply IH; lia].
  destruct (removeSuit_safe stack spareHome st) as [[sh st1] Hr]; [lia|].
  rewrite Hr. cbn [mbind option_bind].
  pose proof (removeSuit_keeps _ _ _ _ _ Hr) as (Hl & _).
  pose proof (removeSuit_next _ _ _ _ _ Hr). subst sh.
  apply IH; lia.
Qed.

Lemma removeSuits_none stacks spareHome st :
  Forall (λ stack, fullSuitOnTop stack st = false) stacks →
  removeSuits stacks spareHome st = Some (spareHome, st).
Proof.
  induction 1 as [|stack stacks Hs _ IH]; cbn [removeSuits]; [done|].
  by rewrite Hs.
Qed.

Lemma checkAndDoRemove_safe st :
  wf st → homes_ok st → is_Some (checkAndDoRemove st).
Proof.
  intros Hwf Hh. unfold checkAndDoRemove.
  destruct (firstSpareHome_range st) as [Hf|Hf].
  - rewrite removeSuits_none, Hf; [done|].
    apply Forall_seq. intros stack Hs.
    apply not_true_is_false. intros Hfull%fullSuitOnTop_length.
    rewrite homes_full_columns_empty in Hfull by (done || lia).
    simpl in Hfull. lia.
  - destruct (removeSuits_safe (seq 13 10) (firstSpareHome st) st)
      as [[sh st1] ->]; [lia|rewrite (wf_piles _ Hwf), length_seq; lia|].
    cbn [mbind option_bind]. case_decide; [|done].
    unfold showMenu.
    edestruct newGame_spec as (st2 & -> & _). done.
Qed.

End Safety.

Section DealSafety.
Implicit Types (st : State) (stack : nat).

Lemma nextDealStack_spec st stack :
  nextDealStack st = Z.of_nat stack →
  (stack ≤ 5)%nat ∧ length (piles st !!! stack) = 10%nat.
Proof.
  unfold nextDealStack.
  destruct (list_find _ _) as [[i s]|] eqn:Hf; [|lia].
  apply list_find_Some in Hf as (Hin%list_elem_of_lookup_2 & Hlen & _).
  intros ?%(inj Z.of_nat). subst s. split; [|done].
  repeat (apply elem_of_cons in Hin as [->|Hin]; [lia|]).
  by apply elem_of_nil in Hin.
Qed.

(** A stack that holds enough cards is dealt, and the piles below the
    columns, the stack apart, are left as they were. *)
Lemma dealCards_safe stack counts st :
  (stack < 13)%nat → (length counts ≤ length (piles st !!! stack))%nat →
  ∃ st', dealCards stack counts st = Some st'
    ∧ ∀ i, (i < 13)%nat → i ≠ stack → piles st' !!! i = piles st !!! i.
Proof.
  intros Hs. revert st. induction counts as [|count counts IH]; intros st Hlen;
    cbn [dealCards]; [by eauto|].
  cbn [length] in Hlen.
  destruct (pile_pop_nonempty stack (piles st)) as (p & x & Hp & ->); [lia|].
  assert (stack < length (piles st))%nat as Hlt.
  { destruct (decide (stack < length (piles st))%nat); [done|].
    rewrite pile_lookup_ge in Hp by lia. by destruct p. }
  cbn [mbind option_bind]. simpl_state.
  edestruct IH as (st' & -> & Hsame).
  { simpl_state. unfold pile_push.
    rewrite list_lookup_total_insert_ne, list_lookup_total_insert_eq by lia.
    rewrite Hp, length_app in Hlen. simpl in Hlen. lia. }
  eexists. split; [done|]. intros i Hi Hne. rewrite Hsame by done.
  simpl_state. unfold pile_push.
  by rewrite !list_lookup_total_insert_ne by lia.
Qed.

Lemma homes_ok_same st st' :
  (∀ i, (5 ≤ i < 13)%nat → piles st' !!! i = piles st !!! i) →
  homes_ok st → homes_ok st'.
Proof.
  unfold homes_ok. rewrite !Forall_seq. intros Hsame Hh i Hi.
  rewrite Hsame by lia. by apply Hh.
Qed.

(** [deal] returns from every tableau whose homes hold whole suits. *)
Lemma deal_total st : wf st → homes_ok st → is_Some (deal st).
Proof.
  intros Hwf Hh. unfold deal. destruct (emptySpace st); [done|].
  case_decide as Hn; [done|].
  assert (∃ stack, nextDealStack st = Z.of_nat stack) as [stack Hs].
  { exists (Z.to_nat (nextDealStack st)). unfold nextDealStack in *.
    destruct (list_find _ _) as [[]|]; [by rewrite Nat2Z.id|done]. }
  destruct (nextDealStack_spec _ _ Hs) as [Hle Hlen].
  assert (stack ≠ 5)%nat as Hne.
  { intros ->. pose proof (proj1 (Forall_seq _ _ _) Hh 5%nat) as H5.
    cbv beta in H5. lia. }
  rewrite Hs, Nat2Z.id.
  destruct (dealCards_safe stack (seq 0 10) st) as (st1 & Hd & Hsame);
    [lia|rewrite length_seq; lia|].
  rewrite Hd. cbn [mbind option_bind].
  destruct (checkAndDoRemove_safe (recordMove (-1) (Z.of_nat stack) (-1)
              (FNum (-1)) st1)) as [[playing' st2] ->]; [| |done].
  - rewrite <- (recordMove_keeps _ _ _ _ _).
    eapply wf_keeps; [|done]. eapply dealCards_keeps; [|done].
    rewrite (wf_piles _ Hwf). apply Forall_seq. lia.
  - eapply homes_ok_same; [|done]. intros i Hi.
    rewrite recordMove_piles. apply Hsame; lia.
Qed.

End DealSafety.

(** ** The theorem *)

(** C8. [deal] does not throw: from a well-formed tableau in which each
    home is empty or holds at least a suit, [deal] returns, whichever
    of its paths it takes.  In particular the stack it deals holds the
    ten cards it pops, the columns it pushes them on exist, and a suit
    that the deal completes finds a home. *)
Theorem deal_safe (st : State) : wf st → homes_ok st → is_Some (deal st).
Proof. apply deal_total. Qed.

Lemma deal_safe_witness : is_Some (deal gapped) ∧ is_Some (deal started).
Proof.
  split.
  - apply (deal_safe gapped gapped_wf). vm_compute. by repeat constructor.
  - apply (deal_safe started started_wf). vm_compute. by repeat constructor.
Defined.
