(* ===== verification/UndoLog.v ===== *)
(** * UndoLog: taking back the last move

    [undo] (lines 509-578).  The handler pops the last record of the log
    and reverses it; after reversing the removal of a suit it calls
    itself, to take back the move that completed the suit as well.  The
    recursion is bounded by the length of the log, which is the fuel
    [undo] gives to [undo_fuel]. *)

From stdpp Require Import base list strings numbers option.
From S2P Require Import Prelude Cards State Storage Tableau Dealing Scores Moves.

#[local] Open Scope string_scope.
#[local] Open Scope Z_scope.

(** ** The three kinds of record *)

(** Lines 526-533: the top cards of the columns 9 down to 0 go back,
    face down, onto the stack.  A column that is empty gives
    [undefined], whose [facingUp] cannot be set. *)
Fixpoint undealCards (stack : nat) (counts : list nat) (st : State)
    : option State :=
  match counts with
  | [] => Some st
  | count :: rest =>
      '(ref, ps) ← pile_pop (13 + count) (piles st);
      let st := set_piles ps st in
      let st := set_deck (write_facingUp false ref (deck st)) st in
      let st := set_piles (pile_push stack ref (piles st)) st in
      undealCards stack rest st
  end.

(** Lines 515-535: the deal goes back to the first deal stack that is
    empty. *)
Definition undoDeal (st : State) : option State :=
  match list_find (λ stack, length (piles st !!! stack) = 0%nat) (seq 0 5) with
  | None => Some (alert "Oops, tried to undo a deal when no deal was done!" st)
  | Some (_, stack) =>
      st ← undealCards stack (reverse (seq 0 10)) st;
      Some (set_dealDisabled false st)
  end.

(** Lines 538-543 and 555-560: the card the move had turned up is
    turned down again. *)
Definition turnBack (thisMove : Move) (st : State) : option State :=
  if truthy (resultedInTurn thisMove) then
    src ← pile_index (sourcePile thisMove) st;
    top ← top_ref src st;
    Some (set_deck (write_facingUp false top (deck st)) st)
  else Some st.

(** Lines 537-550: the last thirteen cards of the home go back onto the
    column, and 99 points are given back. *)
Definition undoClearance (thisMove : Move) (st : State) : option State :=
  st ← turnBack thisMove st;
  tgt ← pile_index (targetPile thisMove) st;
  let n := Z.of_nat (length (piles st !!! tgt)) in
  let r := pile_splice tgt (n - 13) 13 (piles st) in
  let st := set_piles r.2 st in
  src ← pile_index (sourcePile thisMove) st;
  let st := set_piles (pile_concat src r.1 (piles st)) st in
  Some (set_score (score st - 99) st).

(** Lines 554-568: the card moved is looked for, and it and the cards
    above it go back from the target pile to the source pile. *)
Definition undoMove (thisMove : Move) (st : State) : option State :=
  st ← turnBack thisMove st;
  '(tmp, st) ← getPileContainingCard (cardId thisMove) st;
  tgt ← pile_index (targetPile thisMove) st;
  let n := Z.of_nat (length (piles st !!! tgt)) in
  let r := pile_splice tgt (pos tmp) (n - pos tmp) (piles st) in
  let st := set_piles r.2 st in
  src ← pile_index (sourcePile thisMove) st;
  Some (set_piles (pile_concat src r.1 (piles st)) st).

(** ** [undo] *)

(** Lines 571-574, common to the three kinds. *)
Definition undoFinish (st : State) : State :=
  saveGame (refreshTable (set_score (score st - 1) st)).

(** [undo] with the depth of its recursion bounded.  The outer [None]
    is fuel used up, the inner one a [TypeError]. *)
Fixpoint undo_fuel (fuel : nat) (st : State) : option (option State) :=
  match fuel with
  | O => None
  | S fuel =>
      match js_pop (moves st) with
      | None => Some (Some (alert "No more moves to undo" st))
      | Some (thisMove, rest) =>
          let st := set_moves rest st in
          if decide (cardId thisMove = -1) then
            Some (undoFinish <$> undoDeal st)
          else if decide (cardId thisMove = -2) then
            match undoClearance thisMove st with
            | None => Some None
            | Some st => fmap (M:=option) undoFinish <$> undo_fuel fuel st
            end
          else Some (undoFinish <$> undoMove thisMove st)
      end
  end.

(** [undo]: each call of the handler pops a record before it calls
    itself, so one more call than there are records is enough
    ([undo_fuel_enough]). *)
Definition undo (st : State) : option State :=
  mjoin (undo_fuel (S (length (moves st))) st).

(** ** The cards are kept *)

#[local] Close Scope string_scope.

Section Keeps.
Implicit Types (st : State) (thisMove : Move).

Lemma undealCards_keeps stack counts st st' :
  (stack < 13)%nat → undealCards stack counts st = Some st' → keeps st st'.
Proof.
  intros Hs. revert st. induction counts as [|count counts IH]; intros st H;
    cbn [undealCards] in H; [by simplify_eq|].
  apply bind_Some in H as ([ref ps] & Hpop & H). simpl_state.
  pose proof (pile_pop_lt _ _ _ _ Hpop).
  etrans; [apply (pop_push_keeps _ stack false _ _ _ Hpop); lia|].
  by apply IH.
Qed.

Lemma undoDeal_keeps st st' : undoDeal st = Some st' → keeps st st'.
Proof.
  unfold undoDeal. intros H.
  destruct (list_find _ _) as [[i stack]|] eqn:Hf; simplify_eq; [|done].
  apply list_find_Some in Hf as (Hin%list_elem_of_lookup_2 & _).
  apply elem_of_seq in Hin.
  apply bind_Some in H as (st1 & Hu & H). simplify_eq.
  etrans; [eapply undealCards_keeps; [|done]; lia|]. by apply keeps_same.
Qed.

Lemma turnBack_keeps thisMove st st' :
  turnBack thisMove st = Some st' → keeps st st'.
Proof.
  unfold turnBack. intros H. destruct (truthy _); [|by simplify_eq].
  apply bind_Some in H as (src & _ & H).
  apply bind_Some in H as (top & _ & H). simplify_eq.
  apply keeps_set_deck, face_write_facingUp.
Qed.

(** The splice and the append of [undoClearance] and [undoMove]. *)
Lemma splice_back_keeps tgt start count (source : Z) st :
  let r := pile_splice tgt start count (piles st) in
  ∀ src, pile_index source (set_piles r.2 st) = Some src →
  keeps st (set_piles (pile_concat src r.1 r.2) st).
Proof.
  intros r src [_ Hsrc]%pile_index_Some. subst r. simpl_state.
  rewrite pile_splice_length in Hsrc. by apply splice_concat_keeps.
Qed.

Lemma undoClearance_keeps thisMove st st' :
  undoClearance thisMove st = Some st' → keeps st st'.
Proof.
  unfold undoClearance. intros H.
  apply bind_Some in H as (st1 & Ht%turnBack_keeps & H).
  apply bind_Some in H as (tgt & _ & H).
  apply bind_Some in H as (src & Hsrc & H). simplify_eq. simpl_state.
  rewrite Ht. etrans; [by eapply splice_back_keeps|]. by apply keeps_same.
Qed.

Lemma undoMove_keeps thisMove st st' :
  undoMove thisMove st = Some st' → keeps st st'.
Proof.
  unfold undoMove. intros H.
  apply bind_Some in H as (st1 & Ht%turnBack_keeps & H).
  apply bind_Some in H as ([tmp st2] & Hg%getPileContainingCard_keeps & H).
  apply bind_Some in H as (tgt & _ & H).
  apply bind_Some in H as (src & Hsrc & H). simplify_eq. simpl_state.
  rewrite Ht, Hg, set_piles_twice. by eapply splice_back_keeps.
Qed.

Lemma undoFinish_keeps st : keeps st (undoFinish st).
Proof.
  unfold undoFinish. etrans; [|apply saveGame_keeps].
  etrans; [|apply refreshTable_keeps]. by apply keeps_same.
Qed.

Lemma undo_fuel_keeps fuel st st' :
  undo_fuel fuel st = Some (Some st') → keeps st st'.
Proof.
  revert st st'. induction fuel as [|fuel IH]; intros st st' H; [done|].
  cbn [undo_fuel] in H.
  destruct (js_pop (moves st)) as [[thisMove rest]|];
    [|simplify_eq; apply alert_keeps].
  assert (keeps st (set_moves rest st)) as -> by (by apply keeps_same).
  repeat case_decide.
  - apply (inj Some), fmap_Some in H as (st1 & Hu%undoDeal_keeps & ->).
    rewrite Hu. apply undoFinish_keeps.
  - destruct (undoClearance _ _) as [st1|] eqn:Hu; [|done].
    apply undoClearance_keeps in Hu. rewrite Hu.
    apply fmap_Some in H as ([st2|] & Hf & H); simplify_eq/=.
    rewrite (IH _ _ Hf). apply undoFinish_keeps.
  - apply (inj Some), fmap_Some in H as (st1 & Hu%undoMove_keeps & ->).
    rewrite Hu. apply undoFinish_keeps.
Qed.

Lemma undo_keeps st st' : undo st = Some st' → keeps st st'.
Proof.
  unfold undo.
  destruct (undo_fuel _ _) as [[st1|]|] eqn:E; intros H; cbn in H;
    simplify_eq.
  by eapply undo_fuel_keeps.
Qed.

End Keeps.

(** ** A move and its undo *)

Section Roundtrip.
Implicit Types (st : State) (thisMove : Move).

(** The second half of [undoMove], on a table where the hand of a move
    lies on its target pile: the piles are those before the move. *)
Lemma undoMove_back ref src p tgt turned spile st s s1 :
  piles st !! src = Some spile → spile !! p = Some ref →
  (tgt < length (piles st))%nat →
  let r := pile_splice src (Z.of_nat p)
             (Z.of_nat (length (piles st !!! src)) - Z.of_nat p) (piles st) in
  let thisMove := mkMove (Z.of_nat ref) (Z.of_nat src) (Z.of_nat tgt)
                    (FBool turned) in
  turnBack thisMove s = Some s1 → wf s1 →
  piles s1 = pile_concat tgt r.1 r.2 →
  ∃ t, undoMove thisMove s = Some (set_piles (piles st) (set_topCard t s1)).
Proof.
  intros Hsrc Hp Htgt r thisMove Hturn Hwf Hpiles.
  pose proof (lookup_lt_Some _ _ _ Hsrc) as Hlt.
  assert (length r.2 = length (piles st)) as Hl by apply pile_splice_length.
  unfold undoMove. rewrite Hturn. subst thisMove.
  cbn [mbind option_bind cardId].
  erewrite (getPileContainingCard_found s1 ref tgt _ (length (r.2 !!! tgt)));
    [|done|rewrite Hpiles; apply pile_concat_lookup; lia|]; last first.
  { rewrite lookup_app_r, Nat.sub_diag by lia. subst r.
    rewrite (pile_splice_suffix _ _ _ _ Hsrc)
      by (apply lookup_lt_Some in Hp; lia).
    cbn [fst]. by rewrite lookup_drop, Nat.add_0_r. }
  cbn [mbind option_bind targetPile sourcePile pos]. simpl_state.
  rewrite pile_index_of_nat
    by (simpl_state; rewrite Hpiles, pile_concat_length; lia).
  cbn [mbind option_bind]. simpl_state. rewrite Hpiles.
  rewrite pile_splice_concat_tail by lia. cbn [fst snd].
  rewrite pile_index_of_nat by (simpl_state; lia).
  cbn [mbind option_bind]. simpl_state. rewrite set_piles_twice.
  eexists. do 3 f_equal. subst r. apply pile_concat_splice; [done|].
  rewrite (list_lookup_total_correct _ _ _ Hsrc).
  apply lookup_lt_Some in Hp. lia.
Qed.

(** [turnBack] undoes [turnTopCard]. *)
Lemma turnBack_turnTopCard src turned (c t : Z) st st2 s :
  turnTopCard src st = (turned, st2) → (src < length (piles st))%nat →
  piles s = piles st → unmarked (deck s) = unmarked (deck st2) →
  ∃ s1, turnBack (mkMove c (Z.of_nat src) t (FBool turned)) s = Some s1
    ∧ s1 = set_deck (deck s1) s
    ∧ unmarked (deck s1) = unmarked (deck st).
Proof.
  rewrite turnTopCard_spec. unfold turnBack, top_ref.
  cbn [truthy resultedInTurn sourcePile].
  intros Ht Hsrc Hpiles Hdeck.
  assert (s = set_deck (deck s) s) as Hs by (by destruct s).
  destruct (list.last (piles st !!! src)) as [top|] eqn:Htop;
    [destruct (facingUp (card st top)) eqn:Hup|];
    simplify_eq/=; [by eauto| |by eauto].
  rewrite pile_index_of_nat by (by rewrite Hpiles).
  cbn [mbind option_bind]. rewrite Hpiles, Htop. cbn [mbind option_bind].
  eexists. split; [done|]. split; [done|]. simpl_state.
  rewrite unmarked_write_facingUp, Hdeck, unmarked_write_facingUp.
  apply (write_facingUp_undo false).
  by rewrite card_at_unmarked.
Qed.

(** What [undoFinish] leaves alone. *)
Lemma undoFinish_piles st : piles (undoFinish st) = piles st.
Proof. unfold undoFinish. by rewrite saveGame_piles. Qed.

Lemma undoFinish_moves st : moves (undoFinish st) = moves st.
Proof. unfold undoFinish. by rewrite saveGame_moves. Qed.

Lemma undoFinish_score st : score (undoFinish st) = score st - 1.
Proof. unfold undoFinish. by rewrite saveGame_score. Qed.

Lemma undoFinish_unmarked st :
  unmarked (deck (undoFinish st)) = unmarked (deck st).
Proof.
  unfold undoFinish. by rewrite saveGame_deck, refreshTable_unmarked.
Qed.

(** One call of [undo] on a log that ends with the record of a move. *)
Lemma undo_regular st thisMove rest :
  moves st = rest ++ [thisMove] →
  cardId thisMove ≠ -1 → cardId thisMove ≠ -2 →
  undo st = undoFinish <$> undoMove thisMove (set_moves rest st).
Proof.
  intros Hm H1 H2. unfold undo. cbn [undo_fuel].
  by rewrite Hm, js_pop_snoc, !decide_False.
Qed.

(** The table between the two halves of [undoMove] is well formed. *)
Lemma transfer_wf src p tgt st s :
  wf st → (tgt < length (piles st))%nat →
  piles s = transfer src p tgt (piles st) →
  unmarked (deck s) = unmarked (deck st) → wf s.
Proof.
  intros Hwf Htgt Hp Hd. eapply wf_keeps; [|done].
  pose proof (splice_concat_keeps src (Z.of_nat p)
    (Z.of_nat (length (piles st !!! src)) - Z.of_nat p) tgt st Htgt) as (?&?&_).
  repeat split; rewrite ?Hp; [done..|]. by apply unmarked_view.
Qed.

(** A transfer taken back: [s] is any state that shows the table after
    the transfer and has its record last in the log. *)
Lemma undo_transfer ref src spile p tgt turned t sT st s :
  wf st → piles st !! src = Some spile → spile !! p = Some ref →
  (tgt < length (piles st))%nat →
  turnTopCard src (set_piles (transfer src p tgt (piles st))
                     (set_topCard t st)) = (turned, sT) →
  piles s = piles sT → unmarked (deck s) = unmarked (deck sT) →
  moves s = moves st ++ [mkMove (Z.of_nat ref) (Z.of_nat src) (Z.of_nat tgt)
                           (FBool turned)] →
  ∃ st2, undo s = Some st2
    ∧ piles st2 = piles st ∧ moves st2 = moves st
    ∧ unmarked (deck st2) = unmarked (deck st)
    ∧ score st2 = score s - 1.
Proof.
  intros Hwf Hsrc Hp Htgt Hturn Hps Hds Hm.
  pose proof (f_equal snd Hturn) as HsT. cbn [snd] in HsT.
  rewrite turnTopCard_frame in HsT. rewrite <- HsT in Hps. simpl_state.
  rewrite (undo_regular _ _ _ Hm) by (cbn [cardId]; lia).
  edestruct (turnBack_turnTopCard src turned (Z.of_nat ref) (Z.of_nat tgt)
               _ sT (set_moves (moves st) s) Hturn) as (s1 & Hb & Hs1 & Hd);
    [simpl_state; rewrite transfer_length; by eapply lookup_lt_Some|done..|].
  assert (piles s1 = transfer src p tgt (piles st)) as Hpiles
    by (by rewrite Hs1).
  edestruct (undoMove_back ref src p tgt turned spile st) as [t' ->];
    [done..|by eapply transfer_wf|done|].
  eexists. split; [done|].
  rewrite undoFinish_piles, undoFinish_moves, undoFinish_score,
    undoFinish_unmarked. simpl_state. by rewrite Hs1.
Qed.

End Roundtrip.

(** C3. A move and its undo: when [moveCard] moved cards from a
    well-formed tableau and recorded exactly one move (no suit was
    completed by it), [undo] succeeds and puts every card back where it
    was: the piles and the undo log are those before the move, and so
    is every card but for its draggable mark, which the refresh
    recomputes; in particular the card the move had turned up faces
    down again.  The score is the one before less 2: the move cost a
    point and so did taking it back. *)
Theorem move_undo (cardId : nat) (tg : Target) (st st1 : State) :
  wf st → moveCard cardId tg st = Some (true, st1) →
  length (moves st1) = S (length (moves st)) →
  ∃ st2, undo st1 = Some st2
    ∧ piles st2 = piles st ∧ moves st2 = moves st
    ∧ unmarked (deck st2) = unmarked (deck st)
    ∧ score st2 = score st - 2.
Proof.
  intros Hwf Hmove Hlen.
  destruct (moveCard_quiet _ _ _ _ Hwf Hmove Hlen)
    as (src & spile & p & tgt & turned & t & sT & Hsrc & Hp & Htgt & Ht & ->).
  edestruct (undo_transfer cardId src spile p tgt turned t sT st)
    as (st2 & -> & ? & ? & ? & Hscore); [done..| | |by eapply moved_log|].
  - by rewrite refreshTable_piles, recordMove_piles.
  - by rewrite refreshTable_unmarked, recordMove_deck.
  - exists st2. split_and!; [done..|].
    rewrite Hscore, refreshTable_score, recordMove_score, decide_True by lia.
    apply turnTopCard_score in Ht. simpl_state. lia.
Qed.

Lemma move_undo_witness :
  ∃ st2, undo moved = Some st2
    ∧ piles st2 = piles started ∧ moves st2 = moves started
    ∧ unmarked (deck st2) = unmarked (deck started)
    ∧ score st2 = score started - 2.
Proof.
  exact (move_undo 94 (CardEl 95) started moved started_wf moved_move eq_refl).
Defined.

(** ** Termination *)

Section Termination.
Implicit Types (st : State) (thisMove : Move).

Lemma turnBack_moves thisMove st st' :
  turnBack thisMove st = Some st' → moves st' = moves st.
Proof.
  unfold turnBack. intros H. destruct (truthy _); [|by simplify_eq].
  apply bind_Some in H as (src & _ & H).
  apply bind_Some in H as (top & _ & H). by simplify_eq.
Qed.

Lemma undoClearance_moves thisMove st st' :
  undoClearance thisMove st = Some st' → moves st' = moves st.
Proof.
  unfold undoClearance. intros H.
  apply bind_Some in H as (st1 & Ht%turnBack_moves & H).
  apply bind_Some in H as (tgt & _ & H).
  apply bind_Some in H as (src & _ & H). by simplify_eq.
Qed.

(** One call of the handler, with some fuel left. *)
#[local] Ltac one_call Hpop :=
  eexists; intros [|?] ?; [lia|]; cbn [undo_fuel]; rewrite Hpop.

(** With more fuel than the log has records the handler returns, and
    what it returns does not depend on the fuel. *)
Lemma undo_fuel_enough fuel st :
  (length (moves st) < fuel)%nat →
  ∃ r, ∀ fuel', (length (moves st) < fuel')%nat → undo_fuel fuel' st = Some r.
Proof.
  revert st. induction fuel as [|fuel IH]; intros st Hlt; [lia|].
  destruct (js_pop (moves st)) as [[thisMove rest]|] eqn:Hpop;
    [|by one_call Hpop].
  destruct (decide (cardId thisMove = -1)) as [H1|H1];
    [one_call Hpop; by rewrite decide_True|].
  destruct (decide (cardId thisMove = -2)) as [H2|H2];
    [|one_call Hpop; by rewrite !decide_False].
  destruct (undoClearance thisMove (set_moves rest st)) as [st1|] eqn:Hu;
    [|one_call Hpop; by rewrite decide_False, decide_True, Hu].
  assert (length (moves st) = S (length (moves st1))) as Hl.
  { rewrite (undoClearance_moves _ _ _ Hu), (js_pop_Some _ _ _ Hpop).
    rewrite length_app. simpl. lia. }
  destruct (IH st1) as [r Hr]; [lia|].
  one_call Hpop. rewrite decide_False, decide_True, Hu, Hr by (done || lia).
  done.
Qed.

End Termination.

(** The fuel that [undo] gives is enough, and so is any fuel above the
    length of the log. *)
Lemma undo_fuel_undo fuel st :
  (length (moves st) < fuel)%nat → undo_fuel fuel st = Some (undo st).
Proof.
  intros Hlt. destruct (undo_fuel_enough fuel st Hlt) as [r Hr].
  unfold undo. rewrite (Hr fuel), (Hr (S _)) by lia. done.
Qed.

(** C7. [undo] terminates: although the handler calls itself after it
    took back the clearance of a suit, each call pops a record of the
    log first, so with any fuel above the length of the log [undo_fuel]
    returns, and what it returns is the result of [undo]. *)
Theorem undo_terminates (fuel : nat) (st : State) :
  (length (moves st) < fuel)%nat → undo_fuel fuel st = Some (undo st).
Proof. apply undo_fuel_undo. Qed.

Lemma undo_terminates_witness : undo_fuel 5 gapped = Some (undo gapped).
Proof. apply (undo_terminates 5 gapped). vm_compute. lia. Defined.

(** C5. Card conservation for [undo]: every call that returns leaves
    the 23 piles holding the same 104 cards, each in exactly one place,
    whichever kind of record was taken back. *)
Theorem undo_wf (st st' : State) : wf st → undo st = Some st' → wf st'.
Proof. intros Hwf H. by rewrite <- (undo_keeps _ _ H). Qed.

Lemma undo_wf_witness : ∃ st', undo gapped = Some st' ∧ wf st'.
Proof.
  assert (is_Some (undo gapped)) as [st' E]
    by (vm_compute; eexists; reflexivity).
  exists st'. split; [exact E|].
  exact (undo_wf gapped st' gapped_wf E).
Defined.
