(* ===== verification/Clearance.v ===== *)
(** * Clearance: a suit cleared, taken back, and the end of the game

    The removal of a full suit by [checkAndDoRemove] (lines 837-873) is
    a transfer of the last thirteen cards of a column to a home, and
    [undo] (lines 536-551) reverses it and then the move that completed
    the suit.  This file proves what the removal does, that one [undo]
    takes back both, and what the eighth removal makes of the game. *)

From stdpp Require Import base list strings numbers option.
From S2P Require Import Prelude Cards State Storage Tableau Dealing Scores.
From S2P Require Import Moves Safety UndoLog.

#[local] Open Scope Z_scope.

(** ** Tables for the examples *)

(** A table one move from the clearance of a suit: the first column
    holds a face-down card and the spades from king to two, the second
    column ends with the ace of spades; the cards of the columns face
    up, the first apart. *)
Definition nearly : State :=
  Eval vm_compute in
    refreshTable
      (set_piles
         (take 13 (piles started)
          ++ [50 :: reverse (seq 92 12); [51; 91]; seq 52 5; seq 57 5; seq 62 5;
              seq 67 5; seq 72 5; seq 77 5; seq 82 5; seq 87 4])%nat
         (set_deck (foldl (λ d ref, write_facingUp true ref d) (deck started)
                      (seq 51 53))
            (set_playing true started))).

(** A table at the end of the game, before [checkAndDoRemove] looks at
    it: seven suits in the homes, the eighth complete on the first
    column. *)
Definition last_suit : State :=
  Eval vm_compute in
    set_piles
      (replicate 5 []
       ++ ((λ b, reverse (seq (13 * b) 13)) <$> seq 0 7) ++ [[]]
       ++ [reverse (seq 91 13)] ++ replicate 9 [])%nat
      (set_deck (foldl (λ d ref, write_facingUp true ref d) (deck started)
                   (seq 0 104))
         (set_score 1193 (set_playing true started))).

Lemma nearly_wf : wf nearly.
Proof. apply (bool_decide_unpack _). by vm_compute. Qed.

(** [nearly] after the ace was put on the two: the suit is in the first
    home and the face-down card of the first column is turned up. *)
Definition cleared : State :=
  Eval vm_compute in default nearly (snd <$> moveCard 91 (CardEl 92) nearly).

Lemma cleared_move : moveCard 91 (CardEl 92) nearly = Some (true, cleared).
Proof. by vm_compute. Qed.

(** ** The removal as a transfer *)

(** The move completed a suit: [moveCard] moved cards and left two
    records on the log, that of the move and that of the clearance. *)
Definition completes_suit (cardId : nat) (tg : Target) (st st1 : State) : Prop :=
  moveCard cardId tg st = Some (true, st1)
  ∧ length (moves st1) = S (S (length (moves st))).

(** The entry of the list of high scores for the game that
    [checkAndDoRemove] ends from [st]: the score counts 100 points for
    each suit that call clears. *)
Definition wonEntry (st : State) : HighScore.t :=
  HighScore.mk (Some (howManySuits st))
    (score st + 100 * (13 - firstSpareHome st)) (now st) (playerName st).

Section Removal.
Implicit Types (st : State) (stack home : nat).

(** Exactly one record more means exactly one suit cleared. *)
Lemma removeSuits_one stacks spareHome st spareHome' st' :
  removeSuits stacks spareHome st = Some (spareHome', st') →
  length (moves st') = S (length (moves st)) →
  ∃ stack, stack ∈ stacks ∧ fullSuitOnTop stack st = true
    ∧ removeSuit stack spareHome st = Some (spareHome', st').
Proof.
  revert spareHome st. induction stacks as [|stack stacks IH];
    intros spareHome st H Hlen; cbn [removeSuits] in H;
    [simplify_eq; lia|].
  destruct (fullSuitOnTop stack st) eqn:Hfull; last first.
  { destruct (IH _ _ H Hlen) as (s & ? & ? & ?). exists s.
    by rewrite elem_of_cons; eauto. }
  apply bind_Some in H as ([sh st1] & Hr & H).
  pose proof (removeSuit_moves _ _ _ _ _ Hr) as [turned Hm].
  apply removeSuits_moves in H as [_ Hsame].
  destruct Hsame as [-> ->];
    [rewrite Hlen, Hm, length_app; simpl; lia|].
  exists stack. by rewrite elem_of_cons; eauto.
Qed.

Lemma checkAndDoRemove_one st playing' st' :
  checkAndDoRemove st = Some (playing', st') →
  length (moves st') = S (length (moves st)) →
  playing' = true
  ∧ ∃ stack spareHome', (13 ≤ stack < 23)%nat ∧ fullSuitOnTop stack st = true
      ∧ removeSuit stack (firstSpareHome st) st = Some (spareHome', st').
Proof.
  unfold checkAndDoRemove. intros H Hlen.
  apply bind_Some in H as ([sh st1] & Hr & H). case_decide.
  - apply bind_Some in H as (st2 & Hm%showMenu_new & ?). simplify_eq.
    destruct Hm as (_ & _ & Hm). by rewrite Hm in Hlen.
  - simplify_eq. split; [done|].
    destruct (removeSuits_one _ _ _ _ _ Hr Hlen) as (s & Hin & ? & ?).
    apply elem_of_seq in Hin. exists s, sh. split; [lia|done].
Qed.

(** What [removeSuit] does, with the transfer named. *)
Lemma removeSuit_transfer stack home st spareHome' st' :
  fullSuitOnTop stack st = true →
  removeSuit stack (Z.of_nat home) st = Some (spareHome', st') →
  let n := length (piles st !!! stack) in
  (home < length (piles st))%nat
  ∧ ∃ turned sT,
      turnTopCard stack
        (set_score (score st + 100)
           (set_piles (transfer stack (n - 13) home (piles st)) st))
      = (turned, sT)
      ∧ st' = recordMove (-2) (Z.of_nat stack) (Z.of_nat home) (FBool turned) sT.
Proof.
  intros Hfull%fullSuitOnTop_length H. cbv zeta. unfold removeSuit in H.
  unfold transfer. set (n := length (piles st !!! stack)) in *. clearbody n.
  apply bind_Some in H as (home' & [Hh Hlt]%pile_index_Some & H).
  assert (home' = home) as -> by lia.
  simpl_state. rewrite pile_splice_length in Hlt. split; [done|].
  rewrite set_piles_twice in H.
  destruct (turnTopCard _ _) as [turned sT] eqn:Ht. simplify_eq.
  exists turned, sT. split; [|done]. rewrite <- Ht.
  replace (Z.of_nat (n - 13)) with (Z.of_nat n - 13) by lia.
  by replace (Z.of_nat n - (Z.of_nat n - 13)) with 13 by lia.
Qed.

End Removal.

(** ** One [undo] takes back the clearance and the move *)

Section Pair.
Implicit Types (st : State) (stack home : nat) (thisMove : Move).

(** One call of [undo] on a log that ends with the record of a
    clearance: the handler calls itself on what [undoClearance]
    leaves. *)
Lemma undo_clearance st thisMove rest :
  moves st = rest ++ [thisMove] → cardId thisMove = -2 →
  undo st = st1 ← undoClearance thisMove (set_moves rest st);
            undoFinish <$> undo st1.
Proof.
  intros Hm Hc. unfold undo at 1. cbn [undo_fuel].
  rewrite Hm, js_pop_snoc, decide_False, decide_True by lia.
  destruct (undoClearance _ _) as [st1|] eqn:Hu; [|done].
  cbn [mbind option_bind]. rewrite undo_fuel_undo; [done|].
  rewrite (undoClearance_moves _ _ _ Hu), length_app. simpl. lia.
Qed.

(** [undoClearance] on a table that shows the suit in its home. *)
Lemma undoClearance_back X stack home turned sT s :
  (13 ≤ length (piles X !!! stack))%nat →
  (stack < length (piles X))%nat → (home < length (piles X))%nat →
  turnTopCard stack
    (set_score (score X + 100)
       (set_piles (transfer stack (length (piles X !!! stack) - 13) home
                     (piles X)) X)) = (turned, sT) →
  piles s = piles sT → unmarked (deck s) = unmarked (deck sT) →
  ∃ s2, undoClearance (mkMove (-2) (Z.of_nat stack) (Z.of_nat home)
                         (FBool turned)) s = Some s2
    ∧ piles s2 = piles X ∧ unmarked (deck s2) = unmarked (deck X)
    ∧ moves s2 = moves s ∧ score s2 = score s - 99.
Proof.
  intros Hn Hstack Hhome Hturn Hps Hds.
  pose proof (f_equal snd Hturn) as HsT. cbn [snd] in HsT.
  rewrite turnTopCard_frame in HsT. rewrite <- HsT in Hps. simpl_state.
  edestruct (turnBack_turnTopCard stack turned (-2) (Z.of_nat home)
               _ sT s Hturn) as (s1 & Hb & Hs1 & Hd);
    [simpl_state; by rewrite transfer_length|done..|].
  unfold undoClearance. rewrite Hb. cbn [mbind option_bind targetPile sourcePile].
  assert (piles s1 = transfer stack (length (piles X !!! stack) - 13) home
                       (piles X)) as Hpiles by (by rewrite Hs1).
  rewrite pile_index_of_nat by (by rewrite Hpiles, transfer_length).
  cbn [mbind option_bind]. simpl_state. rewrite Hpiles.
  destruct (transfer_back stack (length (piles X !!! stack) - 13) home
              (piles X)) as (Hsplice & Hconcat); [done|lia|done|].
  rewrite Hsplice by (rewrite length_drop; lia). cbn [fst snd].
  rewrite pile_index_of_nat by (simpl_state; by rewrite length_insert).
  cbn [mbind option_bind]. simpl_state. rewrite set_piles_twice, Hconcat.
  eexists. split; [done|]. simpl_state. by rewrite Hs1.
Qed.

End Pair.

(** ** A move that completes one suit *)

Section Cleared.
Implicit Types (st : State) (stack home : nat).

Lemma removeSuit_home stack spareHome st r :
  removeSuit stack spareHome st = Some r →
  ∃ home, spareHome = Z.of_nat home.
Proof.
  unfold removeSuit. intros H.
  apply bind_Some in H as (home & [Hh _]%pile_index_Some & _). eauto.
Qed.

(** A move from [st] that completed one suit and gave [st1]: the move
    of [cardId] from position [p] of pile [src] to pile [tgt], then the
    clearance of column [stack] to the home [home]. *)
Inductive Cleared (cardId : nat) (st st1 : State) : Prop :=
| mkCleared (src p tgt stack home : nat) (spile : list nat)
    (turned turned' : bool) (t : option nat) (sT sT' : State) :
    let recorded := recordMove (Z.of_nat cardId) (Z.of_nat src) (Z.of_nat tgt)
                      (FBool turned) sT in
    piles st !! src = Some spile → spile !! p = Some cardId →
    (tgt < length (piles st))%nat →
    turnTopCard src (set_piles (transfer src p tgt (piles st))
                       (set_topCard t st)) = (turned, sT) →
    (13 ≤ stack < 23)%nat → fullSuitOnTop stack recorded = true →
    firstSpareHome recorded = Z.of_nat home →
    (home < length (piles recorded))%nat →
    turnTopCard stack
      (set_score (score recorded + 100)
         (set_piles
            (transfer stack (length (piles recorded !!! stack) - 13) home
               (piles recorded)) recorded)) = (turned', sT') →
    st1 = refreshTable (recordMove (-2) (Z.of_nat stack) (Z.of_nat home)
                          (FBool turned') sT') →
    Cleared cardId st st1.

Lemma moveCard_cleared cardId tg st st1 :
  wf st → moveCard cardId tg st = Some (true, st1) →
  length (moves st1) = S (S (length (moves st))) →
  Cleared cardId st st1.
Proof.
  intros Hwf H Hlen.
  apply moveCard_moved in H as (src & spile & p & tgt & turned & t & sT
    & playing' & st3 & Hsrc & Hp & Htgt & Ht & Hc & ->); [|done].
  pose proof (moved_log (Z.of_nat cardId) (Z.of_nat src) (Z.of_nat tgt)
                _ _ _ _ _ _ Ht) as Hm.
  apply checkAndDoRemove_one in Hc
    as (-> & stack & sh' & Hstack & Hfull & Hr); last first.
  { rewrite Hm, length_app. simpl.
    destruct playing'; rewrite ?refreshTable_moves in Hlen; lia. }
  destruct (removeSuit_home _ _ _ _ Hr) as [home Hhome]. rewrite Hhome in Hr.
  destruct (removeSuit_transfer _ _ _ _ _ Hfull Hr)
    as (Hlt & turned' & sT' & Ht' & ->).
  by eapply (mkCleared _ _ _ src p tgt stack home).
Qed.

(** The clearance and the move taken back by one [undo]: [X] is any
    state that shows the table after the move with its record last in
    the log, [st1] any state that shows the table after the clearance
    with its record last. *)
Lemma undo_clearance_transfer ref src spile p tgt turned t sT st X
    stack home turned' sT' st1 :
  wf st → piles st !! src = Some spile → spile !! p = Some ref →
  (tgt < length (piles st))%nat →
  turnTopCard src (set_piles (transfer src p tgt (piles st))
                     (set_topCard t st)) = (turned, sT) →
  piles X = piles sT → unmarked (deck X) = unmarked (deck sT) →
  moves X = moves st ++ [mkMove (Z.of_nat ref) (Z.of_nat src) (Z.of_nat tgt)
                           (FBool turned)] →
  (13 ≤ length (piles X !!! stack))%nat →
  (stack < length (piles X))%nat → (home < length (piles X))%nat →
  turnTopCard stack
    (set_score (score X + 100)
       (set_piles (transfer stack (length (piles X !!! stack) - 13) home
                     (piles X)) X)) = (turned', sT') →
  piles st1 = piles sT' → unmarked (deck st1) = unmarked (deck sT') →
  moves st1 = moves X ++ [mkMove (-2) (Z.of_nat stack) (Z.of_nat home)
                            (FBool turned')] →
  ∃ st2, undo st1 = Some st2
    ∧ piles st2 = piles st ∧ moves st2 = moves st
    ∧ unmarked (deck st2) = unmarked (deck st)
    ∧ score st2 = score st1 - 101.
Proof.
  intros Hwf Hsrc Hp Htgt Ht HpX HdX HmX Hn Hstack Hhome Ht' Hp1 Hd1 Hm1.
  rewrite (undo_clearance _ _ _ Hm1) by done.
  edestruct (undoClearance_back X stack home turned' sT'
               (set_moves (moves X) st1))
    as (s2 & -> & Hp2 & Hd2 & Hm2 & Hs2); [done..|].
  cbn [mbind option_bind].
  edestruct (undo_transfer ref src spile p tgt turned t sT st s2)
    as (st2 & -> & ? & ? & ? & Hscore);
    [done..|by rewrite Hp2|by rewrite Hd2|by rewrite Hm2|].
  eexists. split; [done|].
  rewrite undoFinish_piles, undoFinish_moves, undoFinish_score,
    undoFinish_unmarked. split_and!; [done..|].
  rewrite Hscore, Hs2. simpl_state. lia.
Qed.

Lemma undo_cleared cardId st st1 :
  wf st → Cleared cardId st st1 →
  ∃ st2, undo st1 = Some st2
    ∧ piles st2 = piles st ∧ moves st2 = moves st
    ∧ unmarked (deck st2) = unmarked (deck st)
    ∧ score st2 = score st1 - 101.
Proof.
  intros Hwf [src p tgt stack home spile turned turned' t sT sT' X
    Hsrc Hp Htgt Ht Hstack Hfull Hspare Hhome Ht' ->].
  assert (length (piles X) = 23%nat) as HlX.
  { unfold X. rewrite recordMove_piles, (turnTopCard_piles _ _ _ _ Ht).
    simpl_state. by rewrite transfer_length, (wf_piles _ Hwf). }
  apply (undo_clearance_transfer cardId src spile p tgt turned t sT st X
           stack home turned' sT' _ Hwf Hsrc Hp Htgt Ht);
    [apply recordMove_piles|unfold X; by rewrite recordMove_deck
    |by eapply moved_log|by apply fullSuitOnTop_length|lia|done|exact Ht'|..].
  - rewrite refreshTable_piles. apply recordMove_piles.
  - by rewrite refreshTable_unmarked, recordMove_deck.
  - rewrite refreshTable_moves, recordMove_moves.
    by rewrite (turnTopCard_moves _ _ _ _ Ht').
Qed.

(** The score after a move that completed one suit. *)
Lemma cleared_score cardId st st1 :
  Cleared cardId st st1 → score st1 = score st + 99.
Proof.
  intros [src p tgt stack home spile turned turned' t sT sT' X
    _ _ _ Ht _ _ _ _ Ht' ->].
  rewrite refreshTable_score, recordMove_score, decide_False by lia.
  rewrite (turnTopCard_score _ _ _ _ Ht'). simpl_state.
  unfold X. rewrite recordMove_score, decide_True by lia.
  rewrite (turnTopCard_score _ _ _ _ Ht). simpl_state. lia.
Qed.

End Cleared.

(** C6. Clearance and move are taken back together: when [moveCard]
    moved cards from a well-formed tableau and recorded two moves (the
    move and the clearance of the suit it completed), one [undo] puts
    the thirteen cards back on their column, turns down again the card
    the clearance had turned up, then takes back the move itself: the
    piles and the log are those before the move, and so is every card
    up to its draggable mark.  The score is 2 less than before the
    move: the move cost 1 and won 100, the undo of the clearance costs
    99 and each of the two calls of [undo] costs 1. *)
Theorem clear_undo (cardId : nat) (tg : Target) (st st1 : State) :
  wf st → completes_suit cardId tg st st1 →
  score st1 = score st + 99
  ∧ ∃ st2, undo st1 = Some st2
      ∧ piles st2 = piles st ∧ moves st2 = moves st
      ∧ unmarked (deck st2) = unmarked (deck st)
      ∧ score st2 = score st - 2.
Proof.
  intros Hwf [Hmove Hlen].
  pose proof (moveCard_cleared _ _ _ _ Hwf Hmove Hlen) as Hc.
  pose proof (cleared_score _ _ _ Hc) as Hs. split; [done|].
  destruct (undo_cleared _ _ _ Hwf Hc) as (st2 & ? & ? & ? & ? & Hs2).
  exists st2. split_and!; [done..|lia].
Qed.

Lemma clear_undo_witness :
  score cleared = score nearly + 99
  ∧ ∃ st2, undo cleared = Some st2
      ∧ piles st2 = piles nearly ∧ moves st2 = moves nearly
      ∧ unmarked (deck st2) = unmarked (deck nearly)
      ∧ score st2 = score nearly - 2.
Proof.
  exact (clear_undo 91 (CardEl 92) nearly cleared nearly_wf
           (conj cleared_move eq_refl)).
Defined.

(** ** The end of the game *)

(** What [checkAndDoRemove] makes of [last_suit]. *)
Definition won : State :=
  Eval vm_compute in default last_suit (snd <$> checkAndDoRemove last_suit).

Lemma won_check : checkAndDoRemove last_suit = Some (false, won).
Proof. by vm_compute. Qed.

(** C11. The end of the game: when [checkAndDoRemove] answers that the
    game is over (the suits it cleared took the homes up to the last),
    the game is counted as played and won, its score, 100 points for
    each suit just cleared included, is put into the list of high
    scores under the level and the name of the player, and the table
    the handler leaves is that of a new game: the fixed layout with an
    empty log, 500 points, not playing.  The tableau with the eight
    suits in their homes is never what a handler returns. *)
Theorem win_new_game (st st' : State) :
  checkAndDoRemove st = Some (false, st') →
  wf st' ∧ piles st' = layout ∧ moves st' = [] ∧ playing st' = false
  ∧ score st' = 500
  ∧ statPlayed st' = S (statPlayed st) ∧ statWon st' = S (statWon st)
  ∧ highScores st'
    = fixLevel <$> insertScore (wonEntry st) (highScores st).
Proof.
  unfold checkAndDoRemove, showMenu. intros H.
  apply bind_Some in H as ([sh st1] & Hr & H). case_decide; [|done]. subst sh.
  apply removeSuits_player in Hr as [(Hn & Hh & Hp & Hw & Hs & Hd) Hsc].
  apply bind_Some in H as (st3 & H & ?). simplify_eq.
  apply bind_Some in H as (st2 & Hnew & ?). simplify_eq.
  match type of Hnew with newGame true ?X = _ =>
    destruct (newGame_spec X)
      as (st2' & Hnew' & Hwf & Hpiles & Hscore & Hmoves & Hplaying & _)
  end.
  pose proof (newGame_record _ _ Hnew) as (_ & Hh2 & Hp2 & Hw2 & _).
  rewrite Hnew' in Hnew. simplify_eq. simpl_state.
  rewrite Hh2, Hp2, Hw2, saveGame_frame. unfold highScoreCheck, wonEntry.
  simpl_state.
  rewrite Hn, Hh, Hp, Hw, Hs, Hd, Hsc.
  split_and!; try done. by destruct Hwf.
Qed.

Lemma win_new_game_witness :
  wf won ∧ piles won = layout ∧ moves won = [] ∧ playing won = false
  ∧ score won = 500
  ∧ statPlayed won = S (statPlayed last_suit)
  ∧ statWon won = S (statWon last_suit)
  ∧ highScores won
    = fixLevel <$> insertScore (wonEntry last_suit) (highScores last_suit).
Proof. exact (win_new_game last_suit won won_check). Defined.

(** ** What a full suit is *)

Section FullSuit.
Implicit Types (st : State) (stack : nat) (run pile : list nat).

(** The reference definition: thirteen cards, the last an ace, all
    facing up and of the suit of the ace, each one higher than the card
    after it. *)
Definition full_suit (deck : list Card) (run : list nat) : Prop :=
  length run = 13%nat
  ∧ ∃ top, list.last run = Some top
      ∧ value (card_at deck top) = "A"%string
      ∧ Forall (λ ref, facingUp (card_at deck ref) = true
                       ∧ suit (card_at deck ref) = suit (card_at deck top)) run
      ∧ ∀ i a b, run !! i = Some a → run !! S i = Some b →
          hierarchy (card_at deck a) = S (hierarchy (card_at deck b)).

(** The test of the inner loop, on the run. *)
Lemma continuesSuit_spec st pile top (card : nat) :
  (13 ≤ length pile)%nat → (1 ≤ card ≤ 12)%nat →
  let run := drop (length pile - 13) pile in
  continuesSuit st pile (card_at (deck st) top) card = true
  ↔ ∃ a b, run !! (12 - card)%nat = Some a ∧ run !! (13 - card)%nat = Some b
      ∧ facingUp (card_at (deck st) a) = true
      ∧ suit (card_at (deck st) a) = suit (card_at (deck st) top)
      ∧ hierarchy (card_at (deck st) a) = S (hierarchy (card_at (deck st) b)).
Proof.
  intros Hn Hc run. unfold continuesSuit.
  assert (∀ j, (j ≤ 12)%nat →
            run !! j = Some (pile !!! (length pile - 13 + j)%nat)) as Hrun.
  { intros j Hj. unfold run. rewrite lookup_drop.
    apply list_lookup_lookup_total_lt. lia. }
  replace (length pile - 1 - card)%nat with (length pile - 13 + (12 - card))%nat
    by lia.
  replace (length pile - card)%nat with (length pile - 13 + (13 - card))%nat
    by lia.
  rewrite !andb_true_iff, !bool_decide_eq_true.
  rewrite (Hrun (12 - card)%nat), (Hrun (13 - card)%nat) by lia.
  split; [intros [[? ?] ?]; eexists _, _; split_and!; try done; lia|].
  intros (a & b & ? & ? & ? & ? & ?). simplify_eq. split_and!; try done. lia.
Qed.

(** The top card of the pile is the last of the run. *)
Lemma run_last pile :
  (13 ≤ length pile)%nat →
  let run := drop (length pile - 13) pile in
  length run = 13%nat ∧ list.last run = list.last pile
  ∧ list.last run = run !! 12%nat.
Proof.
  intros Hn run.
  assert (length run = 13%nat) as Hl by (unfold run; rewrite length_drop; lia).
  split; [done|]. rewrite !last_lookup, Hl. split; [|done].
  unfold run. rewrite lookup_drop. f_equal. simpl. lia.
Qed.

Lemma fullSuitOnTop_run stack st top :
  let pile := piles st !!! stack in
  let run := drop (length pile - 13) pile in
  (13 ≤ length pile)%nat → list.last pile = Some top →
  fullSuitOnTop stack st = true
  ↔ value (card st top) = "A"%string ∧ facingUp (card st top) = true
    ∧ ∀ k, (1 ≤ k ≤ 12)%nat →
        continuesSuit st pile (card st top) k = true.
Proof.
  intros pile run Hn Htop. unfold fullSuitOnTop. fold pile. rewrite Htop.
  rewrite !andb_true_iff, !bool_decide_eq_true, forallb_forall.
  setoid_rewrite in_seq. split.
  - intros [[[_ ?] ?] Hall]. split_and!; [done..|]. intros. apply Hall. lia.
  - intros (? & ? & Hall). split_and!; [done..|]. intros. apply Hall. lia.
Qed.

(** The test for a full suit against the reference definition. *)
Lemma fullSuitOnTop_full_suit stack st :
  let pile := piles st !!! stack in
  fullSuitOnTop stack st = true
  ↔ (13 ≤ length pile)%nat
    ∧ full_suit (deck st) (drop (length pile - 13) pile).
Proof.
  intros pile. set (run := drop _ _).
  destruct (decide (13 ≤ length pile)%nat) as [Hn|Hn]; last first.
  { split; [intros ?%fullSuitOnTop_length|intros [? _]]; unfold pile in *; lia. }
  destruct (run_last pile Hn) as (Hl & Hlast & H12). fold run in Hl, Hlast, H12.
  destruct (list.last pile) as [top|] eqn:Htop; last first.
  { apply last_None in Htop. rewrite Htop in Hn. simpl in Hn. lia. }
  rewrite (fullSuitOnTop_run stack st top Hn Htop). fold pile.
  unfold full_suit, card. split.
  - intros (HA & Hup & Hall'). split_and!; [done..|].
    assert (∀ k, (1 ≤ k ≤ 12)%nat → ∃ a b,
      run !! (12 - k)%nat = Some a ∧ run !! (13 - k)%nat = Some b
      ∧ facingUp (card_at (deck st) a) = true
      ∧ suit (card_at (deck st) a) = suit (card_at (deck st) top)
      ∧ hierarchy (card_at (deck st) a) = S (hierarchy (card_at (deck st) b)))
      as Hall by (intros k Hk; by apply (continuesSuit_spec st pile top k), Hall').
    exists top. split_and!; [done..| |].
    + apply Forall_lookup. intros i r Hr.
      pose proof (lookup_lt_Some _ _ _ Hr) as Hi. rewrite Hl in Hi.
      destruct (decide (i = 12%nat)) as [->|];
        [by assert (r = top) as -> by congruence|].
      destruct (Hall (12 - i)%nat) as (a & b & Ha & _ & ? & ? & _); [lia|].
      replace (12 - (12 - i))%nat with i in Ha by lia. by simplify_eq.
    + intros i a b Ha Hb.
      pose proof (lookup_lt_Some _ _ _ Hb) as Hi. rewrite Hl in Hi.
      destruct (Hall (12 - i)%nat) as (a' & b' & Ha' & Hb' & _ & _ & ?); [lia|].
      replace (12 - (12 - i))%nat with i in Ha' by lia.
      replace (13 - (12 - i))%nat with (S i) in Hb' by lia. by simplify_eq.
  - intros (_ & _ & top' & ? & HA & Hall & Hdesc). simplify_eq.
    rewrite Forall_lookup in Hall. destruct (Hall 12%nat top) as [? _]; [congruence|].
    split_and!; [done..|]. intros c Hc.
    apply (continuesSuit_spec st pile top c); [done..|]. fold run.
    destruct (lookup_lt_is_Some_2 run (12 - c)%nat) as [a Ha]; [lia|].
    destruct (lookup_lt_is_Some_2 run (13 - c)%nat) as [b Hb]; [lia|].
    exists a, b. destruct (Hall _ _ Ha). split_and!; [done..|].
    apply (Hdesc (12 - c)%nat); [done|].
    by replace (S (12 - c)) with (13 - c)%nat by lia.
Qed.

End FullSuit.

(** C9. The test of [checkAndDoRemove] for a full suit, with its
    index arithmetic on the pile, is the reference definition: a column
    is cleared exactly when it holds at least thirteen cards of which
    the last thirteen are a full suit, that is, end with an ace, all
    face up and are of the suit of the ace, each card one higher than
    the card on it. *)
Theorem fullSuitOnTop_spec (stack : nat) (st : State) :
  let pile := piles st !!! stack in
  fullSuitOnTop stack st = true
  ↔ (13 ≤ length pile)%nat
    ∧ full_suit (deck st) (drop (length pile - 13) pile).
Proof. apply fullSuitOnTop_full_suit. Qed.

(** C10. What the clearance of a suit does: for a column that ends in
    a full suit and a home that exists, [removeSuit] returns; the last
    thirteen cards of the column are appended to the home and leave the
    column, in their order, every other pile is as before, the score
    is 100 higher, the game is playing, the record of the clearance,
    with the column, the home and whether a card was turned up, is the
    last of the log, and the next home is the spare one. *)
Theorem removeSuit_effect (stack home : nat) (st : State) :
  let pile := piles st !!! stack in
  (13 ≤ length pile)%nat → full_suit (deck st) (drop (length pile - 13) pile) →
  (stack < length (piles st))%nat → (home < length (piles st))%nat →
  stack ≠ home →
  ∃ turned st',
    removeSuit stack (Z.of_nat home) st = Some (Z.of_nat home + 1, st')
    ∧ piles st' = <[home := piles st !!! home ++ drop (length pile - 13) pile]>
                    (<[stack := take (length pile - 13) pile]> (piles st))
    ∧ score st' = score st + 100 ∧ playing st' = true
    ∧ moves st' = moves st ++ [mkMove (-2) (Z.of_nat stack) (Z.of_nat home)
                                 (FBool turned)].
Proof.
  intros pile Hlen Hsuit Hstack Hhome Hne.
  assert (fullSuitOnTop stack st = true) as Hfull
    by by apply fullSuitOnTop_full_suit.
  destruct (removeSuit_safe stack (Z.of_nat home) st) as [[sh st'] Hr]; [lia|].
  pose proof (removeSuit_next _ _ _ _ _ Hr). subst sh.
  destruct (removeSuit_transfer _ _ _ _ _ Hfull Hr)
    as (_ & turned & sT & Ht & ->).
  eexists turned, _. split; [done|].
  rewrite recordMove_piles, recordMove_score, recordMove_moves, decide_False
    by lia.
  rewrite (turnTopCard_piles _ _ _ _ Ht), (turnTopCard_score _ _ _ _ Ht),
    (turnTopCard_moves _ _ _ _ Ht). simpl_state.
  rewrite transfer_explicit by (done || lia).
  split_and!; try done. unfold recordMove. by rewrite saveGame_playing.
Qed.

Lemma removeSuit_effect_witness :
  ∃ turned st',
    removeSuit 13 12 last_suit = Some (13, st')
    ∧ piles st' = <[12%nat := reverse (seq 91 13)]>
                    (<[13%nat := []]> (piles last_suit))
    ∧ score st' = 1293 ∧ playing st' = true
    ∧ moves st' = [mkMove (-2) 13 12 (FBool turned)].
Proof.
  exact (removeSuit_effect 13 12 last_suit ltac:(vm_compute; lia)
           ltac:(by apply (fullSuitOnTop_full_suit 13 last_suit))
           ltac:(vm_compute; lia) ltac:(vm_compute; lia) ltac:(done)).
Defined.
