(* ===== verification/Table.v ===== *)
(** * Table: what every table of a game satisfies

    [table_ok] joins the conservation of the cards ([Tableau.wf]), the
    homes ([Safety.homes_ok]) and a condition on the stock
    ([stock_ok]): the three facts about the piles that [deal],
    [moveCard] and [undo] rely on when they index a pile or pop a card.
    The handlers write the draggable marks of the cards and fields of
    the page at many places; [same_table] is the equivalence of states
    that forgets them, and [table_ok] is [Proper] for it.  The file
    shows that each of the changes the handlers make to the piles (a
    move, the removal of a suit, a new game, a deal) keeps [table_ok].
    [grows] is what a move and a removal have in common: every pile but
    the source keeps its cards and may get more. *)

From stdpp Require Import base list strings numbers option.
From S2P Require Import Prelude Cards State Storage Tableau Dealing Scores.
From S2P Require Import Marks Moves Safety UndoLog Clearance.

#[local] Open Scope Z_scope.

(** ** The table *)

(** ** The table *)

(** What two states have in common when they show the same table: the
    piles, the log, and every card up to its draggable mark. *)
Definition same_table (st s : State) : Prop :=
  piles s = piles st ∧ moves s = moves st
  ∧ unmarked (deck s) = unmarked (deck st).

#[export] Instance same_table_equiv : Equivalence same_table.
Proof.
  split.
  - by intros st.
  - intros st s (? & ? & ?). by split_and!.
  - intros a b c (? & ? & ?) (? & ? & ?). split_and!; by etrans.
Qed.

(** The stock: a deal stack is empty or holds its ten cards (and what
    was dropped on them), a stack still to deal lies face down, and no
    stack below one still to deal is empty: [deal] takes the stacks
    from the highest down, [undo] gives the cards back to the lowest
    that is empty. *)
Record stock_ok (st : State) : Prop := mk_stock_ok {
  stock_size : ∀ k, (k < 5)%nat →
    length (piles st !!! k) = 0%nat ∨ (10 ≤ length (piles st !!! k))%nat;
  stock_order : ∀ j k, (j < k < 5)%nat →
    length (piles st !!! j) = 0%nat → length (piles st !!! k) ≠ 10%nat;
  stock_down : ∀ k, (k < 5)%nat → length (piles st !!! k) = 10%nat →
    Forall (λ ref, facingUp (card st ref) = false) (piles st !!! k)
}.

(** What every table of a game satisfies. *)
Record table_ok (st : State) : Prop := mk_table_ok {
  table_wf : wf st;
  table_homes : homes_ok st;
  table_stock : stock_ok st
}.

(** ** States that show the same table *)

Section SameTable.
Implicit Types (st s : State).

Lemma same_table_keeps st s : same_table st s → keeps st s.
Proof.
  intros (Hp & _ & Hd). unfold keeps. rewrite Hp. split_and!; [done..|].
  by apply unmarked_view.
Qed.

Lemma same_table_facingUp st s ref :
  same_table st s → facingUp (card s ref) = facingUp (card st ref).
Proof.
  intros (_ & _ & Hd). apply (f_equal (λ d, facingUp (card_at d ref))) in Hd.
  by rewrite !card_at_unmarked in Hd.
Qed.

Lemma stock_ok_same_table st s : same_table st s → stock_ok st → stock_ok s.
Proof.
  intros Hs [H1 H2 H3]. pose proof Hs as (Hp & _ & _).
  split; rewrite Hp; [done..|].
  intros k Hk Hl. eapply list.Forall_impl; [by apply H3|].
  intros ref Hr. simpl in *. by rewrite (same_table_facingUp st s).
Qed.

Lemma homes_ok_same_table st s : same_table st s → homes_ok st → homes_ok s.
Proof. intros (Hp & _ & _). unfold homes_ok. by rewrite Hp. Qed.

#[export] Instance table_ok_proper : Proper (same_table ==> iff) table_ok.
Proof.
  assert (∀ st s, same_table st s → table_ok st → table_ok s) as H.
  { intros st s Hs [? ? ?]. split.
    - by rewrite <- (same_table_keeps st s Hs).
    - by eapply homes_ok_same_table.
    - by eapply stock_ok_same_table. }
  intros st s Hs. split; apply H; [done|by symmetry].
Qed.

Lemma same_table_refreshTable st : same_table st (refreshTable st).
Proof. split_and!; [done..|apply refreshTable_unmarked]. Qed.

Lemma same_table_saveGame st : same_table st (saveGame st).
Proof. split_and!; by autorewrite with spider. Qed.

Lemma same_table_undoFinish st : same_table st (undoFinish st).
Proof.
  split_and!; [apply undoFinish_piles|apply undoFinish_moves|
               apply undoFinish_unmarked].
Qed.

Lemma same_table_alert msg st : same_table st (alert msg st).
Proof. done. Qed.

End SameTable.

(** ** Piles that only grow *)

(** ** Steps that take cards from a column *)

(** Every pile but the column [src] keeps its cards and may get more
    on top; a pile of the stock or a home that gets cards was not
    empty, or is a home that gets a suit. *)
Definition grows (src : nat) (ps ps' : list (list nat)) : Prop :=
  ∀ i, i ≠ src →
    ∃ more, ps' !!! i = ps !!! i ++ more
      ∧ (more = [] ∨ (13 ≤ i)%nat ∨ ps !!! i ≠ []
         ∨ ((5 ≤ i)%nat ∧ (13 ≤ length more)%nat)).

Section Grows.
Implicit Types (st X : State) (src : nat).

Lemma homes_ok_grows st X src :
  homes_ok st → (13 ≤ src)%nat → grows src (piles st) (piles X) → homes_ok X.
Proof.
  unfold homes_ok. rewrite !Forall_seq. intros Hh Hsrc Hg i Hi.
  destruct (Hg i) as (more & -> & Hmore); [lia|]. specialize (Hh i Hi).
  rewrite length_app.
  destruct Hmore as [->|[?|[Hne|[_ ?]]]]; simpl; [lia..| |lia].
  destruct (piles st !!! i); [done|]. simpl in *. lia.
Qed.

(** A pile of the stock that grew has more than ten cards. *)
Lemma stock_pile_grows st X src k :
  stock_ok st → (13 ≤ src)%nat → grows src (piles st) (piles X) → (k < 5)%nat →
  piles X !!! k = piles st !!! k
  ∨ ((11 ≤ length (piles X !!! k))%nat ∧ (10 ≤ length (piles st !!! k))%nat).
Proof.
  intros [Hs _ _] Hsrc Hg Hk. destruct (Hg k) as (more & -> & Hmore); [lia|].
  destruct Hmore as [->|[?|[Hne|[? _]]]]; [left; apply app_nil_r|lia| |lia].
  destruct more as [|x more]; [left; apply app_nil_r|right].
  rewrite length_app. destruct (Hs k Hk) as [Hz|?]; [|simpl; lia].
  by destruct (piles st !!! k).
Qed.

Lemma stock_ok_grows st X src :
  stock_ok st → wf X → (13 ≤ src)%nat → grows src (piles st) (piles X) →
  (∀ ref, ref ∉ piles X !!! src → facingUp (card X ref) = facingUp (card st ref)) →
  stock_ok X.
Proof.
  intros Hst Hwf Hsrc Hg Hface.
  pose proof (λ k, stock_pile_grows st X src k Hst Hsrc Hg) as Hk.
  destruct Hst as [Hs Ho Hd]. split.
  - intros k Hlt. destruct (Hk k Hlt) as [->|[? _]]; [by apply Hs|lia].
  - intros j k Hjk Hj. destruct (Hk j) as [Hj'|[? _]]; [lia| |lia].
    rewrite Hj' in Hj. destruct (Hk k) as [->|[? _]]; [lia| |lia].
    by apply (Ho j k).
  - intros k Hlt Hl. destruct (Hk k Hlt) as [Hk'|[? _]]; [|lia].
    rewrite Hk' in Hl. specialize (Hd k Hlt Hl).
    rewrite Forall_lookup in Hd |- *. intros i ref Hi.
    rewrite Hface; [apply (Hd i); by rewrite <- Hk'|].
    intros Hin. pose proof (wf_piles _ Hwf) as Hlen.
    destruct (decide (src < length (piles X))%nat) as [Hlt'|Hge];
      [|rewrite pile_lookup_ge in Hin by lia; by apply elem_of_nil in Hin].
    assert (k = src); [|lia].
    eapply (concat_NoDup_lookup (piles X)); [by apply wf_NoDup|..|done].
    + apply list_lookup_lookup_total_lt. lia.
    + by apply list_lookup_lookup_total_lt.
    + by eapply list_elem_of_lookup_2.
Qed.

(** The table stays in order when cards leave a column and no card of
    another pile is turned. *)
Lemma table_ok_grows st X src :
  table_ok st → wf X → (13 ≤ src)%nat → grows src (piles st) (piles X) →
  (∀ ref, ref ∉ piles X !!! src → facingUp (card X ref) = facingUp (card st ref)) →
  table_ok X.
Proof.
  intros [? ? ?] **. split; [done|by eapply homes_ok_grows|by eapply stock_ok_grows].
Qed.

End Grows.

(** ** A move and a clearance *)

Section MoveTable.
Implicit Types (st X Y sT : State) (src tgt p stack home : nat).

Lemma keeps_unmarked st s :
  piles s = piles st → unmarked (deck s) = unmarked (deck st) → keeps st s.
Proof.
  intros Hp Hd. unfold keeps. rewrite Hp. split_and!; [done..|].
  by apply unmarked_view.
Qed.

Lemma unmarked_facingUp d d' ref :
  unmarked d = unmarked d' → facingUp (card_at d ref) = facingUp (card_at d' ref).
Proof.
  intros Hd. apply (f_equal (λ d, facingUp (card_at d ref))) in Hd.
  by rewrite !card_at_unmarked in Hd.
Qed.

Lemma transfer_grows src p tgt ps :
  (13 ≤ tgt)%nat ∨ ps !!! tgt ≠ [] → grows src ps (transfer src p tgt ps).
Proof.
  intros Htg i Hi. destruct (transfer_other src p tgt ps i Hi) as (more & -> & Hm).
  exists more. split; [done|].
  destruct (decide (i = tgt)) as [->|]; [destruct Htg; auto|left; auto].
Qed.

(** The table after the cards of a move were put down and the card
    under them turned. *)
Lemma move_table_ok src p tgt turned t sT st X :
  table_ok st → (13 ≤ src)%nat → (tgt < length (piles st))%nat →
  (13 ≤ tgt)%nat ∨ piles st !!! tgt ≠ [] →
  turnTopCard src (set_piles (transfer src p tgt (piles st))
                     (set_topCard t st)) = (turned, sT) →
  piles X = piles sT → unmarked (deck X) = unmarked (deck sT) →
  table_ok X.
Proof.
  intros Hok Hsrc Htgt Htg Ht Hp Hd. set (S0 := set_piles _ _) in Ht.
  pose proof (turnTopCard_piles _ _ _ _ Ht) as HpT.
  assert (wf S0) as Hwf0 by (by eapply (transfer_wf src p tgt st); [apply Hok|..]).
  assert (wf X) as HwfX.
  { rewrite <- (keeps_unmarked sT X Hp Hd).
    pose proof (turnTopCard_keeps src S0) as Hk. rewrite Ht in Hk.
    by rewrite <- Hk. }
  apply (table_ok_grows st X src); [done..| |].
  - rewrite Hp, HpT. by apply transfer_grows.
  - intros ref Hin. unfold card. rewrite (unmarked_facingUp _ _ _ Hd).
    apply (turnTopCard_facingUp _ _ _ _ _ Ht). by rewrite <- HpT, <- Hp.
Qed.

Lemma transfer_grows_suit src tgt (ps : list (list nat)) :
  (5 ≤ tgt)%nat → (13 ≤ length (ps !!! src))%nat → (src < length ps)%nat →
  grows src ps (transfer src (length (ps !!! src) - 13) tgt ps).
Proof.
  intros Htgt Hlen Hsrc. destruct (decide (13 ≤ tgt)%nat); [apply transfer_grows; auto|].
  intros i Hi. destruct (decide (i = tgt)) as [->|Hne]; last first.
  { destruct (transfer_other src (length (ps !!! src) - 13) tgt ps i Hi)
      as (more & -> & Hm). exists more. auto. }
  rewrite transfer_explicit by (done || lia).
  destruct (decide (tgt < length ps)%nat).
  - rewrite list_lookup_total_insert_eq by by rewrite length_insert.
    eexists. split; [done|]. do 3 right. rewrite length_drop. lia.
  - rewrite list_insert_ge by (rewrite length_insert; lia).
    rewrite list_lookup_total_insert_ne by done.
    exists []. by rewrite app_nil_r; auto.
Qed.

Lemma clearance_table_ok stack home turned sT X Y :
  table_ok X → (13 ≤ stack)%nat → (5 ≤ home)%nat →
  (13 ≤ length (piles X !!! stack))%nat →
  (stack < length (piles X))%nat → (home < length (piles X))%nat →
  turnTopCard stack
    (set_score (score X + 100)
       (set_piles (transfer stack (length (piles X !!! stack) - 13) home
                     (piles X)) X)) = (turned, sT) →
  piles Y = piles sT → unmarked (deck Y) = unmarked (deck sT) →
  table_ok Y.
Proof.
  intros Hok Hstack Hhome Hlen Hlt Hhlt Ht Hp Hd. set (S0 := set_score _ _) in Ht.
  pose proof (turnTopCard_piles _ _ _ _ Ht) as HpT.
  assert (wf S0) as Hwf0
    by (by eapply (transfer_wf stack _ home X); [apply Hok|..]).
  assert (wf Y) as HwfY.
  { rewrite <- (keeps_unmarked sT Y Hp Hd).
    pose proof (turnTopCard_keeps stack S0) as Hk. rewrite Ht in Hk.
    by rewrite <- Hk. }
  apply (table_ok_grows X Y stack); [done..| |].
  - rewrite Hp, HpT. by apply transfer_grows_suit.
  - intros ref Hin. unfold card. rewrite (unmarked_facingUp _ _ _ Hd).
    apply (turnTopCard_facingUp _ _ _ _ _ Ht). by rewrite <- HpT, <- Hp.
Qed.

End MoveTable.

(** ** A new game *)

Section NewTable.
Implicit Types (st : State).

(** A table with the piles of a new game on which the cards below 94
    lie face down. *)
Lemma layout_table_ok st :
  wf st → piles st = layout →
  (∀ ref, (ref < 94)%nat → facingUp (card st ref) = false) →
  table_ok st.
Proof.
  intros Hwf Hp Hdown. split; [done|..].
  - unfold homes_ok. rewrite Hp. by repeat constructor; left.
  - split; rewrite Hp.
    + intros k Hk. do 5 (destruct k as [|k]; [vm_compute; lia|]). lia.
    + intros j k Hjk. do 5 (destruct j as [|j]; [by vm_compute|]). lia.
    + intros k Hk _. apply Forall_lookup. intros i ref Hi. apply Hdown.
      do 5 (destruct k as [|k];
        [do 10 (destruct i as [|i]; [simplify_eq/=; lia|]); done|]). lia.
Qed.

Lemma newGame_table_ok st st' :
  newGame true st = Some st' → table_ok st' ∧ moves st' = [].
Proof.
  intros Hnew. pose proof (newGame_facingUp _ _ Hnew) as Hf.
  destruct (newGame_spec st) as (st2 & Hnew' & Hwf & Hp & _ & Hm & _).
  rewrite Hnew in Hnew'. injection Hnew' as <-. split; [|exact Hm].
  apply layout_table_ok; [done..|]. intros ref Href.
  apply (f_equal (.!! ref)) in Hf. rewrite !list_lookup_fmap in Hf.
  rewrite lookup_seq_lt in Hf by lia. unfold card, card_at.
  rewrite list_lookup_total_alt.
  destruct (deck st' !! ref) as [c|]; simpl in Hf |- *; [|done].
  injection Hf as ->. by rewrite bool_decide_eq_false_2 by lia.
Qed.

End NewTable.

(** ** A deal *)

Section DealTable.
Implicit Types (st s X : State) (k : nat).

(** [nextDealStack] finds the highest of the piles 0 to 5 that holds
    ten cards. *)
Lemma nextDealStack_max st k k' :
  nextDealStack st = Z.of_nat k → (k < k' ≤ 5)%nat →
  length (piles st !!! k') ≠ 10%nat.
Proof.
  unfold nextDealStack.
  destruct (list_find _ _) as [[i s]|] eqn:Hf; [|lia].
  apply list_find_Some in Hf as (Hi & _ & Hmax).
  intros ?%(inj Z.of_nat) Hk. subst s.
  assert ([5; 4; 3; 2; 1; 0]%nat !! (5 - k')%nat = Some k') as Hk'.
  { do 6 (destruct k' as [|k']; [done|]). lia. }
  apply (Hmax _ _ Hk').
  assert (i = 5 - k)%nat; [|lia].
  do 6 (destruct i as [|i]; [simplify_eq/=; lia|]). done.
Qed.

(** The stack to deal is one of the stock, while the homes are in
    order. *)
Lemma nextDealStack_stock st k :
  homes_ok st → nextDealStack st = Z.of_nat k →
  (k < 5)%nat ∧ length (piles st !!! k) = 10%nat.
Proof.
  intros Hh Hk. destruct (nextDealStack_spec _ _ Hk) as [Hle Hlen].
  split; [|done]. destruct (decide (k = 5%nat)) as [->|]; [|lia].
  unfold homes_ok in Hh. rewrite Forall_seq in Hh.
  destruct (Hh 5%nat); lia.
Qed.

(** The cards dealt leave the stack, and no other card is turned. *)
Lemma dealCards_stack k counts st st1 :
  (k < 13)%nat → dealCards k counts st = Some st1 →
  length (piles st1 !!! k) = (length (piles st !!! k) - length counts)%nat
  ∧ ∀ ref, ref ∉ piles st !!! k →
      facingUp (card st1 ref) = facingUp (card st ref).
Proof.
  intros Hk. revert st. induction counts as [|c rest IH]; intros st H;
    cbn [dealCards] in H.
  { injection H as <-. split; [simpl; lia|done]. }
  apply bind_Some in H as ([ref ps] & Hpop & H).
  pose proof (pile_pop_lt _ _ _ _ Hpop) as Hlt.
  destruct (pile_pop_Some _ _ _ _ Hpop) as [Hpile|?]; [|lia].
  apply IH in H as [Hlen Hface]. simpl_state. unfold pile_push in Hlen, Hface.
  rewrite list_lookup_total_insert_ne in Hlen, Hface by lia.
  split.
  - rewrite Hlen, Hpile, length_app. simpl. lia.
  - intros r Hr. rewrite Hpile in Hr.
    apply not_elem_of_app in Hr as [Hr1 [Hne _]%not_elem_of_cons].
    rewrite Hface by done. unfold card. simpl_state. apply (f_equal facingUp).
    by apply card_at_write_facingUp_ne.
Qed.

Lemma dealCards_moves k counts st st1 :
  dealCards k counts st = Some st1 → moves st1 = moves st.
Proof.
  revert st. induction counts as [|c rest IH]; intros st H;
    cbn [dealCards] in H; [by injection H as <-|].
  apply bind_Some in H as ([ref ps] & _ & H). by apply IH in H.
Qed.

(** What a deal does to the stock and the homes. *)
Lemma dealCards_stock k st st1 :
  table_ok st → nextDealStack st = Z.of_nat k →
  dealCards k (seq 0 10) st = Some st1 →
  (k < 5)%nat ∧ length (piles st !!! k) = 10%nat ∧ piles st1 !!! k = []
  ∧ (∀ i, (i < 13)%nat → i ≠ k → piles st1 !!! i = piles st !!! i)
  ∧ (∀ ref, ref ∉ piles st !!! k →
       facingUp (card st1 ref) = facingUp (card st ref)).
Proof.
  intros Hok Hk H.
  destruct (nextDealStack_stock st k) as [Hlt Hlen]; [apply Hok|done|].
  destruct (dealCards_stack k (seq 0 10) st st1) as [Hl Hface]; [lia|done|].
  destruct (dealCards_safe k (seq 0 10) st) as (st2 & H2 & Hsame);
    [lia|rewrite length_seq; lia|].
  rewrite H in H2. injection H2 as <-. split_and!; [done..| |done|done].
  apply length_zero_iff_nil. rewrite Hl, Hlen, length_seq. done.
Qed.

Lemma dealCards_table_ok k st st1 X :
  table_ok st → nextDealStack st = Z.of_nat k →
  dealCards k (seq 0 10) st = Some st1 →
  piles X = piles st1 → unmarked (deck X) = unmarked (deck st1) →
  table_ok X.
Proof.
  intros Hok Hk H Hp Hd.
  destruct (dealCards_stock k st st1 Hok Hk H) as (Hlt & Hlen & Hnil & Hsame & Hface).
  pose proof (table_wf _ Hok) as Hwf. destruct (table_stock _ Hok) as [Hs Ho Hdn].
  assert (wf X) as HwfX.
  { rewrite <- (keeps_unmarked st1 X Hp Hd).
    rewrite <- (dealCards_keeps k (seq 0 10) st st1); [done| |done].
    apply Forall_seq. intros. rewrite (wf_piles _ Hwf). lia. }
  split; [done| |split]; rewrite ?Hp.
  - eapply homes_ok_same; [|apply Hok]. intros i Hi. rewrite Hp. apply Hsame; lia.
  - intros i Hi. destruct (decide (i = k)) as [->|]; [rewrite Hnil; by left|].
    rewrite Hsame by lia. by apply Hs.
  - intros j i Hji Hj. destruct (decide (i = k)) as [->|]; [by rewrite Hnil|].
    rewrite Hsame by lia. destruct (decide (j = k)) as [->|].
    + apply (nextDealStack_max st k i Hk). lia.
    + rewrite Hsame in Hj by lia. by apply (Ho j i).
  - intros i Hi Hl. destruct (decide (i = k)) as [->|]; [by rewrite Hnil in Hl|].
    rewrite Hsame in Hl |- * by lia. specialize (Hdn i Hi Hl).
    rewrite Forall_lookup in Hdn |- *. intros pos ref Hpos.
    unfold card. rewrite (unmarked_facingUp _ _ _ Hd).
    fold (card st1 ref). rewrite Hface; [by eapply Hdn|].
    intros Hin. assert (i = k); [|done].
    eapply (concat_NoDup_lookup (piles st)); [exact (wf_NoDup _ Hwf)|..|done];
      [apply list_lookup_lookup_total_lt; rewrite (wf_piles _ Hwf); lia..|].
    by eapply list_elem_of_lookup_2.
Qed.

End DealTable.
