(* ===== verification/History.v ===== *)
(** * History: the undo log can always be unwound

    [unwinds st] says that [undo] succeeds on [st], on the state it
    returns, and so on until the log is empty, whatever the draggable
    marks and the fields of the page are.  It is an inductive predicate
    with the state before the last record as a ghost: [undo] has to
    bring the table back to it.  A move ([unwinds_move]), the removal
    of a suit ([unwinds_clearance]) and a deal ([unwinds_deal]) add a
    record that [undo] takes back, so [deal], [moveCard] and [undo]
    keep the table in order together with the log ([deal_history],
    [moveCard_history], [undo_history]), and [undo] never meets a
    record it cannot undo ([undo_total]). *)

From stdpp Require Import base list strings numbers option.
From S2P Require Import Prelude Cards State Storage Tableau Dealing Scores.
From S2P Require Import Marks Moves Safety UndoLog Clearance.
From S2P Require Import Table.

#[local] Open Scope Z_scope.

(** ** Logs that can be unwound *)

(** [undoes_to st prev]: on the table of [st], whatever the rest of
    the state is, [undo] returns and leaves the table of [prev]. *)
Definition undoes_to (st prev : State) : Prop :=
  ∀ s, same_table st s → ∃ s', undo s = Some s' ∧ same_table prev s'.

(** [unwinds st]: [undo] takes back the last action of the log and
    leaves the table of a state [prev] that was in order and whose log
    can be unwound in turn. *)
Inductive unwinds : State → Prop :=
| unwinds_nil st : moves st = [] → unwinds st
| unwinds_step st prev :
    table_ok prev → unwinds prev →
    (length (moves prev) < length (moves st))%nat →
    undoes_to st prev →
    unwinds st.

(** [undo], [n] times. *)
Fixpoint undo_times (n : nat) (st : State) : option State :=
  match n with
  | O => Some st
  | S n => undo st ≫= undo_times n
  end.

Section Unwinds.
Implicit Types (st s X Y prev : State).

Lemma undo_empty st :
  moves st = [] → undo st = Some (alert "No more moves to undo" st).
Proof. intros H. unfold undo. rewrite H. simpl. by rewrite H. Qed.

#[export] Instance undoes_to_proper :
  Proper (same_table ==> same_table ==> iff) undoes_to.
Proof.
  assert (∀ st s prev p, same_table st s → same_table prev p →
            undoes_to st prev → undoes_to s p) as Himp.
  { intros st s prev p Hs Hp Hun s2 Hs2.
    destruct (Hun s2) as (s' & ? & ?); [by etrans|].
    exists s'. split; [done|]. etrans; [symmetry|]; done. }
  intros st s Hs prev p Hp. split; apply Himp; done.
Qed.

(** On an empty log [undo] raises its dialog and leaves the table. *)
Lemma undoes_to_nil st : moves st = [] → undoes_to st st.
Proof.
  intros Hm s Hs. pose proof Hs as (_ & Hms & _).
  rewrite undo_empty by congruence. eexists. split; [done|].
  etrans; [exact Hs|]. apply same_table_alert.
Qed.

Lemma unwinds_same_table st s : same_table st s → unwinds st → unwinds s.
Proof.
  intros Hs Hu. pose proof Hs as (_ & Hm & _). destruct Hu as [st H|st prev ? ? ? Hun].
  - apply unwinds_nil. by rewrite Hm.
  - apply (unwinds_step s prev); [done..|by rewrite Hm|]. by rewrite <- Hs.
Qed.

#[export] Instance unwinds_proper : Proper (same_table ==> iff) unwinds.
Proof.
  intros st s Hs. split; apply unwinds_same_table; [done|by symmetry].
Qed.

(** What [undo] leaves after the last record is what it left before
    it, when the record is taken back first. *)
Lemma unwinds_back X Y :
  table_ok X → unwinds X → (length (moves X) ≤ length (moves Y))%nat →
  (∀ prev, undoes_to X prev → undoes_to Y prev) → unwinds Y.
Proof.
  intros Hok Hu Hle Hb.
  destruct (Nat.eq_dec (length (moves Y)) 0%nat) as [Hz|Hnz];
    [by apply unwinds_nil, nil_length_inv|].
  destruct Hu as [X Hnil|X prev Hokp Hup Hlt Hun].
  - apply (unwinds_step Y X); [done|by apply unwinds_nil|rewrite Hnil; simpl; lia|].
    by apply Hb, undoes_to_nil.
  - apply (unwinds_step Y prev); [done..|lia|by apply Hb].
Qed.

End Unwinds.

(** ** The record of a move *)

Section MoveStep.
Implicit Types (st X sT : State) (src tgt p : nat).

(** [undo] takes a move back. *)
Lemma move_undoes_to ref src spile p tgt turned t sT st X :
  table_ok st →
  piles st !! src = Some spile → spile !! p = Some ref →
  (tgt < length (piles st))%nat →
  turnTopCard src (set_piles (transfer src p tgt (piles st))
                     (set_topCard t st)) = (turned, sT) →
  piles X = piles sT → unmarked (deck X) = unmarked (deck sT) →
  moves X = moves st ++ [mkMove (Z.of_nat ref) (Z.of_nat src) (Z.of_nat tgt)
                           (FBool turned)] →
  undoes_to X st.
Proof.
  intros Hok Hsrc Hp Htgt Ht HpX HdX HmX s (Hps & Hms & Hds).
  destruct (undo_transfer ref src spile p tgt turned t sT st s)
    as (s' & ? & ? & ? & ? & _); [by apply Hok|done..|congruence|congruence|
                                  congruence|].
  exists s'. by split_and!.
Qed.

(** The log after a move can be unwound: [undo] takes the move back
    ([undo_transfer]). *)
Lemma unwinds_move ref src spile p tgt turned t sT st X :
  table_ok st → unwinds st →
  piles st !! src = Some spile → spile !! p = Some ref →
  (tgt < length (piles st))%nat →
  turnTopCard src (set_piles (transfer src p tgt (piles st))
                     (set_topCard t st)) = (turned, sT) →
  piles X = piles sT → unmarked (deck X) = unmarked (deck sT) →
  moves X = moves st ++ [mkMove (Z.of_nat ref) (Z.of_nat src) (Z.of_nat tgt)
                           (FBool turned)] →
  unwinds X.
Proof.
  intros Hok Hu Hsrc Hp Htgt Ht HpX HdX HmX.
  apply (unwinds_step X st); [done..|rewrite HmX, length_app; simpl; lia|].
  by eapply move_undoes_to.
Qed.

End MoveStep.

(** ** The record of a clearance *)

Section ClearanceStep.
Implicit Types (st X Y sT prev : State) (stack home : nat).

(** [undo] on a log that ends with a clearance is [undo] on the table
    before the clearance, and one more [undoFinish]. *)
Lemma undo_after_clearance stack home turned sT X s :
  (13 ≤ length (piles X !!! stack))%nat →
  (stack < length (piles X))%nat → (home < length (piles X))%nat →
  turnTopCard stack
    (set_score (score X + 100)
       (set_piles (transfer stack (length (piles X !!! stack) - 13) home
                     (piles X)) X)) = (turned, sT) →
  piles s = piles sT → unmarked (deck s) = unmarked (deck sT) →
  moves s = moves X ++ [mkMove (-2) (Z.of_nat stack) (Z.of_nat home)
                          (FBool turned)] →
  ∃ s2, same_table X s2 ∧ undo s = undoFinish <$> undo s2.
Proof.
  intros Hlen Hstack Hhome Ht Hp Hd Hm.
  destruct (undoClearance_back X stack home turned sT (set_moves (moves X) s))
    as (s2 & Hu & ? & ? & Hm2 & _); [done..|].
  exists s2. split; [by split_and!|].
  by rewrite (undo_clearance s _ _ Hm eq_refl), Hu.
Qed.

(** [undo] takes a clearance back and then undoes what came before
    it. *)
Lemma clearance_undoes_to stack home turned sT X Y prev :
  (13 ≤ length (piles X !!! stack))%nat →
  (stack < length (piles X))%nat → (home < length (piles X))%nat →
  turnTopCard stack
    (set_score (score X + 100)
       (set_piles (transfer stack (length (piles X !!! stack) - 13) home
                     (piles X)) X)) = (turned, sT) →
  piles Y = piles sT → unmarked (deck Y) = unmarked (deck sT) →
  moves Y = moves X ++ [mkMove (-2) (Z.of_nat stack) (Z.of_nat home)
                          (FBool turned)] →
  undoes_to X prev → undoes_to Y prev.
Proof.
  intros Hlen Hstack Hhome Ht Hp Hd Hm Hun s (Hps & Hms & Hds).
  destruct (undo_after_clearance stack home turned sT X s) as (s2 & Hs2 & ->);
    [done..|congruence|congruence|congruence|].
  destruct (Hun s2 Hs2) as (s' & -> & Hs'). eexists. split; [done|].
  etrans; [exact Hs'|apply same_table_undoFinish].
Qed.

(** One clearance keeps the table in order, and [undo] after it leads
    where it led before. *)
Lemma removeSuit_back stack spareHome X spareHome' Y :
  table_ok X → (13 ≤ stack)%nat → spareHome < 0 ∨ 5 ≤ spareHome →
  fullSuitOnTop stack X = true → (stack < length (piles X))%nat →
  removeSuit stack spareHome X = Some (spareHome', Y) →
  5 ≤ spareHome ∧ table_ok Y ∧ (length (moves X) ≤ length (moves Y))%nat
  ∧ ∀ prev, undoes_to X prev → undoes_to Y prev.
Proof.
  intros Hok Hstack Hsh Hfull Hlt Hr.
  destruct (removeSuit_home _ _ _ _ Hr) as [home ->]. split; [lia|].
  destruct (removeSuit_transfer _ _ _ _ _ Hfull Hr) as (Hhome & turned & sT & Ht & ->).
  pose proof (fullSuitOnTop_length _ _ Hfull) as Hlen.
  pose proof (turnTopCard_moves _ _ _ _ Ht) as HmT. simpl in HmT.
  split_and!.
  - eapply (clearance_table_ok stack home); [done|done|lia|done..|
      by rewrite recordMove_piles|by rewrite recordMove_deck].
  - rewrite recordMove_moves, length_app, HmT. lia.
  - intros prev. eapply (clearance_undoes_to stack home);
      [done..|by rewrite recordMove_piles|by rewrite recordMove_deck|].
    by rewrite recordMove_moves, HmT.
Qed.

Lemma removeSuits_back stacks spareHome X spareHome' Y :
  table_ok X → Forall (λ stack, 13 ≤ stack < 23)%nat stacks →
  spareHome < 0 ∨ 5 ≤ spareHome →
  removeSuits stacks spareHome X = Some (spareHome', Y) →
  table_ok Y ∧ (length (moves X) ≤ length (moves Y))%nat
  ∧ ∀ prev, undoes_to X prev → undoes_to Y prev.
Proof.
  revert spareHome X. induction stacks as [|stack rest IH];
    intros spareHome X Hok Hst Hsh H; simpl in H; [by simplify_eq|].
  apply Forall_cons_1 in Hst as [Hstack Hrest].
  destruct (fullSuitOnTop stack X) eqn:Hfull; [|by eapply IH].
  apply bind_Some in H as ([sh1 X1] & Hr & H).
  pose proof (removeSuit_next _ _ _ _ _ Hr) as ->.
  destruct (removeSuit_back stack spareHome X (spareHome + 1) X1 Hok)
    as (? & Hok1 & ? & Hb1); [lia|done|done| |done|].
  - rewrite (wf_piles _ (table_wf _ Hok)). lia.
  - destruct (IH (spareHome + 1) X1) as (? & ? & Hb); [done..|lia|done|].
    split_and!; [done|lia|]. intros prev Hp. by apply Hb, Hb1.
Qed.

(** [checkAndDoRemove]: while the game goes on, [undo] leads where it
    led before the suits were removed; at the end of the game the log
    of the new game is empty. *)
Lemma checkAndDoRemove_back X b Y :
  table_ok X → checkAndDoRemove X = Some (b, Y) →
  table_ok Y
  ∧ if b then (length (moves X) ≤ length (moves Y))%nat
              ∧ ∀ prev, undoes_to X prev → undoes_to Y prev
    else moves Y = [].
Proof.
  intros Hok H.
  apply checkAndDoRemove_inv in H as (sh & X1 & Hr & H).
  apply removeSuits_back in Hr as (Hok1 & Hle & Hb);
    [|done|by apply Forall_seq; intros; lia|
      destruct (firstSpareHome_range X); lia].
  destruct b; [by subst|]. destruct H as (s0 & s1 & Hnew & ->).
  apply newGame_table_ok in Hnew as [Hok3 Hm3]. split; [|done].
  by apply (table_ok_proper s1 (set_highScores (fixLevel <$> highScores s1) s1)).
Qed.

Lemma checkAndDoRemove_history X b Y :
  table_ok X → unwinds X → checkAndDoRemove X = Some (b, Y) →
  table_ok Y ∧ unwinds Y.
Proof.
  intros Hok Hu H. destruct (checkAndDoRemove_back X b Y Hok H) as [HokY HY].
  split; [done|]. destruct b; [|by apply unwinds_nil].
  destruct HY. by apply (unwinds_back X).
Qed.

End ClearanceStep.

(** ** The record of a deal *)

Section DealStep.
Implicit Types (st s X : State) (stack count k : nat).

Lemma undealCards_app stack l1 l2 s :
  undealCards stack (l1 ++ l2) s
  = undealCards stack l1 s ≫= undealCards stack l2.
Proof.
  revert s. induction l1 as [|c l1 IH]; intros s; [done|].
  cbn [app undealCards]. destruct (pile_pop _ _) as [[ref ps]|]; [|done].
  cbn [mbind option_bind]. apply IH.
Qed.

Lemma undealCards_moves stack counts s s' :
  undealCards stack counts s = Some s' → moves s' = moves s.
Proof.
  revert s. induction counts as [|c counts IH]; intros s H;
    cbn [undealCards] in H; [by simplify_eq|].
  apply bind_Some in H as ([ref ps] & _ & H). by apply IH in H.
Qed.

(** One card dealt goes back where it was. *)
Lemma undeal_one stack count st ref ps s :
  pile_pop stack (piles st) = Some (ref, ps) →
  (13 + count < length (piles st))%nat →
  facingUp (card st ref) = false →
  piles s = pile_push (13 + count) ref ps →
  unmarked (deck s) = unmarked (write_facingUp true ref (deck st)) →
  ∃ s', undealCards stack [count] s = Some s'
    ∧ piles s' = piles st ∧ unmarked (deck s') = unmarked (deck st).
Proof.
  intros Hpop Hc Hdown Hp Hd.
  pose proof (pile_pop_lt _ _ _ _ Hpop) as Hlt.
  pose proof (pile_pop_length _ _ _ _ Hpop) as Hlen.
  cbn [undealCards]. rewrite Hp, pile_pop_push by lia.
  cbn [mbind option_bind]. eexists. split; [done|]. simpl_state.
  split; [by apply pile_push_pop|].
  rewrite unmarked_write_facingUp, Hd, unmarked_write_facingUp.
  apply (write_facingUp_undo false). by rewrite card_at_unmarked.
Qed.

(** The cards of a deal go back to the stack they came from, in their
    order and face down as they lay there. *)
Lemma deal_undeal stack counts st st' s :
  wf st → (stack < 13)%nat → Forall (λ c, 13 + c < 23)%nat counts →
  Forall (λ ref, facingUp (card st ref) = false) (piles st !!! stack) →
  dealCards stack counts st = Some st' →
  piles s = piles st' → unmarked (deck s) = unmarked (deck st') →
  ∃ s', undealCards stack (reverse counts) s = Some s'
    ∧ piles s' = piles st ∧ unmarked (deck s') = unmarked (deck st)
    ∧ moves s' = moves s.
Proof.
  revert st. induction counts as [|c rest IH]; intros st Hwf Hstack Hc Hdown H Hp Hd.
  { cbn [dealCards] in H. injection H as <-. by exists s. }
  cbn [dealCards] in H. apply bind_Some in H as ([ref ps] & Hpop & H).
  apply Forall_cons_1 in Hc as [Hc Hrest]. pose proof (wf_piles _ Hwf) as Hlen.
  pose proof (pile_pop_lt _ _ _ _ Hpop) as Hlt.
  destruct (pile_pop_Some _ _ _ _ Hpop) as [Hpile|?]; [|lia].
  set (st1 := set_piles _ _) in H.
  assert (wf st1) as Hwf1.
  { eapply wf_keeps; [|exact Hwf].
    apply (pop_push_keeps stack (13 + c) true st ref ps Hpop). lia. }
  assert (NoDup (piles st !!! stack)) as Hnd.
  { apply (concat_NoDup_pile (piles st) stack); [exact (wf_NoDup _ Hwf)|].
    by apply list_lookup_lookup_total_lt. }
  rewrite Hpile in Hdown, Hnd.
  apply Forall_app in Hdown as [Hdown Href].
  apply Forall_cons_1 in Href as [Href _].
  apply list.NoDup_app in Hnd as (_ & Hne & _).
  destruct (IH st1 Hwf1 Hstack Hrest) as (s1 & Hu1 & Hp1 & Hd1 & Hm1);
    [|done..|].
  { unfold st1. simpl_state. unfold pile_push.
    rewrite list_lookup_total_insert_ne by lia.
    rewrite Forall_lookup in Hdown |- *. intros i r Hr. unfold card. simpl_state.
    rewrite card_at_write_facingUp_ne; [by eapply Hdown|].
    intros <-. eapply Hne; [by eapply list_elem_of_lookup_2|].
    by apply list_elem_of_singleton. }
  destruct (undeal_one stack c st ref ps s1) as (s' & Hu & ? & ?);
    [exact Hpop|lia|exact Href|exact Hp1|exact Hd1|].
  exists s'. rewrite reverse_cons, undealCards_app, Hu1. cbn [mbind option_bind].
  split_and!; [done..|]. by rewrite (undealCards_moves _ _ _ _ Hu).
Qed.

Lemma undo_deal s thisMove rest :
  moves s = rest ++ [thisMove] → cardId thisMove = -1 →
  undo s = undoFinish <$> undoDeal (set_moves rest s).
Proof.
  intros Hm H1. unfold undo. cbn [undo_fuel].
  by rewrite Hm, js_pop_snoc, decide_True.
Qed.

(** The log after a deal can be unwound: [undo] finds the stack that
    was dealt, which is the lowest empty one, and puts the ten cards
    back. *)
Lemma deal_undoes_to k st st1 X :
  table_ok st → nextDealStack st = Z.of_nat k →
  dealCards k (seq 0 10) st = Some st1 →
  piles X = piles st1 → unmarked (deck X) = unmarked (deck st1) →
  moves X = moves st ++ [mkMove (-1) (Z.of_nat k) (-1) (FNum (-1))] →
  undoes_to X st.
Proof.
  intros Hok Hk H HpX HdX HmX.
  destruct (dealCards_stock k st st1 Hok Hk H) as (Hlt & Hlen & Hnil & Hsame & _).
  pose proof (table_wf _ Hok) as Hwf. destruct (table_stock _ Hok) as [_ Ho Hdn].
  intros s (Hps & Hms & Hds).
  rewrite (undo_deal s (mkMove (-1) (Z.of_nat k) (-1) (FNum (-1))) (moves st))
    by (rewrite ?Hms, ?HmX; done).
  set (s0 := set_moves (moves st) s). unfold undoDeal.
  assert (list_find (λ stack, length (piles s0 !!! stack) = 0%nat) (seq 0 5)
          = Some (k, k)) as ->.
  { apply list_find_Some. unfold s0. simpl_state. rewrite Hps, HpX.
    split_and!; [by apply lookup_seq_lt|by rewrite Hnil|].
    intros j y Hj Hjk Hz. apply lookup_seq in Hj as [-> _]. simpl in Hz.
    rewrite Hsame in Hz by lia. by apply (Ho j k). }
  destruct (deal_undeal k (seq 0 10) st st1 s0) as (s' & -> & Hp' & Hd' & Hm');
    [done|lia|by apply Forall_seq; intros; lia|by apply Hdn|done|
     unfold s0; simpl_state; congruence..|].
  cbn [mbind option_bind fmap option_fmap option_map]. eexists. split; [done|].
  etrans; [|apply same_table_undoFinish]. by split_and!.
Qed.

Lemma unwinds_deal k st st1 X :
  table_ok st → unwinds st → nextDealStack st = Z.of_nat k →
  dealCards k (seq 0 10) st = Some st1 →
  piles X = piles st1 → unmarked (deck X) = unmarked (deck st1) →
  moves X = moves st ++ [mkMove (-1) (Z.of_nat k) (-1) (FNum (-1))] →
  unwinds X.
Proof.
  intros Hok Hu Hk H HpX HdX HmX.
  apply (unwinds_step X st); [done..|rewrite HmX, length_app; simpl; lia|].
  by eapply deal_undoes_to.
Qed.

End DealStep.

(** ** The handlers *)

Section Handlers.
Implicit Types (st s : State).

Lemma deal_history st st' :
  table_ok st → unwinds st → deal st = Some st' → table_ok st' ∧ unwinds st'.
Proof.
  intros Hok Hu H.
  apply deal_dealt in H as [[msg [->| ->]]|(k & st1 & b & st3 & Hk & Hd & Hc & Hst')].
  - by rewrite <- (same_table_alert msg st).
  - assert (same_table st (set_dealDisabled true (alert msg st))) as <- by done.
    done.
  - set (R := recordMove _ _ _ _ _) in Hc.
    destruct (checkAndDoRemove_history R b st3) as [Hok3 Hu3]; [..|done|].
    + eapply (dealCards_table_ok k st st1); [done..| |];
        unfold R; by autorewrite with spider.
    + eapply (unwinds_deal k st st1); [done..| | |];
        [unfold R; by autorewrite with spider..|].
      unfold R. by rewrite recordMove_moves, (dealCards_moves _ _ _ _ Hd).
    + assert (same_table st3 st') as <-; [|done].
      destruct Hst' as [-> | ->]; [apply same_table_refreshTable|].
      etrans; [apply same_table_refreshTable|done].
Qed.

Lemma undo_history st st' :
  table_ok st → unwinds st → undo st = Some st' → table_ok st' ∧ unwinds st'.
Proof.
  intros Hok Hu H. destruct Hu as [st Hnil|st prev Hokp Hup _ Hun].
  - rewrite undo_empty in H by done. injection H as <-.
    rewrite <- (same_table_alert _ st). split; [done|by apply unwinds_nil].
  - destruct (Hun st) as (s' & Hs' & Hsame); [done|].
    rewrite H in Hs'. injection Hs' as <-. by rewrite <- Hsame.
Qed.

(** A deal that is recorded is taken back by [undo], with the suits
    it completed. *)
Lemma deal_back st st' :
  table_ok st → deal st = Some st' →
  (length (moves st) < length (moves st'))%nat → undoes_to st' st.
Proof.
  intros Hok H Hlen.
  apply deal_dealt in H as [[msg [->| ->]]|(k & st1 & b & st3 & Hk & Hd & Hc & Hst')];
    [simpl in Hlen; lia..|].
  set (R := recordMove _ _ _ _ _) in Hc.
  assert (same_table st3 st') as Hsame.
  { destruct Hst' as [-> | ->]; [apply same_table_refreshTable|].
    etrans; [apply same_table_refreshTable|done]. }
  destruct (checkAndDoRemove_back R b st3) as [_ Hb]; [|done|].
  { eapply (dealCards_table_ok k st st1); [done..| |];
      unfold R; by autorewrite with spider. }
  pose proof Hsame as (_ & Hm & _).
  destruct b; [|rewrite Hm, Hb in Hlen; simpl in Hlen; lia].
  rewrite <- Hsame. apply Hb.
  eapply (deal_undoes_to k st st1); [done..| | |];
    [unfold R; by autorewrite with spider..|].
  unfold R. by rewrite recordMove_moves, (dealCards_moves _ _ _ _ Hd).
Qed.

(** Repeated, [undo] empties a log that can be unwound, in no more
    calls than the log has records, and leaves a table in order. *)
Lemma undo_times_empties st :
  table_ok st → unwinds st → ∀ s, same_table st s →
  ∃ n s', (n ≤ length (moves st))%nat ∧ undo_times n s = Some s'
    ∧ moves s' = [] ∧ table_ok s'.
Proof.
  intros Hok Hu. induction Hu as [st Hnil|st prev Hokp Hup IH Hlt Hun]; intros s Hs.
  - exists 0%nat, s. pose proof Hs as (_ & Hm & _).
    split_and!; [lia|done|congruence|by rewrite <- Hs].
  - destruct (Hun s Hs) as (s1 & Hu1 & Hs1).
    destruct (IH Hokp s1 Hs1) as (n & s' & Hn & Hu & Hm & Hok').
    exists (S n), s'. split_and!; [lia| |done..]. simpl. by rewrite Hu1.
Qed.

(** [undo] does not fail on a log that can be unwound. *)
Lemma undo_total st : unwinds st → is_Some (undo st).
Proof.
  intros Hu. destruct Hu as [s Hnil|s prev _ _ _ Hun]; [by rewrite undo_empty|].
  destruct (Hun s) as (s' & -> & _); done.
Qed.

Lemma canDrag_lt st ref : canDrag (card st ref) = true → (ref < length (deck st))%nat.
Proof.
  intros Hc. destruct (decide (ref < length (deck st))%nat); [done|].
  unfold card, card_at in Hc.
  by rewrite list_lookup_total_alt, lookup_ge_None_2 in Hc by lia.
Qed.

(** A card with the mark lies in a column. *)
Lemma dragged_source st cardId :
  wf st → marks_ok st → canDrag (card st cardId) = true →
  ∃ c src spile p,
    deck st !! cardId = Some c ∧ id c = cardId ∧ (13 ≤ src)%nat
    ∧ piles st !! src = Some spile ∧ spile !! p = Some cardId.
Proof.
  intros Hwf Hm Hc. pose proof (canDrag_lt _ _ Hc) as Hlt.
  destruct (lookup_lt_is_Some_2 _ _ Hlt) as [c Hd].
  rewrite (wf_deck _ Hwf) in Hlt.
  destruct (marked_in_column st cardId Hwf Hm Hlt Hc)
    as (src & spile & p & ? & ? & ? & _).
  exists c, src, spile, p. split_and!; [done| |done..]. by apply (wf_ids _ Hwf).
Qed.

(** A drop of a card that could be dragged keeps the table in order
    and the log unwindable. *)
Lemma moveCard_history cardId tg st b st' :
  table_ok st → unwinds st → marks_ok st → canDrag (card st cardId) = true →
  moveCard cardId tg st = Some (b, st') → table_ok st' ∧ unwinds st'.
Proof.
  intros Hok Hu Hm Hc H. pose proof (table_wf _ Hok) as Hwf.
  destruct b; last first.
  { apply moveCard_false in H as [t ->].
    assert (same_table st (set_topCard t st)) as <- by done. done. }
  destruct (dragged_source st cardId Hwf Hm Hc)
    as (c & src & spile & p & _ & _ & Hsrc & Hs & Hp).
  destruct (moveCard_moved_to _ _ _ _ Hwf H)
    as (src' & spile' & p' & tgt & turned & t & sT & pl & st3
        & Hs' & Hp' & Htgt & Htg & Hturn & Hcheck & Hst').
  assert (src' = src) as ->.
  { eapply (concat_NoDup_lookup (piles st)); [by apply wf_NoDup|done..| |];
      by eapply list_elem_of_lookup_2. }
  set (R := recordMove _ _ _ _ _) in Hcheck.
  destruct (checkAndDoRemove_history R pl st3) as [Hok3 Hu3]; [..|done|].
  - apply (move_table_ok src p' tgt turned t sT st); [done..| |];
      unfold R; by autorewrite with spider.
  - apply (unwinds_move cardId src spile' p' tgt turned t sT st); [done..| | |];
      [unfold R; by autorewrite with spider..|].
    by eapply moved_log.
  - assert (same_table st3 st') as <-; [|done].
    destruct pl; subst st'; [apply same_table_refreshTable|done].
Qed.

(** A move that is recorded is taken back by [undo], with the suits
    it completed. *)
Lemma moveCard_back cardId tg st st' :
  table_ok st → marks_ok st → canDrag (card st cardId) = true →
  moveCard cardId tg st = Some (true, st') →
  (length (moves st) < length (moves st'))%nat → undoes_to st' st.
Proof.
  intros Hok Hm Hc H Hlen. pose proof (table_wf _ Hok) as Hwf.
  destruct (dragged_source st cardId Hwf Hm Hc)
    as (c & src & spile & p & _ & _ & Hsrc & Hs & Hp).
  destruct (moveCard_moved_to _ _ _ _ Hwf H)
    as (src' & spile' & p' & tgt & turned & t & sT & pl & st3
        & Hs' & Hp' & Htgt & Htg & Hturn & Hcheck & Hst').
  assert (src' = src) as ->.
  { eapply (concat_NoDup_lookup (piles st)); [by apply wf_NoDup|done..| |];
      by eapply list_elem_of_lookup_2. }
  set (R := recordMove _ _ _ _ _) in Hcheck.
  destruct (checkAndDoRemove_back R pl st3) as [_ Hb]; [|done|].
  { apply (move_table_ok src p' tgt turned t sT st); [done..| |];
      unfold R; by autorewrite with spider. }
  destruct pl; subst st'; [|rewrite Hb in Hlen; simpl in Hlen; lia].
  rewrite <- (same_table_refreshTable st3). apply Hb.
  apply (move_undoes_to cardId src spile' p' tgt turned t sT st); [done..| | |];
    [unfold R; by autorewrite with spider..|].
  by eapply moved_log.
Qed.

End Handlers.

(** ** Examples *)

(** The table after the first deal from [started]. *)
Definition dealt : State :=
  Eval vm_compute in default started (deal started).

Lemma dealt_deal : deal started = Some dealt.
Proof. vm_compute. reflexivity. Qed.

Lemma started_table_ok : table_ok started.
Proof. exact (proj1 (newGame_table_ok _ _ started_new)). Qed.

(** ** Theorems *)

(** C20. A deal and its undo: when [deal] on a table in order has
    dealt a stack (the log got longer), [undo] on the table it left,
    whatever the draggable marks and the fields of the page are,
    returns and leaves the piles, the log and the faces of the cards as
    they were before the deal.  This holds also when the cards dealt
    completed suits, which [deal] then removed: [undo] takes back the
    removals and then the deal. *)
Theorem deal_undo (st st' : State) :
  table_ok st → deal st = Some st' →
  (length (moves st) < length (moves st'))%nat →
  undoes_to st' st.
Proof. apply deal_back. Qed.

Lemma deal_undo_witness : undoes_to dealt started.
Proof.
  apply (deal_undo started dealt started_table_ok dealt_deal).
  vm_compute. lia.
Defined.
