(* ===== verification/Game.v ===== *)
(** * Game: the handlers of the page and the states a game reaches

    [initHandlers] (lines 83-201 of [spider-solitaire.js]) binds the
    buttons, the keyboard, the drop of a dragged card and the click on
    a card to the engine.  [Event] lists what the page can deliver,
    [handle] is the handler bound to each event, [enabled] says which
    events the page can deliver in a state, and [reachable] are the
    states a game goes through from a newly dealt table.

    The file shows that every reachable state is in order
    ([game_ok]: the table of [Table.table_ok], the draggable marks of
    [Marks.marks_ok], a selection that can be dragged, a log that
    [History.unwinds]), that no handler fails with a [TypeError] on a
    reachable state, and that the Undo button, pressed often enough,
    brings any reachable state back to an empty log. *)

From stdpp Require Import base list strings numbers option.
From S2P Require Import Prelude Cards State Storage Tableau Dealing Scores.
From S2P Require Import Marks Moves Safety UndoLog Clearance Table History.

#[local] Open Scope Z_scope.

(** ** The events *)

(** What [keyPress] reads of a keyboard event.  [key] is absent on
    browsers that do not have the property. *)
Record KeyEvent := mkKeyEvent {
  ctrlKey : bool;
  key : option string;
  keyCode : nat
}.

(** The events bound at lines 86-175 that reach the engine.  A drag is
    one event: the browser delivers no click and no key between
    [dragstart] and [drop].  The buttons Compact and Hide and the
    right click only change the page. *)
Inductive Event :=
| ClickDeal  (** [#Deal] or a stack of the stock, lines 86 and 99 *)
| ClickNew  (** [#New], line 88 *)
| ConfirmNew  (** the button Confirm of the dialog of line 212 *)
| ClickUndo  (** [#Undo], line 90 *)
| ClickMenu  (** [#Menu], line 92 *)
| KeyUp (ev : KeyEvent)  (** line 102 *)
| DragDrop (cardId : nat) (tg : Target)  (** lines 125-142 *)
| Click (tg : Target).  (** lines 145-175 *)

(** ** The handlers *)

(** [String.prototype.toLowerCase], on the letters A to Z. *)
Definition lower (a : Ascii.ascii) : Ascii.ascii :=
  let n := Ascii.nat_of_ascii a in
  if decide (65 ≤ n ≤ 90)%nat then Ascii.ascii_of_nat (n + 32) else a.

Fixpoint toLowerCase (s : string) : string :=
  match s with
  | EmptyString => EmptyString
  | String a s => String (lower a) (toLowerCase s)
  end.

(** [checkForNewGame]: while a game is being played the dialog asks
    first, and nothing changes until it is answered. *)
Definition checkForNewGame (st : State) : option State :=
  if negb (playing st) then newGame true st else Some st.

(** [abortGame], the answer Confirm to that dialog. *)
Definition abortGame (st : State) : option State :=
  let st := set_statPlayed (S (statPlayed st)) st in
  let st := saveGame st in
  newGame true st.

(** [keyPress]: ctrl-z is [undo] while there are moves.  Reading
    [ev.key] of an event without it throws, inside the [try], so
    nothing is done.  Escape is [hide], which only changes the page.
    The [catch] of line 589 also swallows a [TypeError] of [undo],
    which leaves the game as [undo] had changed it by then: this is
    [None] here as it is for [undo]. *)
Definition keyPress (ev : KeyEvent) (st : State) : option State :=
  match key ev with
  | None => Some st
  | Some k =>
      if ctrlKey ev
         && (bool_decide (toLowerCase k = "z"%string)
             || bool_decide (keyCode ev = 90%nat))
         && bool_decide (0 < length (moves st))%nat
      then undo st
      else Some st
  end.

(** The handler of [drop] (lines 135-142); the id is the one
    [dragstart] stored, of an element with the class [canDrag]. *)
Definition drop (cardId : nat) (tg : Target) (st : State) : option State :=
  '(_, st) ← moveCard cardId tg st;
  Some st.

(** [event.target.classList.contains('canDrag')]: the class is put on
    the element of a card and taken off it together with the field
    [canDrag] of the card (lines 997-1012); a base never has it. *)
Definition target_canDrag (tg : Target) (st : State) : bool :=
  match tg with
  | Base _ => false
  | CardEl cardId =>
      bool_decide (0 ≤ cardId) && canDrag (card st (Z.to_nat cardId))
  end.

(** [event.target.id == ssObj.cardSelected]; the id of a base is not a
    number. *)
Definition target_is (tg : Target) (cardId : Z) : bool :=
  match tg with
  | Base _ => false
  | CardEl cardId' => bool_decide (cardId' = cardId)
  end.

(** [ssObj.cardSelected = event.target.id], for an element that has
    the class [canDrag]. *)
Definition select (tg : Target) (st : State) : State :=
  match tg with
  | Base _ => st
  | CardEl cardId => set_cardSelected cardId st
  end.

(** The handler of a click (lines 145-175): select a card, deselect
    it, or move the selected card to where the click was.
    [cardSelected] is -1 or the id of a card: every assignment to it
    writes one or the other. *)
Definition click (tg : Target) (st : State) : option State :=
  if decide (cardSelected st = -1) then
    if negb (target_canDrag tg st) then Some st
    else Some (select tg st)
  else if target_is tg (cardSelected st) then
    Some (set_cardSelected (-1) st)
  else
    '(moved, st) ← moveCard (Z.to_nat (cardSelected st)) tg st;
    if (moved : bool) then Some (set_cardSelected (-1) st)
    else if negb (target_canDrag tg st) then Some st
    else Some (select tg (unselectCurrentSelectedCard st)).

(** The bindings of [initHandlers].  The click on [#Menu] passes the
    event to [showMenu], which is not a number, so no game is started
    (line 603). *)
Definition handle (ev : Event) (st : State) : option State :=
  match ev with
  | ClickDeal => deal st
  | ClickNew => checkForNewGame st
  | ConfirmNew => abortGame st
  | ClickUndo => undo st
  | ClickMenu => showMenu None st
  | KeyUp ev => keyPress ev st
  | DragDrop cardId tg => drop cardId tg st
  | Click tg => click tg st
  end.

(** The events one after the other. *)
Fixpoint run (evs : list Event) (st : State) : option State :=
  match evs with
  | [] => Some st
  | ev :: evs => handle ev st ≫= run evs
  end.

(** ** What the page can deliver *)

(** The elements that take a drop or a click: the ten bases and the
    cards. *)
Definition valid_target (tg : Target) : Prop :=
  match tg with
  | Base k => (k < 10)%nat
  | CardEl cardId => 0 ≤ cardId < 104
  end.

#[export] Instance valid_target_dec tg : Decision (valid_target tg).
Proof. destruct tg; apply _. Defined.

(** A drag starts on an element with the class [canDrag] (line 126)
    and ends on a base or a card; a click is on a base or a card.  The
    buttons and the keys are always there: a disabled button delivers
    no click, but the stacks of the stock and ctrl-z do. *)
Definition enabled (ev : Event) (st : State) : Prop :=
  match ev with
  | DragDrop cardId tg => canDrag (card st cardId) = true ∧ valid_target tg
  | Click tg => valid_target tg
  | _ => True
  end.

#[export] Instance enabled_dec ev st : Decision (enabled ev st).
Proof. destruct ev; apply _. Defined.

(** The states of a game: a table newly dealt, and what the handlers
    make of it. *)
Inductive reachable : State → Prop :=
| reachable_new st0 st : newGame true st0 = Some st → reachable st
| reachable_step ev st st' :
    reachable st → enabled ev st → handle ev st = Some st' → reachable st'.

(** ** The invariant *)

(** The selection is a card that can be dragged. *)
Definition selection_ok (st : State) : Prop :=
  cardSelected st = -1
  ∨ ∃ ref : nat, cardSelected st = Z.of_nat ref ∧ canDrag (card st ref) = true.

Record game_ok (st : State) : Prop := mk_game_ok {
  game_table : table_ok st;
  game_marks : marks_ok st;
  game_selection : selection_ok st;
  game_log : unwinds st
}.

(** A handler either leaves the cards and the selection as they are,
    or ends with [refreshTable], which marks the cards anew and drops
    the selection. *)
Definition quiet (st st' : State) : Prop :=
  piles st' = piles st ∧ deck st' = deck st
  ∧ cardSelected st' = cardSelected st.

Definition refreshed (st' : State) : Prop :=
  ∃ X, piles st' = piles (refreshTable X) ∧ deck st' = deck (refreshTable X)
    ∧ cardSelected st' = -1.

(** ** The handlers return *)

Section Totality.
Implicit Types (st s : State) (c : Card).

Lemma transferCards_total c sourcePile targetPile st (src p tgt : nat) :
  result sourcePile = Z.of_nat src → pos sourcePile = Z.of_nat p →
  result targetPile = Z.of_nat tgt →
  (src < length (piles st))%nat → (tgt < length (piles st))%nat →
  (∀ turned sT,
     turnTopCard src (set_piles (transfer src p tgt (piles st)) st)
     = (turned, sT) →
     is_Some (checkAndDoRemove
                (recordMove (Z.of_nat (id c)) (Z.of_nat src) (Z.of_nat tgt)
                   (FBool turned) sT))) →
  is_Some (transferCards c sourcePile targetPile st).
Proof.
  intros Hsrc Hpos Htgt Hs Ht Hcheck. unfold transferCards. cbv zeta.
  rewrite Hsrc, Hpos, Htgt, pile_index_of_nat by done.
  cbn [mbind option_bind]. simpl_state.
  rewrite pile_index_of_nat by (simpl_state; by rewrite pile_splice_length).
  cbn [mbind option_bind]. simpl_state. rewrite set_piles_twice.
  destruct (turnTopCard _ _) as [turned sT] eqn:Hturn.
  destruct (Hcheck turned sT eq_refl) as [[b st3] ->]. by cbn.
Qed.

Lemma getPileDroppedOn_total tg st :
  wf st → valid_target tg →
  ∃ r t (tgt : nat),
    getPileDroppedOn tg st = Some (r, set_topCard t st)
    ∧ result r = Z.of_nat tgt ∧ (tgt < 23)%nat.
Proof.
  intros Hwf Hv. destruct tg as [k|cardId]; simpl in *.
  - exists (mkPileRef (13 + Z.of_nat k) None (-1)), (topCard st), (13 + k)%nat.
    rewrite set_topCard_same. split_and!; [done|simpl; lia|lia].
  - destruct (wf_locate st (Z.to_nat cardId) Hwf) as (i & pile & q & Hi & Hq); [lia|].
    pose proof (getPileContainingCard_found st _ i pile q Hwf Hi Hq) as Hf.
    rewrite Z2Nat.id in Hf by lia. rewrite Hf. eexists _, _, i.
    split_and!; [done..|].
    apply lookup_lt_Some in Hi. by rewrite (wf_piles _ Hwf) in Hi.
Qed.

(** A drop of a card that could be dragged, on an element of the
    page, does not fail. *)
Lemma moveCard_total cardId tg st :
  table_ok st → marks_ok st → canDrag (card st cardId) = true →
  valid_target tg → is_Some (moveCard cardId tg st).
Proof.
  intros Hok Hm Hc Hv. pose proof (table_wf _ Hok) as Hwf.
  destruct (dragged_source st cardId Hwf Hm Hc)
    as (c & src & spile & p & Hd & Hid & Hsrc & Hs & Hp).
  destruct (getPileDroppedOn_total tg st Hwf Hv) as (r & t & tgt & Hdrop & Hr & Htgt).
  pose proof (getPileDroppedOn_target _ _ _ _ tgt Hdrop Hr) as Htg.
  unfold moveCard. rewrite Hdrop, Hd. cbn [mbind option_bind].
  rewrite decide_False by lia.
  destruct (canLand (Some c) r _) as [[]|] eqn:Hland; [|done|];
    last by (unfold canLand in Hland; destruct (cardOnTop r)).
  cbn [mbind option_bind].
  rewrite Hid, (getPileContainingCard_found _ cardId src spile p);
    [|by rewrite <- (keeps_topCard t st)|done..].
  cbn [mbind option_bind]. rewrite set_topCard_twice.
  apply (transferCards_total c _ _ _ src p tgt); [done..| | |].
  - simpl_state. by eapply lookup_lt_Some.
  - simpl_state. by rewrite (wf_piles _ Hwf).
  - intros turned sT Hturn.
    match goal with |- is_Some (checkAndDoRemove ?R) =>
      assert (table_ok R) as [? ? _]; [|by apply checkAndDoRemove_safe] end.
    apply (move_table_ok src p tgt turned (list.last spile) sT st);
      [done..|by rewrite (wf_piles _ Hwf)|done|done|
       by rewrite recordMove_piles|by rewrite recordMove_deck].
Qed.

End Totality.

(** ** The handlers keep the marks and the selection *)

Section Settles.
Implicit Types (st X : State).

Lemma quiet_settled st st' :
  quiet st st' → marks_ok st → selection_ok st → marks_ok st' ∧ selection_ok st'.
Proof.
  intros (Hp & Hd & Hc) Hm Hs. split; [by apply (marks_ok_same st)|].
  unfold selection_ok, card. by rewrite Hc, Hd.
Qed.

Lemma refreshed_settled st' : refreshed st' → marks_ok st' ∧ selection_ok st'.
Proof.
  intros (X & Hp & Hd & Hc). split; [|by left].
  apply (marks_ok_same (refreshTable X)); [done..|apply refreshTable_marks].
Qed.

Lemma settled st st' :
  quiet st st' ∨ refreshed st' → marks_ok st → selection_ok st →
  marks_ok st' ∧ selection_ok st'.
Proof.
  intros [Hq|Hr] Hm Hs; [by apply (quiet_settled st)|by apply refreshed_settled].
Qed.

Lemma undoFinish_refreshed X : refreshed (undoFinish X).
Proof.
  exists (set_score (score X - 1) X). unfold undoFinish.
  by rewrite saveGame_frame.
Qed.

Lemma newGame_refreshed forgetOld st st' :
  newGame forgetOld st = Some st' → refreshed st'.
Proof.
  unfold newGame. intros H. apply bind_Some in H as (X & _ & [= <-]).
  by exists (set_cardSelected (-1) X).
Qed.

Lemma deal_settles st st' : deal st = Some st' → quiet st st' ∨ refreshed st'.
Proof.
  intros H.
  apply deal_dealt in H
    as [[msg [->| ->]]|(k & st1 & b & st3 & _ & _ & _ & [->| ->])];
    [by left..|right; by exists st3|right; by exists st3].
Qed.

(** What [undo] returns is what [undoFinish] returns, unless the log
    was empty. *)
Lemma undo_fuel_finished fuel st st' :
  undo_fuel fuel st = Some (Some st') →
  (∃ msg, st' = alert msg st) ∨ ∃ X, st' = undoFinish X.
Proof.
  destruct fuel as [|fuel]; [done|]. simpl. intros H.
  destruct (js_pop (moves st)) as [[thisMove rest]|];
    [|simplify_eq; left; by eexists].
  right. repeat case_decide.
  - injection H as H. apply fmap_Some in H as (X & _ & ->). by exists X.
  - destruct (undoClearance _ _) as [s|]; [|done].
    apply fmap_Some in H as (o & _ & H). symmetry in H.
    apply fmap_Some in H as (X & _ & ->). by exists X.
  - injection H as H. apply fmap_Some in H as (X & _ & ->). by exists X.
Qed.

Lemma undo_settles st st' : undo st = Some st' → quiet st st' ∨ refreshed st'.
Proof.
  unfold undo. intros H.
  destruct (undo_fuel _ st) as [[s|]|] eqn:Hf; try done.
  injection H as ->.
  apply undo_fuel_finished in Hf as [[msg ->]|[X ->]]; [by left|].
  right. apply undoFinish_refreshed.
Qed.

Lemma moveCard_settles cardId tg st b st' :
  wf st → moveCard cardId tg st = Some (b, st') → quiet st st' ∨ refreshed st'.
Proof.
  intros Hwf H. destruct b; [|apply moveCard_false in H as [t ->]; by left].
  right. destruct (moveCard_moved_to _ _ _ _ Hwf H)
    as (src & spile & p & tgt & turned & t & sT & pl & st3
        & _ & _ & _ & _ & _ & Hcheck & ->).
  destruct pl; [by exists st3|].
  apply checkAndDoRemove_inv in Hcheck as (sh & X1 & _ & s0 & s1 & Hnew & ->).
  apply newGame_refreshed in Hnew as (X & ? & ? & ?). by exists X.
Qed.

End Settles.

(** ** The handlers keep the game in order *)

Section Invariant.
Implicit Types (st s : State) (ev : Event).

(** What a handler has to show. *)
Lemma game_ok_step st st' :
  game_ok st → table_ok st' ∧ unwinds st' → quiet st st' ∨ refreshed st' →
  game_ok st'.
Proof.
  intros [_ Hm Hs _] [Hok Hu] Hq.
  destruct (settled st st' Hq Hm Hs). by split.
Qed.

(** Another selection, of a card that can be dragged. *)
Lemma game_ok_select cardId st :
  game_ok st →
  cardId = -1 ∨ (0 ≤ cardId ∧ canDrag (card st (Z.to_nat cardId)) = true) →
  game_ok (set_cardSelected cardId st).
Proof.
  intros [Hok Hm Hs Hu] Hc.
  assert (same_table st (set_cardSelected cardId st)) as Hsame by done.
  split; [by rewrite <- Hsame|by apply (marks_ok_same st)| |by rewrite <- Hsame].
  destruct Hc as [->|[Hge Hc]]; [by left|right].
  exists (Z.to_nat cardId). by rewrite Z2Nat.id.
Qed.

Lemma newGame_ok st st' : newGame true st = Some st' → game_ok st'.
Proof.
  intros H. destruct (newGame_table_ok _ _ H) as [Hok Hm].
  destruct (refreshed_settled st' (newGame_refreshed _ _ _ H)).
  split; [done..|by apply unwinds_nil].
Qed.

Lemma drop_ok cardId tg st b st' :
  game_ok st → canDrag (card st cardId) = true →
  moveCard cardId tg st = Some (b, st') → game_ok st'.
Proof.
  intros Hg Hc H. pose proof Hg as [Hok Hm Hs Hu].
  apply (game_ok_step st); [done|by eapply moveCard_history|].
  eapply moveCard_settles; [by apply Hok|done].
Qed.

(** The selection, when there is one, can be dragged. *)
Lemma selected_canDrag st :
  selection_ok st → cardSelected st ≠ -1 →
  canDrag (card st (Z.to_nat (cardSelected st))) = true.
Proof. intros [?|(ref & -> & Hc)] Hne; [done|]. by rewrite Nat2Z.id. Qed.

Lemma target_canDrag_select tg st :
  target_canDrag tg st = true →
  ∃ cardId, select tg st = set_cardSelected cardId st
    ∧ 0 ≤ cardId ∧ canDrag (card st (Z.to_nat cardId)) = true.
Proof.
  destruct tg as [k|cardId]; [done|]. simpl.
  intros [Hge%bool_decide_eq_true Hc]%andb_true_iff. by exists cardId.
Qed.

Lemma click_ok tg st st' : game_ok st → click tg st = Some st' → game_ok st'.
Proof.
  intros Hg. unfold click. case_decide as Hsel.
  - destruct (target_canDrag tg st) eqn:Ht; simpl; intros [= <-]; [|done].
    destruct (target_canDrag_select _ _ Ht) as (cardId & -> & ? & ?).
    apply game_ok_select; auto.
  - destruct (target_is tg (cardSelected st)); [intros [= <-]|].
    { apply game_ok_select; auto. }
    intros H. apply bind_Some in H as ([moved s1] & Hmove & H).
    assert (game_ok s1) as Hg1.
    { eapply drop_ok; [done| |done]. apply selected_canDrag; [apply Hg|done]. }
    destruct moved; [injection H as <-; apply game_ok_select; auto|].
    destruct (target_canDrag tg s1) eqn:Ht; simpl in H; injection H as <-;
      [|done].
    destruct (target_canDrag_select _ _ Ht) as (cardId & Hsl & ? & ?).
    unfold unselectCurrentSelectedCard.
    replace (select tg (set_cardSelected (-1) s1))
      with (set_cardSelected cardId (set_cardSelected (-1) s1))
      by (by destruct tg; simplify_eq/=).
    apply game_ok_select; [apply game_ok_select; auto|auto].
Qed.

Lemma deal_ok st st' : game_ok st → deal st = Some st' → game_ok st'.
Proof.
  intros Hg H. pose proof Hg as [Hok Hm Hs Hu].
  apply (game_ok_step st); [done|by apply (deal_history st)|by apply deal_settles].
Qed.

Lemma undo_ok st st' : game_ok st → undo st = Some st' → game_ok st'.
Proof.
  intros Hg H. pose proof Hg as [Hok Hm Hs Hu].
  apply (game_ok_step st); [done|by apply (undo_history st)|by apply undo_settles].
Qed.

Lemma checkForNewGame_ok st st' :
  game_ok st → checkForNewGame st = Some st' → game_ok st'.
Proof.
  unfold checkForNewGame. intros Hg H.
  destruct (negb (playing st)); [by eapply newGame_ok|by injection H as <-].
Qed.

Lemma abortGame_ok st st' : abortGame st = Some st' → game_ok st'.
Proof. unfold abortGame. apply newGame_ok. Qed.

Lemma showMenu_ok st st' : game_ok st → showMenu None st = Some st' → game_ok st'.
Proof.
  unfold showMenu. cbn [mbind option_bind]. intros Hg [= <-].
  pose proof Hg as [Hok Hm Hs Hu].
  apply (game_ok_step st); [done| |by left].
  assert (same_table st (set_highScores (fixLevel <$> highScores st) st))
    as <- by done. done.
Qed.

Lemma keyPress_ok kev st st' :
  game_ok st → keyPress kev st = Some st' → game_ok st'.
Proof.
  unfold keyPress. intros Hg H. destruct (key kev); [|by injection H as <-].
  destruct (_ && _); [by eapply undo_ok|by injection H as <-].
Qed.

Lemma handle_ok ev st st' :
  game_ok st → enabled ev st → handle ev st = Some st' → game_ok st'.
Proof.
  intros Hg Hen.
  destruct ev as [| | | | |kev|cardId tg|tg]; cbn [handle]; cbn [enabled] in Hen.
  - by apply deal_ok.
  - by apply checkForNewGame_ok.
  - by apply abortGame_ok.
  - by apply undo_ok.
  - by apply showMenu_ok.
  - by apply keyPress_ok.
  - unfold drop. intros H. apply bind_Some in H as ([b s1] & Hmove & [= <-]).
    eapply drop_ok; [done|apply Hen|done].
  - by apply click_ok.
Qed.

Lemma handle_returns ev st : game_ok st → enabled ev st → is_Some (handle ev st).
Proof.
  intros [Hok Hm Hs Hu] Hen.
  assert (∀ s, is_Some (newGame true s)) as Hnew.
  { intros s. destruct (newGame_spec s) as (s' & -> & _). done. }
  destruct ev as [| | | | |kev|cardId tg|tg]; cbn [handle enabled] in Hen |- *.
  - apply deal_total; apply Hok.
  - unfold checkForNewGame. destruct (negb (playing st)); [apply Hnew|done].
  - unfold abortGame. apply Hnew.
  - by apply undo_total.
  - unfold showMenu. by cbn [mbind option_bind].
  - unfold keyPress. destruct (key kev); [|done].
    destruct (_ && _); [by apply undo_total|done].
  - destruct Hen as [Hc Hv]. unfold drop.
    by destruct (moveCard_total cardId tg st Hok Hm Hc Hv) as [[b s1] ->].
  - unfold click. case_decide as Hsel; [by destruct (target_canDrag tg st)|].
    destruct (target_is tg (cardSelected st)); [done|].
    destruct (moveCard_total (Z.to_nat (cardSelected st)) tg st Hok Hm)
      as [[b s1] ->]; [by apply selected_canDrag|done|].
    cbn [mbind option_bind]. destruct b; [done|].
    by destruct (target_canDrag tg s1).
Qed.

Lemma reachable_game_ok st : reachable st → game_ok st.
Proof.
  induction 1 as [st0 st Hnew|ev st st' _ IH Hen H];
    [by eapply newGame_ok|by eapply handle_ok].
Qed.

(** [run] on presses of the Undo button. *)
Lemma run_undo n st : run (replicate n ClickUndo) st = undo_times n st.
Proof.
  revert st. induction n as [|n IH]; intros st; [done|]. simpl.
  destruct (undo st); [apply IH|done].
Qed.

Lemma reachable_run evs st st' :
  reachable st → (∀ ev s, ev ∈ evs → enabled ev s) →
  run evs st = Some st' → reachable st'.
Proof.
  revert st. induction evs as [|ev evs IH]; intros st Hr Hen H; simpl in H;
    [by injection H as <-|].
  apply bind_Some in H as (s1 & Hh & H).
  apply (IH s1); [|intros; apply Hen; by right|done].
  apply (reachable_step ev st); [done|apply Hen; by left|done].
Qed.

Lemma reachable_undo_times n st st' :
  reachable st → undo_times n st = Some st' → reachable st'.
Proof.
  rewrite <- run_undo. intros Hr. apply reachable_run; [done|].
  by intros ev s [-> _]%elem_of_replicate.
Qed.

End Invariant.

(** ** Undo after an action *)

Section Back.
Implicit Types (st s : State) (ev : Event).

(** [undo] does not make the log longer. *)
Lemma undo_shorter st st' :
  unwinds st → undo st = Some st' → (length (moves st') ≤ length (moves st))%nat.
Proof.
  intros Hu H. destruct Hu as [st Hnil|st prev _ _ Hlt Hun].
  - rewrite undo_empty in H by done. by injection H as <-.
  - destruct (Hun st) as (s' & Hs' & _ & Hm & _); [done|].
    rewrite H in Hs'. injection Hs' as <-. rewrite Hm. lia.
Qed.

Lemma drop_back cardId tg st b st' :
  game_ok st → canDrag (card st cardId) = true →
  moveCard cardId tg st = Some (b, st') →
  (length (moves st) < length (moves st'))%nat → undoes_to st' st.
Proof.
  intros [Hok Hm Hs Hu] Hc H Hlen. destruct b; [by eapply moveCard_back|].
  apply moveCard_false in H as [t ->]. simpl in Hlen. lia.
Qed.

Lemma same_table_select tg st : same_table st (select tg st).
Proof. by destruct tg. Qed.

(** A click changes the selection only, or it is a drop of the card
    selected and then changes the selection. *)
Lemma click_inv tg st st' :
  click tg st = Some st' →
  same_table st st'
  ∨ ∃ b s1, cardSelected st ≠ -1
      ∧ moveCard (Z.to_nat (cardSelected st)) tg st = Some (b, s1)
      ∧ same_table s1 st'.
Proof.
  unfold click. case_decide as Hsel.
  - destruct (negb _); intros [= <-]; left; [done|apply same_table_select].
  - destruct (target_is _ _); [intros [= <-]; by left|].
    intros H. apply bind_Some in H as ([moved s1] & Hmove & H).
    right. exists moved, s1. split_and!; [done..|].
    destruct moved; [by injection H as <-|].
    destruct (negb _); injection H as <-; [done|].
    etrans; [|apply same_table_select]. done.
Qed.

Lemma handle_back ev st st' :
  game_ok st → enabled ev st → handle ev st = Some st' →
  (length (moves st) < length (moves st'))%nat → undoes_to st' st.
Proof.
  intros Hg Hen. pose proof Hg as [Hok Hm Hs Hu].
  assert (∀ s, newGame true s = Some st' →
            (length (moves st) < length (moves st'))%nat → undoes_to st' st)
    as Hnew.
  { intros s [_ Hnil]%newGame_table_ok. rewrite Hnil. simpl. lia. }
  assert (undo st = Some st' →
            (length (moves st) < length (moves st'))%nat → undoes_to st' st)
    as Hundo.
  { intros H%undo_shorter; [lia|done]. }
  destruct ev as [| | | | |kev|cardId tg|tg]; cbn [handle]; cbn [enabled] in Hen.
  - by apply deal_back.
  - unfold checkForNewGame.
    destruct (negb (playing st)); [apply Hnew|intros [= <-]; lia].
  - unfold abortGame. apply Hnew.
  - done.
  - unfold showMenu. cbn [mbind option_bind]. intros [= <-]. simpl. lia.
  - unfold keyPress. destruct (key kev); [|intros [= <-]; lia].
    destruct (_ && _); [done|intros [= <-]; lia].
  - unfold drop. intros H. apply bind_Some in H as ([b s1] & Hmove & [= <-]).
    eapply drop_back; [done|apply Hen|done].
  - intros [Hsame|(b & s1 & Hsel & Hmove & Hsame)]%click_inv Hlen.
    + destruct Hsame as (_ & Hmv & _). rewrite Hmv in Hlen. lia.
    + rewrite <- Hsame. pose proof Hsame as (_ & Hmv & _). rewrite Hmv in Hlen.
      eapply drop_back; [done|by apply selected_canDrag|done..].
Qed.

End Back.

(** ** Examples *)

Lemma started_reachable : reachable started.
Proof. exact (reachable_new blank started started_new). Qed.

Lemma moved_drop : handle (DragDrop 94 (CardEl 95)) started = Some moved.
Proof. cbn [handle]. unfold drop. by rewrite moved_move. Qed.

Lemma moved_enabled : enabled (DragDrop 94 (CardEl 95)) started.
Proof. split; [by vm_compute|]. simpl. lia. Qed.

Lemma moved_reachable : reachable moved.
Proof.
  exact (reachable_step _ _ _ started_reachable moved_enabled moved_drop).
Qed.

(** ** Theorems *)

(** C21. The invariant of the game.  Every state that a game reaches
    from a newly dealt table, by clicks on the buttons, ctrl-z, drops
    of cards that could be dragged and clicks on cards and bases, is in
    order: the 104 cards lie in the 23 piles, each once; a home is
    empty or holds at least thirteen cards; a stack of the stock is
    empty or holds at least ten cards (more when cards were dropped on
    it), a stack of exactly ten lies face down, and no stack before
    one of exactly ten is empty; the cards marked draggable are those
    [setDraggableCards] marks; the selection, if there is one, is a
    card that can be dragged; and the log can be undone record by
    record. *)
Theorem reachable_ok (st : State) : reachable st → game_ok st.
Proof. apply reachable_game_ok. Qed.

Lemma reachable_ok_witness : game_ok moved.
Proof. exact (reachable_ok moved moved_reachable). Defined.

(** C22. No handler throws.  On every state a game reaches, each event
    the page can deliver (a button, a key, the drop of a draggable
    card on a base or a card, a click on a base or a card) is handled
    to the end: [deal], [undo], [moveCard], [newGame] and the handler
    of the click never read a card of an empty pile or a pile that
    does not exist. *)
Theorem handle_total (ev : Event) (st : State) :
  reachable st → enabled ev st → is_Some (handle ev st).
Proof. intros Hr. apply handle_returns. by apply reachable_game_ok. Qed.

Lemma handle_total_witness : is_Some (handle (DragDrop 94 (CardEl 95)) started).
Proof.
  exact (handle_total (DragDrop 94 (CardEl 95)) started
           started_reachable moved_enabled).
Defined.

(** C23. The Undo button always leads back to the start.  From every
    state a game reaches, pressing Undo at most as many times as the
    log has records succeeds each time and ends with an empty log, in
    a state that is again reachable. *)
Theorem undo_reaches_start (st : State) :
  reachable st →
  ∃ n st', (n ≤ length (moves st))%nat
    ∧ run (replicate n ClickUndo) st = Some st'
    ∧ moves st' = [] ∧ reachable st'.
Proof.
  intros Hr. destruct (reachable_game_ok st Hr) as [Hok _ _ Hu].
  destruct (undo_times_empties st Hok Hu st) as (n & st' & Hn & Hun & Hm & _);
    [done|].
  exists n, st'. rewrite run_undo. split_and!; [done..|].
  by eapply reachable_undo_times.
Qed.

Lemma undo_reaches_start_witness :
  ∃ n st', (n ≤ length (moves moved))%nat
    ∧ run (replicate n ClickUndo) moved = Some st'
    ∧ moves st' = [] ∧ reachable st'.
Proof. exact (undo_reaches_start moved moved_reachable). Defined.

(** C24. Undo after any action.  When an event handled on a reachable
    state has made the log longer (a deal, or a move by a drop or by a
    click, with the suits it completed), the Undo button pressed next
    succeeds and brings back the piles, the log and the faces of the
    cards of the state before the event. *)
Theorem undo_reverts (ev : Event) (st st' : State) :
  reachable st → enabled ev st → handle ev st = Some st' →
  (length (moves st) < length (moves st'))%nat →
  ∃ st'', handle ClickUndo st' = Some st'' ∧ same_table st st''.
Proof.
  intros Hr Hen H Hlen. cbn [handle].
  by apply (handle_back ev st st' (reachable_game_ok st Hr) Hen H Hlen).
Qed.

Lemma undo_reverts_witness :
  ∃ st'', handle ClickUndo moved = Some st'' ∧ same_table started st''.
Proof.
  apply (undo_reverts (DragDrop 94 (CardEl 95)) started moved
           started_reachable moved_enabled moved_drop).
  vm_compute. lia.
Defined.
